(** * The p2p overlay agent (p2p.go)

    A shallow embedding of the agent's peer registry ([PTPCloud.NetworkPeers]),
    of the introduction handshake ([ParseIntroString], [AddPeer],
    [HandleP2PMessage]), of the reconcile pass ([PurgePeers], [SyncPeers],
    [IntroducePeers], and the turn of the loop of [main] that calls them), of
    MAC generation ([GenerateMAC]), of the choice of the device name
    ([GenerateDeviceName]) and of MAC routing ([SendTo]), together with the
    properties of the specification that concern them and with further
    properties of the code: what the methods change and what they leave
    alone, where they panic, and what holds in every state the agent reaches.

    Conventions.
    - A Go [string] is a [string] of Rocq (a sequence of 8-bit characters); a
      Go [[]byte] is a [list byte].  A nil slice is the empty list: no function
      embedded here builds an empty slice that is not nil.
    - A pointer that may be nil ([*net.UDPAddr], [*net.IPNet]) is an [option].
    - A run-time panic (index out of range, nil dereference) is an explicit
      outcome, see [outcome].
    - Everything the agent asks of the host or of the network (interfaces, name
      resolution, probes, the datagram socket) is answered by a [Host], indexed
      by a clock that ticks at every question, so that two questions may get
      different answers. *)

From Stdlib Require Import ZArith NArith Strings.Byte Ascii String DecimalString Lia.
From Stdlib Require DecimalPos DecimalN.
From stdpp Require Import base tactics option list strings.

Local Open Scope string_scope.
Local Open Scope list_scope.

(** ** Bytes and strings as Go sees them *)

(** [byte(n)]: conversion of an integer to a byte keeps the low 8 bits. *)
Definition to_byte (n : N) : byte :=
  default x00 (Byte.of_N (n mod 256)).

Definition byte_val (b : byte) : N := Byte.to_N b.

(** [s[i]] for an index the caller has checked; the character of code 0 stands
    for an index out of range, which no call site below can produce. *)
Definition byteAt (s : string) (i : nat) : ascii :=
  default Ascii.zero (String.get i s).

(** [s[n:]] and [s[:n]]. *)
Fixpoint str_drop (n : nat) (s : string) : string :=
  match n, s with
  | 0, _ => s
  | S n', String _ s' => str_drop n' s'
  | S _, EmptyString => EmptyString
  end.

Fixpoint str_take (n : nat) (s : string) : string :=
  match n, s with
  | 0, _ => EmptyString
  | S n', String c s' => String c (str_take n' s')
  | S _, EmptyString => EmptyString
  end.

(** [string(b)] for a byte slice [b]. *)
Definition string_of_bytes (b : list byte) : string := string_of_list_byte b.

(** ** package strings *)

Module Strings.

(** [strings.Split(s, sep)] for a separator of one byte, which is how the agent
    calls it: the pieces of [s] between the occurrences of [sep], in order.
    There is always at least one piece. *)
Fixpoint Split (s : string) (sep : ascii) : list string :=
  match s with
  | EmptyString => [EmptyString]
  | String c s' =>
      if Ascii.eqb c sep then EmptyString :: Split s' sep
      else match Split s' sep with
           | p :: ps => String c p :: ps
           | [] => [String c EmptyString]
           end
  end.

(** [strings.Count(s, sep)] for a separator of one byte. *)
Fixpoint Count (s : string) (sep : ascii) : nat :=
  match s with
  | EmptyString => 0
  | String c s' => (if Ascii.eqb c sep then 1 else 0) + Count s' sep
  end.

End Strings.

(** ** package fmt *)

Definition hexDigit : string := "0123456789abcdef".

(** [fmt.Sprintf("%02x", b)] for a byte [b]: two lower-case hexadecimal
    digits. *)
Definition Sprintf_02x (b : byte) : string :=
  String (byteAt hexDigit (N.to_nat (N.shiftr (byte_val b) 4)))
    (String (byteAt hexDigit (N.to_nat (N.land (byte_val b) 15))) EmptyString).

(** ** package net: the functions of Go's standard library the agent calls

    They are not code of the repository.  They follow the library's sources
    (mac.go, ip.go, parse.go, ipsock.go, udpsock.go) as they were when the
    agent was written; in particular [parseIPv4] accepts octets with leading
    zeros, which later releases reject.  No property of the agent below
    depends on that. *)

Module net.

Definition HardwareAddr := list byte.
Definition IP := list byte.

Definition big : N := 16777215.   (* 0xFFFFFF *)

Definition hexval (c : ascii) : option N :=
  let v := N_of_ascii c in
  if (48 <=? v)%N && (v <=? 57)%N then Some (v - 48)%N
  else if (97 <=? v)%N && (v <=? 102)%N then Some (v - 97 + 10)%N
  else if (65 <=? v)%N && (v <=? 70)%N then Some (v - 65 + 10)%N
  else None.

(** [xtoi]: hexadecimal to integer; returns the number, the characters
    consumed and success. *)
Fixpoint xtoi_from (s : string) (n : N) (i : nat) : N * nat * bool :=
  match s with
  | String c s' =>
      match hexval c with
      | Some d =>
          let n' := (n * 16 + d)%N in
          if (big <=? n')%N then (0%N, i, false) else xtoi_from s' n' (S i)
      | None => if Nat.eqb i 0 then (0%N, i, false) else (n, i, true)
      end
  | EmptyString => if Nat.eqb i 0 then (0%N, i, false) else (n, i, true)
  end.

Definition xtoi (s : string) : N * nat * bool := xtoi_from s 0 0.

(** [xtoi2] converts the next two hex digits of [s] into a byte; if [s] is
    longer than two bytes the third must be [e]. *)
Definition xtoi2 (s : string) (e : ascii) : byte * bool :=
  if Nat.ltb 2 (String.length s) && negb (Ascii.eqb (byteAt s 2) e)
  then (x00, false)
  else
    let '(n, ei, ok) := xtoi (str_take 2 s) in
    (to_byte n, ok && Nat.eqb ei 2).

(** The loop of [ParseMAC] for the forms [xx:xx:...] and [xx-xx-...]:
    [n] octets, three characters further at each turn. *)
Fixpoint parseMAC_sep (s : string) (e : ascii) (n : nat) : option HardwareAddr :=
  match n with
  | 0 => Some []
  | S n' =>
      let '(b, ok) := xtoi2 s e in
      if ok then cons b <$> parseMAC_sep (str_drop 3 s) e n' else None
  end.

(** The loop of [ParseMAC] for the form [xxxx.xxxx....]: [k] groups of two
    octets, five characters further at each turn. *)
Fixpoint parseMAC_dot (s : string) (e : ascii) (k : nat) : option HardwareAddr :=
  match k with
  | 0 => Some []
  | S k' =>
      let '(b1, ok1) := xtoi2 (str_take 2 s) Ascii.zero in
      if ok1 then
        let '(b2, ok2) := xtoi2 (str_drop 2 s) e in
        if ok2 then (fun hw => b1 :: b2 :: hw) <$> parseMAC_dot (str_drop 5 s) e k'
        else None
      else None
  end.

Definition mac_len_ok (n : nat) : bool :=
  Nat.eqb n 6 || Nat.eqb n 8 || Nat.eqb n 20.

(** [net.ParseMAC]; [None] is the error return (with a nil address). *)
Definition ParseMAC (s : string) : option HardwareAddr :=
  let len := String.length s in
  if Nat.ltb len 14 then None
  else if Ascii.eqb (byteAt s 2) ":" || Ascii.eqb (byteAt s 2) "-" then
    if negb (Nat.eqb ((len + 1) mod 3) 0) then None
    else
      let n := (len + 1) / 3 in
      if negb (mac_len_ok n) then None
      else parseMAC_sep s (byteAt s 2) n
  else if Ascii.eqb (byteAt s 4) "." then
    if negb (Nat.eqb ((len + 1) mod 5) 0) then None
    else
      let n := 2 * (len + 1) / 5 in
      if negb (mac_len_ok n) then None
      else parseMAC_dot s (byteAt s 4) (n / 2)
  else None.

(** [HardwareAddr.String]: the octets in hexadecimal, separated by colons;
    the empty string for an address of length 0. *)
Fixpoint hw_tail (a : list byte) : string :=
  match a with
  | [] => EmptyString
  | b :: a' => String ":" (Sprintf_02x b +:+ hw_tail a')
  end.

Definition HardwareAddr_String (a : HardwareAddr) : string :=
  match a with
  | [] => EmptyString
  | b :: a' => Sprintf_02x b +:+ hw_tail a'
  end.

(** *** IP addresses *)

Definition IPv4len : nat := 4.
Definition IPv6len : nat := 16.

Definition isdigit (c : ascii) : bool :=
  let v := N_of_ascii c in (48 <=? v)%N && (v <=? 57)%N.

(** [dtoi]: decimal to integer; returns the number, the characters consumed
    and success. *)
Fixpoint dtoi_from (s : string) (n : N) (i : nat) : N * nat * bool :=
  match s with
  | String c s' =>
      if isdigit c then
        let n' := (n * 10 + (N_of_ascii c - 48))%N in
        if (big <=? n')%N then (0%N, i, false) else dtoi_from s' n' (S i)
      else if Nat.eqb i 0 then (0%N, i, false) else (n, i, true)
  | EmptyString => if Nat.eqb i 0 then (0%N, i, false) else (n, i, true)
  end.

Definition dtoi (s : string) : N * nat * bool := dtoi_from s 0 0.

Definition v4InV6Prefix : list byte :=
  [x00; x00; x00; x00; x00; x00; x00; x00; x00; x00; xff; xff].

(** [net.IPv4(a, b, c, d)]: the 16-byte form of the IPv4 address. *)
Definition IPv4 (a b c d : byte) : IP := v4InV6Prefix ++ [a; b; c; d].

(** The loop of [parseIPv4]: octet [j] of 4, [rest] octets still to read; the value is
    the octets read, [None] for the nil return.  Octets are not checked for
    leading zeros. *)
Fixpoint parseIPv4_loop (s : string) (j rest : nat) : option (list byte) :=
  match rest with
  | 0 => if Nat.eqb (String.length s) 0 then Some [] else None
  | S rest' =>
      if Nat.eqb (String.length s) 0 then None
      else if negb (Nat.eqb j 0) && negb (Ascii.eqb (byteAt s 0) ".") then None
      else
        let s := if Nat.eqb j 0 then s else str_drop 1 s in
        let '(n, c, ok) := dtoi s in
        if negb ok || (255 <? n)%N then None
        else cons (to_byte n) <$> parseIPv4_loop (str_drop c s) (S j) rest'
  end.

Definition parseIPv4 (s : string) : IP :=
  match parseIPv4_loop s 0 IPv4len with
  | Some [a; b; c; d] => IPv4 a b c d
  | _ => []
  end.

(** Go's [ellipsis >= 0]. *)
Definition has_ellipsis (e : option nat) : bool :=
  match e with Some _ => true | None => false end.

(** One turn of the loop of [parseIPv6]. *)
Inductive v6step :=
| V6Fail                                                  (* return nil *)
| V6Break (s : string) (acc : list byte) (ellipsis : option nat)
| V6Next (s : string) (acc : list byte) (ellipsis : option nat).

(** [acc] holds the bytes written so far, so that Go's [i] is its length. *)
Definition parseIPv6_turn (s : string) (acc : list byte) (ellipsis : option nat)
  : v6step :=
  let i := length acc in
  let '(n, c, ok) := xtoi s in
  if negb ok || (65535 <? n)%N then V6Fail
  else if Nat.ltb c (String.length s) && Ascii.eqb (byteAt s c) "." then
    if negb (has_ellipsis ellipsis) && negb (Nat.eqb i (IPv6len - IPv4len)) then V6Fail
    else if Nat.ltb IPv6len (i + IPv4len) then V6Fail
    else match parseIPv4 s with
         | [] => V6Fail
         | ip4 => V6Break EmptyString (acc ++ drop 12 ip4) ellipsis
         end
  else
    let acc := acc ++ [to_byte (N.shiftr n 8); to_byte n] in
    let i := length acc in
    let s := str_drop c s in
    if Nat.eqb (String.length s) 0 then V6Break s acc ellipsis
    else if negb (Ascii.eqb (byteAt s 0) ":") || Nat.eqb (String.length s) 1 then V6Fail
    else
      let s := str_drop 1 s in
      if Ascii.eqb (byteAt s 0) ":" then
        if has_ellipsis ellipsis then V6Fail
        else
          let s := str_drop 1 s in
          if Nat.eqb (String.length s) 0 then V6Break s acc (Some i)
          else V6Next s acc (Some i)
      else V6Next s acc ellipsis.

(** The loop [for i < IPv6len]; every turn writes at least two bytes, so eight
    turns are enough and [fuel] is never the reason to stop. *)
Fixpoint parseIPv6_loop (fuel : nat) (s : string) (acc : list byte)
    (ellipsis : option nat) : option (string * list byte * option nat) :=
  if negb (Nat.ltb (length acc) IPv6len) then Some (s, acc, ellipsis)
  else
    match fuel with
    | 0 => None
    | S fuel' =>
        match parseIPv6_turn s acc ellipsis with
        | V6Fail => None
        | V6Break s acc ellipsis => Some (s, acc, ellipsis)
        | V6Next s acc ellipsis => parseIPv6_loop fuel' s acc ellipsis
        end
    end.

(** What [parseIPv6] does once the loop is over. *)
Definition parseIPv6_finish (st : string * list byte * option nat) : IP :=
  let '(s, acc, ellipsis) := st in
  if negb (Nat.eqb (String.length s) 0) then []
  else if Nat.ltb (length acc) IPv6len then
    match ellipsis with
    | None => []
    | Some e => take e acc ++ replicate (IPv6len - length acc) x00 ++ drop e acc
    end
  else if has_ellipsis ellipsis then []
  else acc.

(** [parseIPv6] without a zone. *)
Definition parseIPv6 (s : string) : IP :=
  if Nat.leb 2 (String.length s) && Ascii.eqb (byteAt s 0) ":"
     && Ascii.eqb (byteAt s 1) ":" then
    let s := str_drop 2 s in
    if Nat.eqb (String.length s) 0 then replicate IPv6len x00
    else match parseIPv6_loop 8 s [] (Some 0) with
         | Some st => parseIPv6_finish st
         | None => []
         end
  else match parseIPv6_loop 8 s [] None with
       | Some st => parseIPv6_finish st
       | None => []
       end.

(** [net.ParseIP]: the first ['.'] or [':'] of [s] decides between the two
    forms; the nil address when there is none or the form does not parse. *)
Fixpoint ParseIP_scan (rest s : string) : IP :=
  match rest with
  | EmptyString => []
  | String c rest' =>
      if Ascii.eqb c "." then parseIPv4 s
      else if Ascii.eqb c ":" then parseIPv6 s
      else ParseIP_scan rest' s
  end.

Definition ParseIP (s : string) : IP := ParseIP_scan s s.

(** [IP.To4]. *)
Definition To4 (ip : IP) : IP :=
  if Nat.eqb (length ip) IPv4len then ip
  else if Nat.eqb (length ip) IPv6len
          && forallb (fun b => Byte.eqb b x00) (take 10 ip)
          && Byte.eqb (nth 10 ip x00) xff && Byte.eqb (nth 11 ip x00) xff
  then drop 12 ip
  else [].

(** [uitoa] and [itoa]: decimal text of an integer. *)
Definition uitoa (n : N) : string :=
  DecimalString.NilZero.string_of_uint (N.to_uint n).

Definition itoa (z : Z) : string :=
  if (z <? 0)%Z then "-" +:+ uitoa (Z.to_N (- z)) else uitoa (Z.to_N z).

(** [appendHex]: hexadecimal text of a 16-bit group, without leading zeros. *)
Definition hexnibbles (v : N) : string :=
  fold_right
    (fun j acc =>
       let w := N.shiftr v (N.of_nat (j * 4)) in
       if (0 <? w)%N then String (byteAt hexDigit (N.to_nat (N.land w 15))) acc
       else acc)
    EmptyString [3; 2; 1; 0].

Definition appendHex (v : N) : string :=
  if (v =? 0)%N then "0" else hexnibbles v.

(** The 16-bit groups of a 16-byte address. *)
Fixpoint groups (p : list byte) : list N :=
  match p with
  | hi :: lo :: p' => N.lor (N.shiftl (byte_val hi) 8) (byte_val lo) :: groups p'
  | _ => []
  end.

(** Length of the run of zero groups at the head of [g]. *)
Fixpoint zero_run (g : list N) : nat :=
  match g with
  | 0%N :: g' => S (zero_run g')
  | _ => 0
  end.

(** The search of [IP.String] for the longest run of zero groups, in groups
    rather than bytes: position [i] of the groups [g] still to look at, best
    run [(e0, e1)] so far, [None] for Go's [e0 = e1 = -1]. *)
Fixpoint longest_zero_run (fuel i : nat) (g : list N) (best : option (nat * nat))
  : option (nat * nat) :=
  match fuel, g with
  | S fuel', _ :: g' =>
      let r := zero_run g in
      let better := match best with
                    | None => Nat.ltb 0 r
                    | Some (e0, e1) => Nat.ltb 0 r && Nat.ltb (e1 - e0) r
                    end in
      if better then longest_zero_run fuel' (i + r + 1) (drop r g') (Some (i, i + r))
      else longest_zero_run fuel' (i + 1) g' best
  | _, _ => best
  end.

(** The printing loop of [IP.String], in groups. *)
Fixpoint print_groups (fuel i : nat) (g : list N) (e : option (nat * nat)) : string :=
  match fuel, g with
  | S fuel', w :: g' =>
      match e with
      | Some (e0, e1) =>
          if Nat.eqb i e0 then
            match drop (e1 - e0) g with
            | [] => "::"
            | w' :: g'' => "::" +:+ appendHex w' +:+ print_groups fuel' (S e1) g'' e
            end
          else (if Nat.ltb 0 i then ":" else "") +:+ appendHex w
               +:+ print_groups fuel' (S i) g' e
      | None => (if Nat.ltb 0 i then ":" else "") +:+ appendHex w
                +:+ print_groups fuel' (S i) g' e
      end
  | _, _ => EmptyString
  end.

(** [IP.String]. *)
Definition IP_String (ip : IP) : string :=
  if Nat.eqb (length ip) 0 then "<nil>"
  else
    match To4 ip with
    | [a; b; c; d] =>
        uitoa (byte_val a) +:+ "." +:+ uitoa (byte_val b) +:+ "." +:+
        uitoa (byte_val c) +:+ "." +:+ uitoa (byte_val d)
    | _ =>
        if negb (Nat.eqb (length ip) IPv6len) then "?"
        else
          let g := groups ip in
          let e := match longest_zero_run 8 0 g None with
                   | Some (e0, e1) => if Nat.leb (e1 - e0) 1 then None else Some (e0, e1)
                   | None => None
                   end in
          print_groups 8 0 g e
    end.

(** [net.JoinHostPort]. *)
Definition has_byte (s : string) (c : ascii) : bool :=
  negb (Nat.eqb (Strings.Count s c) 0).

Definition JoinHostPort (host port : string) : string :=
  if has_byte host ":" || has_byte host "%" then "[" +:+ host +:+ "]:" +:+ port
  else host +:+ ":" +:+ port.

(** *** UDP addresses and networks *)

Record UDPAddr := mkUDPAddr { IP_of : IP; Port : Z; Zone : string }.

(** [UDPAddr.String]; the receiver may be nil. *)
Definition UDPAddr_String (a : option UDPAddr) : string :=
  match a with
  | None => "<nil>"
  | Some a =>
      let ip := if Nat.eqb (length (IP_of a)) 0 then "" else IP_String (IP_of a) in
      if negb (String.eqb (Zone a) "")
      then JoinHostPort (ip +:+ "%" +:+ Zone a) (itoa (Port a))
      else JoinHostPort ip (itoa (Port a))
  end.

Record IPNet := mkIPNet { Net_IP : IP; Mask : list byte }.

(** [networkNumberAndMask]. *)
Definition networkNumberAndMask (n : IPNet) : IP * list byte :=
  let ip4 := To4 (Net_IP n) in
  let ip := if Nat.eqb (length ip4) 0 then Net_IP n else ip4 in
  if Nat.eqb (length ip4) 0 && negb (Nat.eqb (length ip) IPv6len) then ([], [])
  else if Nat.eqb (length (Mask n)) IPv4len then
    if negb (Nat.eqb (length ip) IPv4len) then ([], []) else (ip, Mask n)
  else if Nat.eqb (length (Mask n)) IPv6len then
    if Nat.eqb (length ip) IPv4len then (ip, drop 12 (Mask n))
    else (ip, Mask n)
  else ([], []).

Definition byte_and (a b : byte) : byte := to_byte (N.land (byte_val a) (byte_val b)).

(** [IPNet.Contains] for a network that is not nil. *)
Definition Contains (n : IPNet) (ip : IP) : bool :=
  let '(nn, m) := networkNumberAndMask n in
  let x := To4 ip in
  let ip := if Nat.eqb (length x) 0 then ip else x in
  if negb (Nat.eqb (length ip) (length nn)) then false
  else forallb (fun '(a, b, k) => Byte.eqb (byte_and a k) (byte_and b k))
         (zip (zip nn ip) m).

End net.

(** ** GenerateMAC (p2p.go, 630-645) *)

(** [rnd] is what [rand.Read] left in the 6-byte buffer, [rand_err] whether it
    reported an error.  A buffer byte that was not written is 0, as [make]
    leaves it. *)
Definition GenerateMAC (rnd : list byte) (rand_err : bool)
  : string * net.HardwareAddr :=
  if rand_err then (EmptyString, [])
  else
    let buf := rnd in
    let buf := <[0 := to_byte (N.lor (byte_val (nth 0 buf x00)) 2)]> buf in
    let mac := "06:" +:+ Sprintf_02x (nth 1 buf x00) +:+ ":" +:+ Sprintf_02x (nth 2 buf x00)
               +:+ ":" +:+ Sprintf_02x (nth 3 buf x00) +:+ ":" +:+ Sprintf_02x (nth 4 buf x00)
               +:+ ":" +:+ Sprintf_02x (nth 5 buf x00) in
    match net.ParseMAC mac with
    | None => (EmptyString, [])
    | Some hw => (mac, hw)
    end.

(** ** The data model (p2p.go, 25-81) *)

Module dht.

(** An entry of [dht.DHTClient.Peers]: a peer id and the addresses the
    bootstrap node reported for it. *)
Record PeerIP := mkPeerIP { ID : string; Ips : list string }.

(** The part of [dht.DHTClient] the agent reads: its own id ([ID] in Go,
    [SelfID] here because [ID] names the field of [PeerIP]) and the current
    peer view. *)
Record DHTClient := mkDHTClient { SelfID : string; Peers : list PeerIP }.

End dht.

Record NetworkPeer := mkNetworkPeer {
  ID : string;
  Unknown : bool;
  Handshaked : bool;
  CleanAddr : string;
  ProxyID : Z;
  Forwarder : option net.UDPAddr;
  PeerAddr : option net.UDPAddr;
  PeerLocalIP : net.IP;
  PeerHW : net.HardwareAddr;
  Endpoint : string;
  KnownIPs : list (option net.UDPAddr)
}.


Definition with_Endpoint (e : string) (p : NetworkPeer) : NetworkPeer :=
  mkNetworkPeer (ID p) (Unknown p) (Handshaked p) (CleanAddr p) (ProxyID p)
    (Forwarder p) (PeerAddr p) (PeerLocalIP p) (PeerHW p) e (KnownIPs p).

Definition with_KnownIPs (k : list (option net.UDPAddr)) (p : NetworkPeer)
  : NetworkPeer :=
  mkNetworkPeer (ID p) (Unknown p) (Handshaked p) (CleanAddr p) (ProxyID p)
    (Forwarder p) (PeerAddr p) (PeerLocalIP p) (PeerHW p) (Endpoint p) k.

Definition with_PeerAddr (a : option net.UDPAddr) (p : NetworkPeer) : NetworkPeer :=
  mkNetworkPeer (ID p) (Unknown p) (Handshaked p) (CleanAddr p) (ProxyID p)
    (Forwarder p) a (PeerLocalIP p) (PeerHW p) (Endpoint p) (KnownIPs p).

(** The fields of [PTPCloud] the embedded methods use.  [Device] tells whether
    the TAP device is open ([ptp.Device != nil]). *)
Record PTPCloud := mkPTPCloud {
  IP : string;
  Mac : string;
  HardwareAddr : net.HardwareAddr;
  Mask : string;
  DeviceName : string;
  Device : bool;
  NetworkPeers : list NetworkPeer;
  LocalIPs : list net.IP;
  dht : dht.DHTClient
}.

Definition with_NetworkPeers (l : list NetworkPeer) (ptp : PTPCloud) : PTPCloud :=
  mkPTPCloud (IP ptp) (Mac ptp) (HardwareAddr ptp) (Mask ptp) (DeviceName ptp)
    (Device ptp) l (LocalIPs ptp) (dht ptp).


(** ** packages udpcs and commons, which the agent imports *)

(** The part of [udpcs.P2PMessage] the agent reads: [Header.Type] and [Data]. *)
Record P2PMessage := mkP2PMessage { Header_Type : N; Data : list byte }.

(** The message codec: the type numbers of [commons], the parser and the two
    constructors of [udpcs].  They are parameters of the agent. *)
Record Codec := mkCodec {
  MT_INTRO : N;
  MT_TEST : N;
  MT_NENC : N;
  P2PMessageFromBytes : list byte -> option P2PMessage;
  CreateIntroP2PMessage : string -> Z -> P2PMessage;
  CreateTestP2PMessage : string -> Z -> P2PMessage
}.

(** ** The host and the network *)

(** A local interface: its name and, for each of its addresses, the [network]
    that [net.ParseCIDR(addr.String())] returns (nil when it does not parse). *)
Record Interface := mkInterface { Name : string; Addrs : list (option net.IPNet) }.

(** What the network does to the socket of one [TestConnection]: whether
    dialling fails, whether the write fails, and what the successive
    [ReadFromUDP] return (byte count, error or not) before the read deadline
    passes. *)
Record ProbeIO := mkProbeIO {
  dial_err : bool;
  write_err : bool;
  reads : list (Z * bool)
}.

(** The answers of the host, by clock value.  [Interfaces] is [None] when
    [net.Interfaces] fails; [ResolveUDPAddr] is [None] when resolution fails
    (a nil address and an error); [SendMessage] gives the byte count and the
    error ([None] for nil) of [UDPSocket.SendMessage]. *)
Record Host := mkHost {
  Interfaces : nat -> option (list Interface);
  ResolveUDPAddr : nat -> string -> option net.UDPAddr;
  Probe : nat -> option net.UDPAddr -> ProbeIO;
  SendMessage : nat -> P2PMessage -> option net.UDPAddr -> Z * option string
}.

(** What the agent does to the outside: a call of [UDPSocket.SendMessage],
    the write of a probe on the socket that [TestConnection] dialled, a call
    of [dht.RequestPeerIPs], a call of [Device.WritePacket]. *)
Inductive Event :=
| EvSendMessage (msg : P2PMessage) (dst : option net.UDPAddr)
| EvProbeWrite (msg : P2PMessage) (endpoint : option net.UDPAddr)
| EvRequestPeerIPs (id : string)
| EvWritePacket (protocol : Z) (packet : list byte).

Inductive RuntimeError :=
| IndexOutOfRange
| SliceBoundsOutOfRange
| NilDereference
| NegativeLen.

Inductive outcome (A : Type) :=
| Done (a : A)
| Panic (e : RuntimeError).
Arguments Done {A} a.
Arguments Panic {A} e.

(** The state the methods of [PTPCloud] run in: the agent, the clock of the
    host and the events so far (oldest first). *)
Record State := mkState { cloud : PTPCloud; clock : nat; trace : list Event }.

Definition M (A : Type) : Type := State -> outcome (A * State).

Definition ret {A} (a : A) : M A := fun s => Done (a, s).

Definition bind {A B} (m : M A) (k : A -> M B) : M B :=
  fun s => match m s with
           | Done (a, s') => k a s'
           | Panic e => Panic e
           end.

Definition panic {A} (e : RuntimeError) : M A := fun _ => Panic e.

Notation "x <- m ;; k" := (bind m (fun x => k))
  (at level 62, m at next level, right associativity, only parsing).

(** [for _, x := range l] with a loop-carried value. *)
Fixpoint foldM {A B} (l : list A) (b : B) (body : B -> A -> M B) : M B :=
  match l with
  | [] => ret b
  | x :: l' => b' <- body b x ;; foldM l' b' body
  end.

(** [for _, x := range l]. *)
Definition forM_ {A} (l : list A) (body : A -> M unit) : M unit :=
  foldM l tt (fun _ x => body x).

Definition get_ptp : M PTPCloud := fun s => Done (cloud s, s).

Definition getPeers : M (list NetworkPeer) :=
  fun s => Done (NetworkPeers (cloud s), s).

Definition setPeers (l : list NetworkPeer) : M unit :=
  fun s => Done (tt, mkState (with_NetworkPeers l (cloud s)) (clock s) (trace s)).

(** [ptp.NetworkPeers[i]], read. *)
Definition peerAt (i : nat) : M NetworkPeer :=
  l <- getPeers ;;
  match l !! i with
  | Some p => ret p
  | None => panic IndexOutOfRange
  end.

(** [ptp.NetworkPeers[i].f = v], as a change [f] of record [i]. *)
Definition updPeer (i : nat) (f : NetworkPeer -> NetworkPeer) : M unit :=
  l <- getPeers ;;
  match l !! i with
  | Some _ => setPeers (alter f i l)
  | None => panic IndexOutOfRange
  end.

Definition emit (e : Event) : M unit :=
  fun s => Done (tt, mkState (cloud s) (clock s) (trace s ++ [e])).

(** A question to the host: answered at the current clock, which ticks. *)
Definition ask {A} (q : nat -> A) : M A :=
  fun s => Done (q (clock s), mkState (cloud s) (S (clock s)) (trace s)).

(** [*p] for a pointer [p]. *)
Definition deref {A} (p : option A) : M A :=
  match p with
  | Some a => ret a
  | None => panic NilDereference
  end.

(** [l[i]] for a slice [l]. *)
Definition index {A} (l : list A) (i : nat) : M A :=
  match l !! i with
  | Some a => ret a
  | None => panic IndexOutOfRange
  end.

Section Agent.

Variable codec : Codec.
Variable host : Host.

(** [ptp.UDPSocket.SendMessage(msg, dst)]. *)
Definition UDPSocket_SendMessage (msg : P2PMessage) (dst : option net.UDPAddr)
  : M (Z * option string) :=
  _ <- emit (EvSendMessage msg dst) ;;
  ask (fun t => SendMessage host t msg dst).

(** ** PrepareIntroductionMessage (415-419) *)
Definition PrepareIntroductionMessage (ptp : PTPCloud) (id : string) : P2PMessage :=
  let intro := id +:+ "," +:+ Mac ptp +:+ "," +:+ IP ptp in
  CreateIntroP2PMessage codec intro 0.

(** ** IntroducePeers (387-413) *)
Definition IntroducePeers : M unit :=
  peers <- getPeers ;;
  forM_ (seq 0 (length peers)) (fun i =>
    peer <- peerAt i ;;
    if negb (Unknown peer) then ret tt
    else if String.eqb (Endpoint peer) "" then ret tt
    else
      r <- ask (fun t => ResolveUDPAddr host t (Endpoint peer)) ;;
      match r with
      | None => ret tt
      | Some addr =>
          _ <- updPeer i (with_PeerAddr (Some addr)) ;;
          ptp <- get_ptp ;;
          let msg := PrepareIntroductionMessage ptp (dht.SelfID (dht ptp)) in
          _ <- UDPSocket_SendMessage msg (Some addr) ;;
          ret tt
      end).

(** ** PurgePeers (423-440) *)

(** The inner loop: is [id] the id of an entry of the DHT view? *)
Definition in_view (view : list dht.PeerIP) (id : string) : bool :=
  fold_left (fun f newPeer => if String.eqb (dht.ID newPeer) id then true else f)
    view false.

(** The first loop: the indices of the records that are not in the view, in
    increasing order. *)
Definition purge_indices (view : list dht.PeerIP) (peers : list NetworkPeer)
  : list nat :=
  fold_left (fun rem '(i, peer) =>
               if negb (in_view view (ID peer)) then rem ++ [i] else rem)
    (imap (fun i peer => (i, peer)) peers) [].

(** [ptp.NetworkPeers = append(ptp.NetworkPeers[:i], ptp.NetworkPeers[i+1:]...)]:
    the slice expression [[i+1:]] panics when [i+1] exceeds the length. *)
Definition remove_at (i : nat) : M unit :=
  l <- getPeers ;;
  if Nat.ltb (length l) (i + 1) then panic SliceBoundsOutOfRange
  else setPeers (take i l ++ drop (i + 1) l).

Definition PurgePeers (catched : list string) : M unit :=
  ptp <- get_ptp ;;
  let rem := purge_indices (dht.Peers (dht ptp)) (NetworkPeers ptp) in
  forM_ rem remove_at.

(** ** TestConnection (464-495) *)

(** The read loop: the first read that fails, or the deadline, gives [false];
    the first read of at least one byte gives [true]. *)
Fixpoint TestConnection_read (rs : list (Z * bool)) : bool :=
  match rs with
  | [] => false
  | (s, err) :: rs' =>
      if err then false
      else if (0 <? s)%Z then true
      else TestConnection_read rs'
  end.

Definition TestConnection (endpoint : option net.UDPAddr) : M bool :=
  let msg := CreateTestP2PMessage codec "TEST" 0 in
  io <- ask (fun t => Probe host t endpoint) ;;
  if dial_err io then ret false
  else
    _ <- emit (EvProbeWrite msg endpoint) ;;
    if write_err io then ret false
    else ret (TestConnection_read (reads io)).

(** ** SyncPeers (500-591) *)

(** Lines 513-529: the addresses [ips] the DHT reports for the peer are merged
    into record [i]; [peer] is the copy of the record that [range] made. *)
Definition mergeIps (i : nat) (peer : NetworkPeer) (ips : list string) : M unit :=
  forM_ ips (fun ip =>
    if String.eqb ip "" || String.eqb ip "0" then ret tt
    else
      let ipFound :=
        fold_left (fun f kip => if String.eqb (net.UDPAddr_String kip) ip then true else f)
          (KnownIPs peer) false in
      if negb ipFound then
        newIp <- ask (fun t => ResolveUDPAddr host t ip) ;;
        updPeer i (fun p => with_KnownIPs (KnownIPs p ++ [newIp]) p)
      else ret tt).

(** Lines 542-562: every known address that lies in the network of a local
    interface other than the overlay's is probed. *)
Definition probeLAN (i : nat) (interfaces : list Interface) (count : Z) : M Z :=
  ptp <- get_ptp ;;
  foldM interfaces count (fun count inf =>
    if String.eqb (Name inf) (DeviceName ptp) then ret count
    else
      foldM (Addrs inf) count (fun count network =>
        cur <- peerAt i ;;
        foldM (KnownIPs cur) count (fun count kip =>
          k <- deref kip ;;
          nw <- deref network ;;
          if net.Contains nw (net.IP_of k) then
            ok <- TestConnection kip ;;
            if ok then
              _ <- updPeer i (with_Endpoint (net.UDPAddr_String kip)) ;;
              ret (count + 1)%Z
            else ret count
          else ret count))).

(** Lines 532-579: an endpoint is chosen for record [i] when the copy [peer]
    has none. *)
Definition selectEndpoint (i : nat) (peer : NetworkPeer) (count : Z) : M Z :=
  if String.eqb (Endpoint peer) "" then
    r <- ask (Interfaces host) ;;
    let failback := match r with None => true | Some _ => false end in
    let interfaces := default [] r in
    count <- probeLAN i interfaces count ;;
    cur <- peerAt i ;;
    _ <- (if String.eqb (Endpoint cur) "" && Nat.ltb 0 (length (KnownIPs cur)) then
            k0 <- index (KnownIPs cur) 0 ;;
            _ <- TestConnection k0 ;;
            ret tt
          else ret tt) ;;
    cur <- peerAt i ;;
    if failback || String.eqb (Endpoint peer) "" && Nat.ltb 0 (length (KnownIPs cur)) then
      k0 <- index (KnownIPs cur) 0 ;;
      _ <- updPeer i (with_Endpoint (net.UDPAddr_String k0)) ;;
      ret (count + 1)%Z
    else ret count
  else ret count.

Definition SyncPeers (catched : list string) : M Z :=
  ptp <- get_ptp ;;
  foldM (dht.Peers (dht ptp)) 0%Z (fun count id =>
    if String.eqb (dht.ID id) "" then ret count
    else
      peers <- getPeers ;;
      r <- foldM (seq 0 (length peers)) (false, count) (fun '(found, count) i =>
          peer <- peerAt i ;;
          if String.eqb (ID peer) (dht.ID id) then
            _ <- mergeIps i peer (dht.Ips id) ;;
            count <- selectEndpoint i peer count ;;
            ret (true, count)
          else ret (found, count)) ;;
      let '(found, count) := r in
      if negb found then
        let newPeer :=
          mkNetworkPeer (dht.ID id) true false "" 0 None None [] [] "" [] in
        peers <- getPeers ;;
        _ <- setPeers (peers ++ [newPeer]) ;;
        _ <- emit (EvRequestPeerIPs (dht.ID id)) ;;
        ret count
      else ret count).

(** ** WriteToDevice (615-628) *)
Definition WriteToDevice (b : list byte) : M unit :=
  ptp <- get_ptp ;;
  if negb (Device ptp) then ret tt
  else emit (EvWritePacket 2054 b).

(** ** AddPeer (649-674) *)

(** Lines 654-660: the seven assignments to [ptp.NetworkPeers[i]]. *)
Definition introduced (addr : option net.UDPAddr) (id : string) (ip : net.IP)
    (mac : net.HardwareAddr) (p : NetworkPeer) : NetworkPeer :=
  mkNetworkPeer id false true (net.UDPAddr_String addr) (ProxyID p)
    (Forwarder p) addr ip mac (Endpoint p) (KnownIPs p).

(** Lines 651-662: one turn of the loop. *)
Definition AddPeer_turn (addr : option net.UDPAddr) (id : string) (ip : net.IP)
    (mac : net.HardwareAddr) (found : bool) (i : nat) : M bool :=
  peer <- peerAt i ;;
  if String.eqb (ID peer) id then
    _ <- updPeer i (introduced addr id ip mac) ;;
    ret true
  else ret found.

Definition AddPeer (addr : option net.UDPAddr) (id : string) (ip : net.IP)
    (mac : net.HardwareAddr) : M unit :=
  peers <- getPeers ;;
  found <- foldM (seq 0 (length peers)) false (AddPeer_turn addr id ip mac) ;;
  if negb found then
    let newPeer :=
      mkNetworkPeer id false true (net.UDPAddr_String addr) 0 None addr ip mac "" [] in
    peers <- getPeers ;;
    setPeers (peers ++ [newPeer])
  else ret tt.

(** ** ParseIntroString (680-702) *)
Definition ParseIntroString (intro : string)
  : string * net.HardwareAddr * net.IP :=
  let parts := Strings.Split intro "," in
  if negb (Nat.eqb (length parts) 3) then ("", [], [])
  else
    let id := nth 0 parts "" in
    match net.ParseMAC (nth 1 parts "") with
    | None => ("", [], [])
    | Some mac =>
        let ip := net.ParseIP (nth 2 parts "") in
        if Nat.eqb (length ip) 0 then ("", [], [])
        else (id, mac, ip)
    end.

(** ** IsPeerUnknown (704-711) *)
Fixpoint IsPeerUnknown_scan (peers : list NetworkPeer) (addr : option net.UDPAddr)
  : bool :=
  match peers with
  | [] => true
  | peer :: rest =>
      if String.eqb (CleanAddr peer) (net.UDPAddr_String addr) then Unknown peer
      else IsPeerUnknown_scan rest addr
  end.

Definition IsPeerUnknown (addr : option net.UDPAddr) : M bool :=
  peers <- getPeers ;;
  ret (IsPeerUnknown_scan peers addr).

(** ** HandleP2PMessage (714-756) *)

(** [buf := make([]byte, count); copy(buf[:], rcv_bytes[:])]. *)
Definition copy_buf (count : nat) (rcv_bytes : list byte) : list byte :=
  take count rcv_bytes ++ replicate (count - length rcv_bytes) x00.

Definition HandleP2PMessage (count : Z) (src_addr : option net.UDPAddr)
    (err : bool) (rcv_bytes : list byte) : M unit :=
  if err then ret tt
  else if (count <? 0)%Z then panic NegativeLen
  else
    let buf := copy_buf (Z.to_nat count) rcv_bytes in
    match P2PMessageFromBytes codec buf with
    | None => ret tt
    | Some msg =>
        let msgType := Header_Type msg in
        if (msgType =? MT_INTRO codec)%N then
          unknown <- IsPeerUnknown src_addr ;;
          if negb unknown then ret tt
          else
            let '(id, mac, ip) := ParseIntroString (string_of_bytes (Data msg)) in
            _ <- AddPeer src_addr id ip mac ;;
            ptp <- get_ptp ;;
            let msg := PrepareIntroductionMessage ptp (dht.SelfID (dht ptp)) in
            _ <- UDPSocket_SendMessage msg src_addr ;;
            ret tt
        else if (msgType =? MT_TEST codec)%N then
          let msg := CreateTestP2PMessage codec "TEST" 0 in
          _ <- UDPSocket_SendMessage msg src_addr ;;
          ret tt
        else if (msgType =? MT_NENC codec)%N then WriteToDevice (Data msg)
        else ret tt
    end.

(** ** SendTo (758-766) *)
Fixpoint SendTo_scan (peers : list NetworkPeer) (dst : net.HardwareAddr)
    (msg : P2PMessage) : M (Z * option string) :=
  match peers with
  | [] => ret (0%Z, None)
  | peer :: rest =>
      if String.eqb (net.HardwareAddr_String (PeerHW peer)) (net.HardwareAddr_String dst)
      then UDPSocket_SendMessage msg (PeerAddr peer)
      else SendTo_scan rest dst msg
  end.

Definition SendTo (dst : net.HardwareAddr) (msg : P2PMessage)
  : M (Z * option string) :=
  peers <- getPeers ;;
  SendTo_scan peers dst msg.

End Agent.

(** ** Reasoning about the methods *)

(** The state [s] with the registry [l]. *)
Definition put_peers (l : list NetworkPeer) (s : State) : State :=
  mkState (with_NetworkPeers l (cloud s)) (clock s) (trace s).

(** Partial correctness: if [m] returns from [s] (rather than panics), the
    value and the state satisfy [Q]. *)
Definition wp {A} (m : M A) (Q : A -> State -> Prop) (s : State) : Prop :=
  match m s with
  | Done (a, s') => Q a s'
  | Panic _ => True
  end.

(** [m] keeps the property [I] of states. *)
Definition keeps {A} (I : State -> Prop) (m : M A) : Prop :=
  forall s, I s -> wp m (fun _ => I) s.

(** A property of the registry, as a property of states. *)
Definition on_registry (PC : list NetworkPeer -> Prop) (s : State) : Prop :=
  PC (NetworkPeers (cloud s)).



(** The indices, from [k] on, of the records whose id is not in the view. *)
Fixpoint absent_from (view : list dht.PeerIP) (k : nat) (peers : list NetworkPeer)
  : list nat :=
  match peers with
  | [] => []
  | p :: rest =>
      (if negb (in_view view (ID p)) then [k] else []) ++ absent_from view (S k) rest
  end.

(** What [AddPeer] makes of a record: overwritten when it carries the id. *)
Definition introduced_if (addr : option net.UDPAddr) (id : string) (ip : net.IP)
    (mac : net.HardwareAddr) (p : NetworkPeer) : NetworkPeer :=
  if String.eqb (ID p) id then introduced addr id ip mac p else p.

(** What [AddPeer] makes of the registry: the records that carry the id are
    overwritten in place; when there is none a record is appended. *)
Definition upsert (addr : option net.UDPAddr) (id : string) (ip : net.IP)
    (mac : net.HardwareAddr) (peers : list NetworkPeer) : list NetworkPeer :=
  if existsb (fun p => String.eqb (ID p) id) peers
  then map (introduced_if addr id ip mac) peers
  else peers ++
       [mkNetworkPeer id false true (net.UDPAddr_String addr) 0 None addr ip mac "" []].

(** ** The states the agent reaches *)




(** ** A sample codec and a sample host, for the examples below *)

Module Sample.

Definition be16 (hi lo : byte) : N := (byte_val hi * 256 + byte_val lo)%N.

(** Modelled from the spec: [udpcs.P2PMessageFromBytes], which is not among
    the sources.  A header of three 16-bit big-endian words (type, payload
    length, flags) followed by the payload; a buffer shorter than the header
    or than the declared length does not parse.  The type numbers 1, 2, 3 of
    [codec] are arbitrary.  Only the examples use this codec: the theorems
    are about every codec. *)
Definition FromBytes (b : list byte) : option P2PMessage :=
  match b with
  | t1 :: t2 :: l1 :: l2 :: f1 :: f2 :: payload =>
      if Nat.ltb (length payload) (N.to_nat (be16 l1 l2)) then None
      else Some (mkP2PMessage (be16 t1 t2) (take (N.to_nat (be16 l1 l2)) payload))
  | _ => None
  end.

Definition codec : Codec :=
  mkCodec 1 2 3 FromBytes
    (fun s _ => mkP2PMessage 1 (list_byte_of_string s))
    (fun s _ => mkP2PMessage 2 (list_byte_of_string s)).

(** The datagram that carries [payload] with type [t]. *)
Definition frame (t : byte) (payload : string) : list byte :=
  [x00; t; to_byte (N.of_nat (String.length payload) / 256);
   to_byte (N.of_nat (String.length payload)); x00; x00]
  ++ list_byte_of_string payload.

Definition addr4 (a b c d : byte) (port : Z) : net.UDPAddr :=
  net.mkUDPAddr (net.IPv4 a b c d) port "".

Definition public_addr : net.UDPAddr := addr4 x08 x08 x08 x08 4000.
Definition lan_addr : net.UDPAddr := addr4 xc0 xa8 x01 x05 4000.
Definition src_addr : net.UDPAddr := addr4 x01 x02 x03 x04 5.

(** The host has the overlay interface [vptp1] (10.0.0.0/24) and [eth0]
    (192.168.1.0/24); it resolves the two literal addresses; a probe of the
    LAN address is answered with 4 bytes when [lan_alive], every other probe
    runs into the deadline; the socket accepts every message. *)
Definition host (lan_alive : bool) : Host :=
  mkHost
    (fun _ => Some [mkInterface "vptp1"
                      [Some (net.mkIPNet [x0a; x00; x00; x00] [xff; xff; xff; x00])];
                    mkInterface "eth0"
                      [Some (net.mkIPNet [xc0; xa8; x01; x00] [xff; xff; xff; x00])]])
    (fun _ s => if String.eqb s "8.8.8.8:4000" then Some public_addr
                else if String.eqb s "192.168.1.5:4000" then Some lan_addr
                else None)
    (fun _ a => if String.eqb (net.UDPAddr_String a) "192.168.1.5:4000"
                then mkProbeIO false false [(4%Z, negb lan_alive)]
                else mkProbeIO false false [])
    (fun _ m _ => ((Z.of_nat (length (Data m)) + 6)%Z, None)).

Definition ptp (peers : list NetworkPeer) (view : list dht.PeerIP) : PTPCloud :=
  mkPTPCloud "10.0.0.1" "06:01:02:03:04:05" [x06; x01; x02; x03; x04; x05]
    "255.255.255.0" "vptp1" true peers [] (dht.mkDHTClient "me" view).

Definition state (peers : list NetworkPeer) (view : list dht.PeerIP) : State :=
  mkState (ptp peers view) 0 [].

(** The record [SyncPeers] creates for a new id. *)
Definition fresh (id : string) : NetworkPeer :=
  mkNetworkPeer id true false "" 0 None None [] [] "" [].

(** The record [AddPeer] creates when the peer with id b, MAC
    06:aa:bb:cc:dd:ee and overlay address 10.0.0.2 introduces itself from
    1.2.3.4:5 to an agent that has no record of it. *)
Definition peer_b : NetworkPeer :=
  mkNetworkPeer "b" false true "1.2.3.4:5" 0 None (Some src_addr)
    (net.IPv4 x0a x00 x00 x02) [x06; xaa; xbb; xcc; xdd; xee] "" [].

(** The record for the id a once the DHT has reported its public address and
    then its LAN address; no endpoint is chosen yet. *)
Definition known_a : NetworkPeer :=
  mkNetworkPeer "a" true false "" 0 None None [] [] ""
    [Some public_addr; Some lan_addr].

(** The DHT view that lists a with these two addresses. *)
Definition view_a : list dht.PeerIP :=
  [dht.mkPeerIP "a" ["8.8.8.8:4000"; "192.168.1.5:4000"]].

(** Our own introduction, as [PrepareIntroductionMessage] builds it. *)
Definition intro_msg : P2PMessage :=
  mkP2PMessage 1 (list_byte_of_string "me,06:01:02:03:04:05,10.0.0.1").

End Sample.

(** ** The sentences of the specification that the code does not satisfy,
       as the specification states them *)

Module Stated.


(** "Frames destined to the MAC of a record with an empty endpoint are dropped
    silently": whenever a record has the destination MAC and an empty
    [Endpoint], [SendTo] hands nothing to the socket. *)
Definition drops_without_endpoint (host : Host) (s : State)
    (dst : net.HardwareAddr) (msg : P2PMessage) : Prop :=
  (exists p, In p (NetworkPeers (cloud s)) /\ PeerHW p = dst /\ Endpoint p = "") ->
  exists r s', SendTo host dst msg s = Done (r, s') /\ trace s' = trace s.

(** "A valid 48-bit Ethernet MAC address": a text that parses to 6 octets. *)
Definition is_MAC48 (s : string) : Prop :=
  exists hw, net.ParseMAC s = Some hw /\ length hw = 6.

(** "A valid dotted-quad IPv4 address": four decimal octets between dots. *)
Definition is_dotted_quad (s : string) : Prop := net.parseIPv4 s <> [].

(** What [ParseIntroString] returns is "a non-empty triple": the MAC and the
    IP are not nil. *)
Definition is_triple (r : string * net.HardwareAddr * net.IP) : Prop :=
  snd (fst r) <> [] /\ snd r <> [].

(** "Returns a non-empty triple if and only if the string splits on commas
    into exactly three parts whose second part is a valid 48-bit MAC and whose
    third part is a valid dotted-quad IPv4 address". *)
Definition intro_accepted_iff_mac48_and_dotted_quad (intro : string) : Prop :=
  is_triple (ParseIntroString intro) <->
  exists p0 p1 p2,
    Strings.Split intro "," = [p0; p1; p2] /\ is_MAC48 p1 /\ is_dotted_quad p2.

(** "For every inbound INTRO message whose source address string matches no
    record's clean address, HandleP2PMessage appends a brand-new record with
    Unknown=false and Handshaked=true, and sends an INTRO reply." *)
Definition intro_from_unknown_appends (codec : Codec) (host : Host) (s : State)
    (count : Z) (src : option net.UDPAddr) (rcv_bytes : list byte) : Prop :=
  forall msg,
    P2PMessageFromBytes codec (copy_buf (Z.to_nat count) rcv_bytes) = Some msg ->
    Header_Type msg = MT_INTRO codec ->
    Forall (fun p => CleanAddr p <> net.UDPAddr_String src) (NetworkPeers (cloud s)) ->
    exists s' newPeer,
      HandleP2PMessage codec host count src false rcv_bytes s = Done (tt, s')
      /\ NetworkPeers (cloud s') = NetworkPeers (cloud s) ++ [newPeer]
      /\ Unknown newPeer = false
      /\ Handshaked newPeer = true
      /\ trace s' = trace s ++
           [EvSendMessage
              (PrepareIntroductionMessage codec (cloud s) (dht.SelfID (dht (cloud s))))
              src].


End Stated.

(** ** The name of the device and the loop of [main] *)

(** [fmt.Sprintf("%d", i)] for an [int]. *)
Definition Sprintf_d (i : Z) : string := net.itoa i.

(** [i + 1] on the 64-bit [int] of Go, which wraps around. *)
Definition int_succ (i : Z) : Z :=
  ((i + 1 + 2 ^ 63) mod 2 ^ 64 - 2 ^ 63)%Z.

(** *** GenerateDeviceName (201-219)

    The method calls itself with [i + 1] as long as an interface carries the
    name.  [fuel] is the number of such calls that are followed; [None] is
    returned when it is used up. *)
Fixpoint GenerateDeviceName (host : Host) (fuel : nat) (i : Z) : M (option string) :=
  let devName := "vptp" +:+ Sprintf_d i in
  r <- ask (Interfaces host) ;;
  match r with
  | None => ret (Some "")
  | Some inf =>
      let exist :=
        fold_left (fun exist itf => if String.eqb (Name itf) devName then true else exist)
          inf false in
      if exist then
        match fuel with
        | 0 => ret None
        | S fuel' => GenerateDeviceName host fuel' (int_succ i)
        end
      else ret (Some devName)
  end.

(** *** The loop of [main] (371-381)

    One turn, from the moment [dht.UpdatePeers] has refreshed the view:
    lines 376-380. *)
Definition main_turn (codec : Codec) (host : Host) (LastCatch : list string) : M unit :=
  _ <- PurgePeers LastCatch ;;
  newPeersNum <- SyncPeers codec host LastCatch ;;
  if (0 <? newPeersNum)%Z then IntroducePeers codec host else ret tt.

(** *** Notions the properties below are stated with *)

(** The record [SyncPeers] appends for an id it has no record of. *)
Definition new_record (id : string) : NetworkPeer :=
  mkNetworkPeer id true false "" 0 None None [] [] "" [].

(** [p'] is [p] with more known addresses and possibly another endpoint. *)
Definition synced (p p' : NetworkPeer) : Prop :=
  exists e ks, p' = with_Endpoint e (with_KnownIPs (KnownIPs p ++ ks) p).

(** The addresses of [ips] that the merge of [SyncPeers] appends to a record
    whose copy knows [known]: those that are not empty, not "0" and not among
    the texts of [known]. *)
Definition unknown_addresses (known : list (option net.UDPAddr)) (ips : list string)
  : list string :=
  List.filter
    (fun ip => negb (String.eqb ip "" || String.eqb ip "0")
               && negb (existsb (fun kip => String.eqb (net.UDPAddr_String kip) ip) known))
    ips.

(** What [IntroducePeers] makes of the records [peers] when it reaches them
    at clock [t]: the records, the clock and the messages afterwards.  [ptp]
    is the agent, of which the introduction carries the id, the MAC and the
    IP. *)
Fixpoint introduce_from (codec : Codec) (host : Host) (ptp : PTPCloud) (t : nat)
    (peers : list NetworkPeer) : list NetworkPeer * nat * list Event :=
  match peers with
  | [] => ([], t, [])
  | p :: rest =>
      if Unknown p && negb (String.eqb (Endpoint p) "") then
        match ResolveUDPAddr host t (Endpoint p) with
        | None =>
            let '(l, t', evs) := introduce_from codec host ptp (S t) rest in
            (p :: l, t', evs)
        | Some addr =>
            let '(l, t', evs) := introduce_from codec host ptp (S (S t)) rest in
            (with_PeerAddr (Some addr) p :: l, t',
             EvSendMessage (PrepareIntroductionMessage codec ptp (dht.SelfID (dht ptp)))
               (Some addr) :: evs)
        end
      else
        let '(l, t', evs) := introduce_from codec host ptp t rest in
        (p :: l, t', evs)
  end.

(** The agent of [s] differs from [c0] in its registry at most. *)
Definition same_config (c0 : PTPCloud) (s : State) : Prop :=
  with_NetworkPeers [] (cloud s) = with_NetworkPeers [] c0.

(** The positions, in the registry that [PurgePeers] starts with, of the
    records that it removes: the index of the [j]-th absent record plus [j],
    since [j] records before it have gone by the time it is removed. *)
Definition purged_positions (view : list dht.PeerIP) (peers : list NetworkPeer)
  : list nat :=
  imap (fun j i => i + j) (absent_from view 0 peers).

(** The records of [l], which sit at the positions [k], [k+1], ..., whose
    position is not among [ps]. *)
Fixpoint drop_positions (ps : list nat) (k : nat) (l : list NetworkPeer)
  : list NetworkPeer :=
  match l with
  | [] => []
  | p :: l' =>
      if existsb (Nat.eqb k) ps then drop_positions ps (S k) l'
      else p :: drop_positions ps (S k) l'
  end.

(** The numbers of [l] increase strictly and are at least [k]. *)
Fixpoint ascending_from (k : nat) (l : list nat) : Prop :=
  match l with
  | [] => True
  | i :: l' => k <= i /\ ascending_from (S i) l'
  end.

(** The ids for which the events [evs] ask the DHT for addresses, in order. *)
Definition requested (evs : list Event) : list string :=
  flat_map (fun e => match e with EvRequestPeerIPs id => [id] | _ => [] end) evs.

(** The event is the write of a probe or a request to the DHT: nothing goes
    to the UDP socket of the agent or to the TAP device. *)
Definition probe_or_request (e : Event) : Prop :=
  match e with
  | EvProbeWrite _ _ | EvRequestPeerIPs _ => True
  | EvSendMessage _ _ | EvWritePacket _ _ => False
  end.

(** Total correctness: [m] returns from [s], and the value and the state
    satisfy [Q]. *)
Definition returns {A} (m : M A) (Q : A -> State -> Prop) (s : State) : Prop :=
  match m s with
  | Done (a, s') => Q a s'
  | Panic _ => False
  end.

(** No known address of the record is nil. *)
Definition addresses_resolved (p : NetworkPeer) : Prop :=
  Forall (fun kip => kip <> None) (KnownIPs p).

(** The registry has [n] records, none with a nil known address. *)
Definition safe (n : nat) (s : State) : Prop :=
  length (NetworkPeers (cloud s)) = n
  /\ Forall addresses_resolved (NetworkPeers (cloud s)).




(* ===================================================================== *)
(** * Properties *)
(* ===================================================================== *)

(** ** package net *)

Example ParseMAC_colon :
  net.ParseMAC "06:0a:ff:10:00:01" = Some [x06; x0a; xff; x10; x00; x01].
Proof. vm_compute. reflexivity. Qed.

Example ParseMAC_dot :
  net.ParseMAC "0000.5e00.5301" = Some [x00; x00; x5e; x00; x53; x01].
Proof. vm_compute. reflexivity. Qed.

Example ParseMAC_bad : net.ParseMAC "not-a-mac" = None.
Proof. vm_compute. reflexivity. Qed.

Example ParseMAC_upper_hyphen :
  net.ParseMAC "00-00-5E-00-53-01" = Some [x00; x00; x5e; x00; x53; x01].
Proof. vm_compute. reflexivity. Qed.

Example ParseMAC_seven_octets : net.ParseMAC "00:00:5e:00:53:01:02" = None.
Proof. vm_compute. reflexivity. Qed.

Example ParseMAC_mixed_separators : net.ParseMAC "00:00-5e:00:53:01" = None.
Proof. vm_compute. reflexivity. Qed.

Example ParseMAC_eui64 :
  net.ParseMAC "02:00:5e:10:00:00:00:01"
  = Some [x02; x00; x5e; x10; x00; x00; x00; x01].
Proof. vm_compute. reflexivity. Qed.

Example ParseIP_bad : net.ParseIP "10.0.0.256" = [] /\ net.ParseIP "10.0.0" = [].
Proof. split; vm_compute; reflexivity. Qed.

Example UDPAddr_String_v4 :
  net.UDPAddr_String (Some (net.mkUDPAddr (net.ParseIP "10.0.0.2") 8080 ""))
  = "10.0.0.2:8080".
Proof. vm_compute. reflexivity. Qed.

Example UDPAddr_String_v6 :
  net.UDPAddr_String (Some (net.mkUDPAddr (net.ParseIP "fe80::1") 80 "eth0"))
  = "[fe80::1%eth0]:80".
Proof. vm_compute. reflexivity. Qed.

Example UDPAddr_String_nil : net.UDPAddr_String None = "<nil>".
Proof. reflexivity. Qed.

Example ParseIP_v4 : net.IP_String (net.ParseIP "10.0.0.2") = "10.0.0.2".
Proof. vm_compute. reflexivity. Qed.

Example ParseIP_v6 :
  net.IP_String (net.ParseIP "2001:db8:0:0:0:ff00:42:8329") = "2001:db8::ff00:42:8329".
Proof. vm_compute. reflexivity. Qed.

Example Split_commas : Strings.Split "a,b,,c" "," = ["a"; "b"; ""; "c"].
Proof. vm_compute. reflexivity. Qed.

Lemma append_String (c : ascii) (s t : string) :
  String c s +:+ t = String c (s +:+ t).
Proof. reflexivity. Qed.

Lemma append_Empty (t : string) : EmptyString +:+ t = t.
Proof. reflexivity. Qed.

Lemma to_byte_val (b : byte) : to_byte (byte_val b) = b.
Proof. destruct b; reflexivity. Qed.

Lemma xtoi_Sprintf_02x (b : byte) :
  net.xtoi (Sprintf_02x b) = (byte_val b, 2, true).
Proof. destruct b; vm_compute; reflexivity. Qed.

Lemma Sprintf_02x_inj (a b : byte) : Sprintf_02x a = Sprintf_02x b -> a = b.
Proof.
  intros H.
  assert (Hv : byte_val a = byte_val b).
  { pose proof (xtoi_Sprintf_02x a) as Ha. pose proof (xtoi_Sprintf_02x b) as Hb.
    rewrite H in Ha. congruence. }
  rewrite <- (to_byte_val a), <- (to_byte_val b). now rewrite Hv.
Qed.

(** Two hex digits, then nothing or the separator: [xtoi2] reads the byte. *)
Lemma xtoi2_Sprintf_02x (b : byte) (e : ascii) (rest : string) :
  rest = EmptyString \/ (exists r, rest = String e r) ->
  net.xtoi2 (Sprintf_02x b +:+ rest) e = (b, true).
Proof.
  intros H. unfold net.xtoi2.
  assert (Htake : str_take 2 (Sprintf_02x b +:+ rest) = Sprintf_02x b) by reflexivity.
  rewrite Htake, xtoi_Sprintf_02x, to_byte_val.
  destruct H as [-> | [r ->]]; cbn.
  - reflexivity.
  - rewrite Ascii.eqb_refl. reflexivity.
Qed.

Lemma hw_tail_shape (a : list byte) :
  net.hw_tail a = EmptyString \/ exists r, net.hw_tail a = String ":" r.
Proof. destruct a; [left | right]; cbn; eauto. Qed.

Lemma parseMAC_sep_S (s : string) (e : ascii) (n : nat) :
  net.parseMAC_sep s e (S n) =
  let '(b, ok) := net.xtoi2 s e in
  if ok then cons b <$> net.parseMAC_sep (str_drop 3 s) e n else None.
Proof. reflexivity. Qed.

Lemma parseMAC_sep_String (a : list byte) (b : byte) :
  net.parseMAC_sep (Sprintf_02x b +:+ net.hw_tail a) ":" (S (length a)) = Some (b :: a).
Proof.
  revert b. induction a as [|b' a IH]; intros b; rewrite parseMAC_sep_S.
  - rewrite xtoi2_Sprintf_02x by (left; reflexivity). reflexivity.
  - rewrite xtoi2_Sprintf_02x by apply hw_tail_shape.
    change (str_drop 3 (Sprintf_02x b +:+ net.hw_tail (b' :: a)))
      with (Sprintf_02x b' +:+ net.hw_tail a).
    change (length (b' :: a)) with (S (length a)).
    rewrite IH. reflexivity.
Qed.

Lemma hw_tail_length (a : list byte) :
  String.length (net.hw_tail a) = 3 * length a.
Proof.
  induction a as [|b a IH]; [reflexivity|].
  cbn [net.hw_tail length]. unfold Sprintf_02x.
  rewrite !append_String, append_Empty. cbn [String.length]. lia.
Qed.

Lemma HardwareAddr_String_length (b : byte) (a : list byte) :
  String.length (net.HardwareAddr_String (b :: a)) = 2 + 3 * length a.
Proof.
  unfold net.HardwareAddr_String, Sprintf_02x.
  rewrite !append_String, append_Empty. cbn [String.length].
  rewrite hw_tail_length. lia.
Qed.

Lemma mac_len_ok_cases (n : nat) :
  net.mac_len_ok n = true -> n = 6 \/ n = 8 \/ n = 20.
Proof.
  unfold net.mac_len_ok. intros H.
  destruct (Nat.eqb_spec n 6); [tauto|].
  destruct (Nat.eqb_spec n 8); [tauto|].
  destruct (Nat.eqb_spec n 20); [tauto|]. discriminate.
Qed.

(** Round trip: the canonical text of an address of 6, 8 or 20 octets parses
    back to that address. *)
Lemma ParseMAC_HardwareAddr_String (a : net.HardwareAddr) :
  net.mac_len_ok (length a) = true ->
  net.ParseMAC (net.HardwareAddr_String a) = Some a.
Proof.
  intros H. apply mac_len_ok_cases in H.
  destruct a as [|b [|b' a]]; cbn [length] in H; [lia | lia |].
  unfold net.ParseMAC. rewrite HardwareAddr_String_length.
  change (byteAt (net.HardwareAddr_String (b :: b' :: a)) 2) with ":"%char.
  change (net.HardwareAddr_String (b :: b' :: a))
    with (Sprintf_02x b +:+ net.hw_tail (b' :: a)).
  pose proof (parseMAC_sep_String (b' :: a) b) as Hloop.
  cbn [length] in *.
  assert (Hn : length a = 4 \/ length a = 6 \/ length a = 18) by lia.
  destruct Hn as [Hn | [Hn | Hn]]; rewrite Hn in *; exact Hloop.
Qed.

(** [HardwareAddr.String] is injective: [SendTo] compares addresses through
    their text, which is as good as comparing the octets. *)
Lemma hw_tail_inj (a b : list byte) : net.hw_tail a = net.hw_tail b -> a = b.
Proof.
  revert b. induction a as [|x a IH]; intros [|y b] H; cbn in H; try discriminate.
  - reflexivity.
  - injection H as H1 H2 H3. f_equal; [| now apply IH].
    apply Sprintf_02x_inj. unfold Sprintf_02x. now rewrite H1, H2.
Qed.

Lemma HardwareAddr_String_inj (a b : net.HardwareAddr) :
  net.HardwareAddr_String a = net.HardwareAddr_String b -> a = b.
Proof.
  destruct a as [|x a], b as [|y b]; cbn; intros H; try discriminate.
  - reflexivity.
  - injection H as H1 H2 H3. f_equal; [| now apply hw_tail_inj].
    apply Sprintf_02x_inj. unfold Sprintf_02x. now rewrite H1, H2.
Qed.

Lemma Split_length (s : string) (sep : ascii) :
  length (Strings.Split s sep) = S (Strings.Count s sep).
Proof.
  induction s as [|c s IH]; cbn [Strings.Split Strings.Count]; [reflexivity|].
  destruct (Ascii.eqb c sep); cbn [length]; [now rewrite IH|].
  destruct (Strings.Split s sep); cbn in *; lia.
Qed.

Lemma parseMAC_sep_length (s : string) (e : ascii) (n : nat) (hw : list byte) :
  net.parseMAC_sep s e n = Some hw -> length hw = n.
Proof.
  revert s hw. induction n as [|n IH]; intros s hw; cbn [net.parseMAC_sep].
  - now intros [= <-].
  - destruct (net.xtoi2 s e) as [b [|]]; [|discriminate].
    destruct (net.parseMAC_sep (str_drop 3 s) e n) as [hw'|] eqn:E; [|discriminate].
    intros [= <-]. cbn. f_equal. eauto.
Qed.

Lemma parseMAC_dot_length (s : string) (e : ascii) (k : nat) (hw : list byte) :
  net.parseMAC_dot s e k = Some hw -> length hw = 2 * k.
Proof.
  revert s hw. induction k as [|k IH]; intros s hw; cbn [net.parseMAC_dot].
  - now intros [= <-].
  - destruct (net.xtoi2 (str_take 2 s) Ascii.zero) as [b1 [|]]; [|discriminate].
    destruct (net.xtoi2 (str_drop 2 s) e) as [b2 [|]]; [|discriminate].
    destruct (net.parseMAC_dot (str_drop 5 s) e k) as [hw'|] eqn:E; [|discriminate].
    intros [= <-]. cbn [length]. rewrite (IH _ _ E). lia.
Qed.

(** An address that [net.ParseMAC] accepts has 6, 8 or 20 octets. *)
Lemma ParseMAC_length (s : string) (hw : net.HardwareAddr) :
  net.ParseMAC s = Some hw -> length hw = 6 \/ length hw = 8 \/ length hw = 20.
Proof.
  unfold net.ParseMAC.
  destruct (Nat.ltb (String.length s) 14); [discriminate|].
  destruct (Ascii.eqb (byteAt s 2) ":" || Ascii.eqb (byteAt s 2) "-").
  - destruct (negb (Nat.eqb ((String.length s + 1) mod 3) 0)); [discriminate|].
    destruct (net.mac_len_ok ((String.length s + 1) / 3)) eqn:Hok; [|discriminate].
    cbn [negb]. intros H. apply parseMAC_sep_length in H. rewrite H.
    now apply mac_len_ok_cases.
  - destruct (Ascii.eqb (byteAt s 4) "."); [|discriminate].
    destruct (negb (Nat.eqb ((String.length s + 1) mod 5) 0)); [discriminate|].
    destruct (net.mac_len_ok (2 * (String.length s + 1) / 5)) eqn:Hok; [|discriminate].
    cbn [negb]. intros H. apply parseMAC_dot_length in H.
    apply mac_len_ok_cases in Hok. rewrite H.
    destruct Hok as [-> | [-> | ->]]; cbn; tauto.
Qed.

(** [net.ParseIP] returns the nil address or 16 bytes. *)
Lemma parseIPv4_length (s : string) :
  net.parseIPv4 s = [] \/ length (net.parseIPv4 s) = 16.
Proof.
  unfold net.parseIPv4.
  destruct (net.parseIPv4_loop s 0 net.IPv4len) as [[|a [|b [|c [|d [|]]]]]|]; auto.
Qed.

(** A turn of the loop of [parseIPv6] that does not fail writes two or four
    bytes and stays within the 16 bytes of the address. *)
Lemma parseIPv6_turn_length (s : string) (acc : list byte) (e : option nat) :
  length acc < 16 -> Nat.Even (length acc) ->
  match net.parseIPv6_turn s acc e with
  | net.V6Fail => True
  | net.V6Break _ acc' _ =>
      length acc < length acc' <= 16 /\ Nat.Even (length acc')
  | net.V6Next _ acc' _ =>
      length acc < length acc' <= 16 /\ Nat.Even (length acc')
  end.
Proof.
  intros Hlt [h Hev]. unfold net.parseIPv6_turn, net.IPv6len, net.IPv4len.
  assert (Hplus2 : length acc < length (acc ++ [to_byte (N.shiftr (fst (fst (net.xtoi s))) 8);
                                               to_byte (fst (fst (net.xtoi s)))]) <= 16
                   /\ Nat.Even (length (acc ++ [to_byte (N.shiftr (fst (fst (net.xtoi s))) 8);
                                                to_byte (fst (fst (net.xtoi s)))]))).
  { rewrite length_app. cbn [length]. split; [lia|]. exists (S h). lia. }
  destruct (net.xtoi s) as [[n c] ok]. cbn [fst] in Hplus2.
  destruct (negb ok || (65535 <? n)%N); [exact Logic.I|].
  destruct (Nat.ltb c (String.length s) && Ascii.eqb (byteAt s c) ".").
  - destruct (negb (net.has_ellipsis e) && negb (Nat.eqb (length acc) (16 - 4)));
      [exact Logic.I|].
    destruct (Nat.ltb_spec 16 (length acc + 4)) as [|Hroom]; [exact Logic.I|].
    destruct (parseIPv4_length s) as [-> | Hlen]; [exact Logic.I|].
    destruct (net.parseIPv4 s) as [|x ip4] eqn:E; [exact Logic.I|].
    rewrite length_app, length_drop, Hlen. split; [lia|]. exists (h + 2). lia.
  - cbv zeta.
    repeat match goal with
           | |- context [if ?b then _ else _] => destruct b
           end; try exact Logic.I; exact Hplus2.
Qed.

(** Eight turns are enough: with more fuel the loop gives the same result. *)
Lemma parseIPv6_loop_fuel (fuel fuel' : nat) (s : string) (acc : list byte)
    (e : option nat) :
  Nat.Even (length acc) -> 16 <= length acc + 2 * fuel -> fuel <= fuel' ->
  net.parseIPv6_loop fuel' s acc e = net.parseIPv6_loop fuel s acc e.
Proof.
  revert fuel' s acc e. induction fuel as [|fuel IH]; intros fuel' s acc e Hev Hf Hle.
  - destruct fuel'; cbn [net.parseIPv6_loop]; unfold net.IPv6len;
      destruct (Nat.ltb_spec (length acc) 16); try lia; reflexivity.
  - destruct fuel' as [|fuel']; [lia|]. cbn [net.parseIPv6_loop]. unfold net.IPv6len.
    destruct (Nat.ltb_spec (length acc) 16) as [Hlt|]; [|reflexivity]. cbn [negb].
    pose proof (parseIPv6_turn_length s acc e Hlt Hev) as Hturn.
    destruct (net.parseIPv6_turn s acc e) as [|s' acc' e'|s' acc' e']; try reflexivity.
    destruct Hturn as [Hlen Hev']. apply IH; [assumption| |lia].
    destruct Hev as [h Hh], Hev' as [h' Hh']. lia.
Qed.

Lemma parseIPv6_loop_length (fuel : nat) (s s' : string) (acc acc' : list byte)
    (e e' : option nat) :
  length acc <= 16 -> Nat.Even (length acc) ->
  net.parseIPv6_loop fuel s acc e = Some (s', acc', e') ->
  length acc' <= 16.
Proof.
  revert s acc e. induction fuel as [|fuel IH]; intros s acc e Hle Hev;
    cbn [net.parseIPv6_loop]; unfold net.IPv6len;
    destruct (Nat.ltb_spec (length acc) 16) as [Hlt|]; cbn [negb];
    try (intros [= <- <- <-]; lia); try discriminate.
  pose proof (parseIPv6_turn_length s acc e Hlt Hev) as Hturn.
  destruct (net.parseIPv6_turn s acc e) as [|s1 acc1 e1|s1 acc1 e1]; [discriminate| |].
  - intros [= <- <- <-]. lia.
  - destruct Hturn as [Hlen Hev']. apply IH; [lia | assumption].
Qed.

Lemma parseIPv6_finish_length (s : string) (acc : list byte) (e : option nat) :
  length acc <= 16 ->
  net.parseIPv6_finish (s, acc, e) = []
  \/ length (net.parseIPv6_finish (s, acc, e)) = 16.
Proof.
  intros Hle. unfold net.parseIPv6_finish, net.IPv6len.
  destruct (negb (Nat.eqb (String.length s) 0)); [now left|].
  destruct (Nat.ltb_spec (length acc) 16) as [Hlt|Hge].
  - destruct e as [e|]; [|now left]. right.
    rewrite !length_app, length_replicate, length_take, length_drop. lia.
  - destruct (net.has_ellipsis e); [now left|]. right. lia.
Qed.

Lemma parseIPv6_length (s : string) :
  net.parseIPv6 s = [] \/ length (net.parseIPv6 s) = 16.
Proof.
  assert (Hev : Nat.Even (length (@nil byte))) by (exists 0; reflexivity).
  unfold net.parseIPv6.
  destruct (_ && _).
  - destruct (Nat.eqb _ 0); [right; reflexivity|].
    destruct (net.parseIPv6_loop 8 _ [] (Some 0)) as [[[s' acc'] e']|] eqn:E; [|now left].
    apply parseIPv6_finish_length.
    eapply parseIPv6_loop_length; [| exact Hev | exact E]. cbn; lia.
  - destruct (net.parseIPv6_loop 8 s [] None) as [[[s' acc'] e']|] eqn:E; [|now left].
    apply parseIPv6_finish_length.
    eapply parseIPv6_loop_length; [| exact Hev | exact E]. cbn; lia.
Qed.

Lemma ParseIP_scan_length (rest s : string) :
  net.ParseIP_scan rest s = [] \/ length (net.ParseIP_scan rest s) = 16.
Proof.
  induction rest as [|c rest IH]; cbn [net.ParseIP_scan]; [now left|].
  destruct (Ascii.eqb c "."); [apply parseIPv4_length|].
  destruct (Ascii.eqb c ":"); [apply parseIPv6_length | exact IH].
Qed.

Lemma ParseIP_length (s : string) :
  net.ParseIP s = [] \/ length (net.ParseIP s) = 16.
Proof. apply ParseIP_scan_length. Qed.

(** ** GenerateMAC *)

(** C8. For every 6-byte random input, the MAC string that [GenerateMAC]
    produces is the canonical colon-hex text of a 6-octet address [hw] whose
    first octet is exactly 0x06, so that its locally-administered bit is set
    ([first_byte & 0x02 != 0]); the string parses with [net.ParseMAC] to [hw],
    which is the address [GenerateMAC] returns with it; the other five octets
    are the random bytes 1 to 5. *)
Theorem C8_GenerateMAC_valid (rnd : list byte) :
  length rnd = 6 ->
  exists hw : net.HardwareAddr,
    GenerateMAC rnd false = (net.HardwareAddr_String hw, hw)
    /\ net.ParseMAC (net.HardwareAddr_String hw) = Some hw
    /\ length hw = 6
    /\ hw !! 0 = Some x06
    /\ N.land (byte_val (nth 0 hw x00)) 2 <> 0%N
    /\ drop 1 hw = drop 1 rnd.
Proof.
  intros Hlen.
  destruct rnd as [|r0 [|r1 [|r2 [|r3 [|r4 [|r5 [|]]]]]]]; try discriminate Hlen.
  exists [x06; r1; r2; r3; r4; r5].
  assert (Hparse : net.ParseMAC (net.HardwareAddr_String [x06; r1; r2; r3; r4; r5])
                   = Some [x06; r1; r2; r3; r4; r5])
    by (apply ParseMAC_HardwareAddr_String; reflexivity).
  unfold GenerateMAC. cbn [list_insert insert nth].
  change ("06:" +:+ Sprintf_02x r1 +:+ ":" +:+ Sprintf_02x r2 +:+ ":" +:+
          Sprintf_02x r3 +:+ ":" +:+ Sprintf_02x r4 +:+ ":" +:+ Sprintf_02x r5)
    with (net.HardwareAddr_String [x06; r1; r2; r3; r4; r5]).
  rewrite Hparse. repeat split; try reflexivity. vm_compute. discriminate.
Qed.

Lemma C8_GenerateMAC_valid_witness :
  exists hw : net.HardwareAddr,
    GenerateMAC [xff; x01; x02; x03; xab; xcd] false = (net.HardwareAddr_String hw, hw)
    /\ net.ParseMAC (net.HardwareAddr_String hw) = Some hw
    /\ length hw = 6
    /\ hw !! 0 = Some x06
    /\ N.land (byte_val (nth 0 hw x00)) 2 <> 0%N
    /\ drop 1 hw = drop 1 [xff; x01; x02; x03; xab; xcd].
Proof. apply (C8_GenerateMAC_valid [xff; x01; x02; x03; xab; xcd]). reflexivity. Defined.

Example GenerateMAC_sample :
  GenerateMAC [xff; x01; x02; x03; xab; xcd] false
  = ("06:01:02:03:ab:cd", [x06; x01; x02; x03; xab; xcd]).
Proof. vm_compute. reflexivity. Qed.

(** ** ParseIntroString *)

Example ParseIntroString_ok :
  ParseIntroString "b,06:aa:bb:cc:dd:ee,10.0.0.2"
  = ("b", [x06; xaa; xbb; xcc; xdd; xee], net.IPv4 x0a x00 x00 x02).
Proof. vm_compute. reflexivity. Qed.

Example ParseIntroString_bad_mac :
  ParseIntroString "id-x,not-a-mac,10.0.0.2" = ("", [], []).
Proof. vm_compute. reflexivity. Qed.

Example ParseIntroString_three_commas :
  ParseIntroString "b,06:aa:bb:cc:dd:ee,10.0.0.2," = ("", [], []).
Proof. vm_compute. reflexivity. Qed.

Example ParseIntroString_ipv6 :
  ParseIntroString "b,06:aa:bb:cc:dd:ee,::1"
  = ("b", [x06; xaa; xbb; xcc; xdd; xee],
     [x00; x00; x00; x00; x00; x00; x00; x00; x00; x00; x00; x00; x00; x00; x00; x01]).
Proof. vm_compute. reflexivity. Qed.

(** C5, as stated, fails: an introduction whose second part is an EUI-64
    address of eight octets is accepted, though that part is not a 48-bit MAC
    address. *)
Lemma C5_counterexample :
  ~ Stated.intro_accepted_iff_mac48_and_dotted_quad
      "x,02:00:5e:10:00:00:00:01,10.0.0.1".
Proof.
  intros [Hto _].
  destruct Hto as (p0 & p1 & p2 & Hsplit & (hw & Hmac & Hlen) & _).
  - vm_compute. split; discriminate.
  - vm_compute in Hsplit. injection Hsplit as <- <- <-.
    vm_compute in Hmac. injection Hmac as <-. discriminate Hlen.
Qed.

(** C5, amended. [ParseIntroString] returns a triple with a MAC and an IP that
    are not nil if and only if the string splits on commas into exactly three
    parts (it has exactly two commas), [net.ParseMAC] accepts the second part
    and [net.ParseIP] accepts the third; the triple is then the first part,
    the parsed MAC, which has 6, 8 or 20 octets, and the parsed IP, which has
    16 bytes.  Otherwise it returns the empty id, the nil MAC and the nil
    IP. *)
Theorem C5_ParseIntroString_accepts (intro : string) :
  (Strings.Count intro "," = 2
   /\ exists p0 p1 p2 mac,
        Strings.Split intro "," = [p0; p1; p2]
        /\ net.ParseMAC p1 = Some mac
        /\ net.ParseIP p2 <> []
        /\ ParseIntroString intro = (p0, mac, net.ParseIP p2)
        /\ Stated.is_triple (ParseIntroString intro)
        /\ (length mac = 6 \/ length mac = 8 \/ length mac = 20)
        /\ length (net.ParseIP p2) = 16)
  \/
  ((~ exists p0 p1 p2,
        Strings.Split intro "," = [p0; p1; p2]
        /\ is_Some (net.ParseMAC p1)
        /\ net.ParseIP p2 <> [])
   /\ ~ Stated.is_triple (ParseIntroString intro)
   /\ ParseIntroString intro = ("", [], [])).
Proof.
  unfold ParseIntroString.
  pose proof (Split_length intro ",") as Hcount.
  destruct (Nat.eqb_spec (length (Strings.Split intro ",")) 3) as [H3|H3]; cbn [negb].
  - destruct (Strings.Split intro ",") as [|p0 [|p1 [|p2 [|]]]] eqn:Hs;
      try discriminate H3.
    cbn [nth].
    destruct (net.ParseMAC p1) as [mac|] eqn:Hmac.
    + destruct (Nat.eqb_spec (length (net.ParseIP p2)) 0) as [H0|H0].
      * right. split; [|split; [|reflexivity]].
        -- intros (q0 & q1 & q2 & [= <- <- <-] & _ & Hip).
           apply Hip. now destruct (net.ParseIP p2).
        -- intros [H _]. now apply H.
      * left. split; [cbn in Hcount; lia|].
        pose proof (ParseMAC_length _ _ Hmac) as Hl.
        assert (Hip : net.ParseIP p2 <> []) by (intros E; rewrite E in H0; now apply H0).
        exists p0, p1, p2, mac.
        split; [reflexivity|]. split; [assumption|]. split; [assumption|].
        split; [reflexivity|]. split; [|split; [assumption|]].
        -- split; cbn [fst snd]; [|assumption].
           intros ->. cbn in Hl. lia.
        -- destruct (ParseIP_length p2) as [E|E]; [contradiction | exact E].
    + right. split; [|split; [|reflexivity]].
      * intros (q0 & q1 & q2 & [= <- <- <-] & [m Hm] & _). congruence.
      * intros [H _]. now apply H.
  - right. split; [|split; [|reflexivity]].
    + intros (q0 & q1 & q2 & Hs & _). rewrite Hs in H3. now apply H3.
    + intros [H _]. now apply H.
Qed.

(** ** The registry monad *)

Lemma put_peers_same (s : State) : put_peers (NetworkPeers (cloud s)) s = s.
Proof. destruct s as [[] ? ?]; reflexivity. Qed.

Lemma put_peers_put_peers (l l' : list NetworkPeer) (s : State) :
  put_peers l (put_peers l' s) = put_peers l s.
Proof. reflexivity. Qed.

Lemma peerAt_run (i : nat) (s : State) (p : NetworkPeer) :
  NetworkPeers (cloud s) !! i = Some p -> peerAt i s = Done (p, s).
Proof. intros H. unfold peerAt, bind, getPeers. now rewrite H. Qed.

Lemma updPeer_run (i : nat) (f : NetworkPeer -> NetworkPeer) (s : State)
    (p : NetworkPeer) :
  NetworkPeers (cloud s) !! i = Some p ->
  updPeer i f s = Done (tt, put_peers (alter f i (NetworkPeers (cloud s))) s).
Proof. intros H. unfold updPeer, bind, getPeers. now rewrite H. Qed.

Lemma bind_run {A B} (m : M A) (k : A -> M B) (s s' : State) (a : A) :
  m s = Done (a, s') -> bind m k s = k a s'.
Proof. intros H. unfold bind. now rewrite H. Qed.

Lemma bind_assoc_run {A B C} (m : M A) (f : A -> M B) (g : B -> M C) (s : State) :
  bind (bind m f) g s = bind m (fun x => bind (f x) g) s.
Proof. unfold bind. destruct (m s) as [[a s']|e]; reflexivity. Qed.

Lemma foldM_cons {A B} (x : A) (l : list A) (b : B) (body : B -> A -> M B) :
  foldM (x :: l) b body = bind (body b x) (fun b' => foldM l b' body).
Proof. reflexivity. Qed.

(** ** AddPeer *)

Section AddPeer_loop.

Variables (addr : option net.UDPAddr) (id : string) (ip : net.IP)
          (mac : net.HardwareAddr).

Lemma AddPeer_loop_run (post pre : list NetworkPeer) (found : bool) (s : State) :
  NetworkPeers (cloud s) = map (introduced_if addr id ip mac) pre ++ post ->
  foldM (seq (length pre) (length post)) found (AddPeer_turn addr id ip mac) s
  = Done (found || existsb (fun p => String.eqb (ID p) id) post,
          put_peers (map (introduced_if addr id ip mac) (pre ++ post)) s).
Proof.
  revert pre found s. induction post as [|p post IH]; intros pre found s Hs.
  - cbn [length seq foldM existsb]. rewrite orb_false_r, app_nil_r.
    rewrite app_nil_r in Hs. rewrite <- Hs, put_peers_same. reflexivity.
  - cbn [length seq]. rewrite foldM_cons.
    assert (Hp : NetworkPeers (cloud s) !! length pre = Some p).
    { rewrite Hs, lookup_app_r by (rewrite length_map; lia).
      rewrite length_map, Nat.sub_diag. reflexivity. }
    assert (Hk : S (length pre) = length (pre ++ [p])) by (rewrite length_app; cbn; lia).
    unfold AddPeer_turn at 1. rewrite bind_assoc_run.
    rewrite (bind_run _ _ _ _ _ (peerAt_run _ _ _ Hp)).
    cbn [existsb].
    replace (pre ++ p :: post) with ((pre ++ [p]) ++ post) by now rewrite <- app_assoc.
    destruct (String.eqb (ID p) id) eqn:E.
    + rewrite bind_assoc_run.
      rewrite (bind_run _ _ _ _ _ (updPeer_run _ _ _ _ Hp)).
      unfold bind at 1, ret at 1. rewrite Hk, IH.
      * rewrite put_peers_put_peers. now rewrite orb_true_r.
      * cbn [put_peers cloud with_NetworkPeers NetworkPeers]. rewrite Hs.
        rewrite map_app, <- app_assoc. cbn [map app].
        replace (length pre) with (length (map (introduced_if addr id ip mac) pre) + 0) by (rewrite length_map; lia).
        rewrite alter_app_r. cbn. unfold introduced_if at 3. now rewrite E.
    + unfold bind at 1, ret at 1. rewrite Hk, IH; [reflexivity|].
      rewrite Hs, map_app, <- app_assoc. cbn [map app]. unfold introduced_if at 3. now rewrite E.
Qed.

End AddPeer_loop.

(** [AddPeer] never panics; it leaves the clock and the trace alone and makes
    [upsert] of the registry. *)
Lemma AddPeer_run (addr : option net.UDPAddr) (id : string) (ip : net.IP)
    (mac : net.HardwareAddr) (s : State) :
  AddPeer addr id ip mac s
  = Done (tt, put_peers (upsert addr id ip mac (NetworkPeers (cloud s))) s).
Proof.
  unfold AddPeer. unfold bind at 1, getPeers at 1.
  pose proof (AddPeer_loop_run addr id ip mac (NetworkPeers (cloud s)) [] false s
                eq_refl) as Hloop.
  cbn [length app map orb] in Hloop.
  erewrite bind_run by exact Hloop.
  unfold upsert.
  destruct (existsb (fun p => String.eqb (ID p) id) (NetworkPeers (cloud s))) eqn:E;
    cbn [negb].
  - reflexivity.
  - assert (Hid : map (introduced_if addr id ip mac) (NetworkPeers (cloud s))
                  = NetworkPeers (cloud s)).
    { rewrite <- (map_id (NetworkPeers (cloud s))) at 2.
      apply map_ext_in. intros p Hp. unfold introduced_if.
      destruct (String.eqb (ID p) id) eqn:Ep; [|reflexivity].
      exfalso. rewrite <- not_true_iff_false in E. apply E.
      apply existsb_exists. exists p. now split. }
    unfold bind, getPeers, setPeers, put_peers.
    cbn [cloud clock trace NetworkPeers with_NetworkPeers].
    now rewrite Hid.
Qed.

(** ** HandleP2PMessage *)

Lemma IsPeerUnknown_scan_no_match (peers : list NetworkPeer)
    (addr : option net.UDPAddr) :
  Forall (fun p => CleanAddr p <> net.UDPAddr_String addr) peers ->
  IsPeerUnknown_scan peers addr = true.
Proof.
  induction 1 as [|p peers Hp _ IH]; cbn [IsPeerUnknown_scan]; [reflexivity|].
  destruct (String.eqb_spec (CleanAddr p) (net.UDPAddr_String addr)); [contradiction|].
  exact IH.
Qed.

Lemma upsert_new (addr : option net.UDPAddr) (id : string) (ip : net.IP)
    (mac : net.HardwareAddr) (peers : list NetworkPeer) :
  Forall (fun p => ID p <> id) peers ->
  upsert addr id ip mac peers
  = peers ++ [mkNetworkPeer id false true (net.UDPAddr_String addr) 0 None addr ip mac "" []].
Proof.
  intros H. unfold upsert.
  destruct (existsb (fun p => String.eqb (ID p) id) peers) eqn:E; [|reflexivity].
  apply existsb_exists in E as (p & Hin & Hp).
  rewrite Forall_forall in H. apply list_elem_of_In in Hin.
  apply String.eqb_eq in Hp. now destruct (H p Hin).
Qed.

Lemma upsert_existing (addr : option net.UDPAddr) (id : string) (ip : net.IP)
    (mac : net.HardwareAddr) (peers : list NetworkPeer) :
  Exists (fun p => ID p = id) peers ->
  upsert addr id ip mac peers = map (introduced_if addr id ip mac) peers.
Proof.
  intros H. unfold upsert.
  destruct (existsb (fun p => String.eqb (ID p) id) peers) eqn:E; [reflexivity|].
  rewrite <- not_true_iff_false in E. destruct E.
  apply Exists_exists in H as (p & Hin & Hp).
  apply existsb_exists. exists p. split; [now apply list_elem_of_In|].
  now apply String.eqb_eq.
Qed.

(** An INTRO message from an address that [IsPeerUnknown] does not know (or
    knows as unknown): whatever [ParseIntroString] returns goes to [AddPeer],
    and our introduction is sent back. *)
Lemma HandleP2PMessage_intro_run (codec : Codec) (host : Host) (s : State)
    (count : Z) (src : option net.UDPAddr) (rcv_bytes : list byte)
    (msg : P2PMessage) :
  (0 <= count)%Z ->
  P2PMessageFromBytes codec (copy_buf (Z.to_nat count) rcv_bytes) = Some msg ->
  Header_Type msg = MT_INTRO codec ->
  IsPeerUnknown_scan (NetworkPeers (cloud s)) src = true ->
  HandleP2PMessage codec host count src false rcv_bytes s
  = Done (tt,
          mkState
            (with_NetworkPeers
               (upsert src (fst (fst (ParseIntroString (string_of_bytes (Data msg)))))
                  (snd (ParseIntroString (string_of_bytes (Data msg))))
                  (snd (fst (ParseIntroString (string_of_bytes (Data msg)))))
                  (NetworkPeers (cloud s)))
               (cloud s))
            (S (clock s))
            (trace s ++
             [EvSendMessage
                (PrepareIntroductionMessage codec (cloud s)
                   (dht.SelfID (dht (cloud s))))
                src])).
Proof.
  intros Hc Hmsg Hty Hunk. unfold HandleP2PMessage.
  destruct (Z.ltb_spec count 0) as [?|_]; [lia|].
  rewrite Hmsg. cbv zeta. rewrite Hty, N.eqb_refl.
  unfold IsPeerUnknown. rewrite bind_assoc_run.
  unfold bind at 1, getPeers at 1. unfold bind at 1, ret at 1.
  rewrite Hunk. cbn [negb].
  destruct (ParseIntroString (string_of_bytes (Data msg))) as [[id mac] ip].
  cbn [fst snd].
  erewrite bind_run by apply AddPeer_run.
  reflexivity.
Qed.

(** An introduction that does not parse is not told apart: the empty id and
    the nil MAC and IP go to [AddPeer], and the reply is sent. *)
Lemma HandleP2PMessage_parse_failure (codec : Codec) (host : Host) (s : State)
    (count : Z) (src : option net.UDPAddr) (rcv_bytes : list byte)
    (msg : P2PMessage) :
  (0 <= count)%Z ->
  P2PMessageFromBytes codec (copy_buf (Z.to_nat count) rcv_bytes) = Some msg ->
  Header_Type msg = MT_INTRO codec ->
  IsPeerUnknown_scan (NetworkPeers (cloud s)) src = true ->
  ParseIntroString (string_of_bytes (Data msg)) = ("", [], []) ->
  HandleP2PMessage codec host count src false rcv_bytes s
  = Done (tt,
          mkState
            (with_NetworkPeers (upsert src "" [] [] (NetworkPeers (cloud s))) (cloud s))
            (S (clock s))
            (trace s ++
             [EvSendMessage
                (PrepareIntroductionMessage codec (cloud s) (dht.SelfID (dht (cloud s))))
                src])).
Proof.
  intros Hc Hmsg Hty Hunk Hfail.
  rewrite (HandleP2PMessage_intro_run codec host s count src rcv_bytes msg)
    by assumption.
  now rewrite Hfail.
Qed.

(** C10, as stated, fails: the agent has the record that [SyncPeers] created
    for the id b; b's introduction arrives from 1.2.3.4:5, which is no
    record's clean address; the registry still has one record afterwards. *)
Lemma C10_counterexample :
  ~ Stated.intro_from_unknown_appends Sample.codec (Sample.host true)
      (Sample.state [Sample.fresh "b"] [dht.mkPeerIP "b" []]) 34
      (Some Sample.src_addr) (Sample.frame x01 "b,06:aa:bb:cc:dd:ee,10.0.0.2").
Proof.
  intros H.
  destruct (H (mkP2PMessage 1 (list_byte_of_string "b,06:aa:bb:cc:dd:ee,10.0.0.2")))
    as (s' & newPeer & Hrun & Hpeers & _).
  - vm_compute. reflexivity.
  - reflexivity.
  - constructor; [cbn; discriminate | constructor].
  - vm_compute in Hrun. injection Hrun as <-.
    apply (f_equal length) in Hpeers. discriminate Hpeers.
Qed.

(** C10, amended. For every inbound INTRO message whose source address string
    matches no record's clean address, [HandleP2PMessage] treats the sender as
    unknown, hands what [ParseIntroString] returns to [AddPeer] and sends an
    INTRO reply to the source.  When no record carries the id of the payload,
    a brand-new record with Unknown=false and Handshaked=true is appended (the
    id need not come from a rendezvous view); when some record carries it, no
    record is appended: every record with that id is overwritten in place. *)
Theorem C10_intro_from_unknown_upserts (codec : Codec) (host : Host) (s : State)
    (count : Z) (src : option net.UDPAddr) (rcv_bytes : list byte)
    (msg : P2PMessage) :
  (0 <= count)%Z ->
  P2PMessageFromBytes codec (copy_buf (Z.to_nat count) rcv_bytes) = Some msg ->
  Header_Type msg = MT_INTRO codec ->
  Forall (fun p => CleanAddr p <> net.UDPAddr_String src) (NetworkPeers (cloud s)) ->
  exists id mac ip s',
    ParseIntroString (string_of_bytes (Data msg)) = (id, mac, ip)
    /\ HandleP2PMessage codec host count src false rcv_bytes s = Done (tt, s')
    /\ trace s' = trace s ++
         [EvSendMessage
            (PrepareIntroductionMessage codec (cloud s) (dht.SelfID (dht (cloud s))))
            src]
    /\ (Forall (fun p => ID p <> id) (NetworkPeers (cloud s)) ->
        NetworkPeers (cloud s')
        = NetworkPeers (cloud s) ++
          [mkNetworkPeer id false true (net.UDPAddr_String src) 0 None src ip mac "" []])
    /\ (Exists (fun p => ID p = id) (NetworkPeers (cloud s)) ->
        NetworkPeers (cloud s')
        = map (fun p => if String.eqb (ID p) id then introduced src id ip mac p else p)
            (NetworkPeers (cloud s))).
Proof.
  intros Hc Hmsg Hty Hsrc.
  pose proof (HandleP2PMessage_intro_run codec host s count src rcv_bytes msg
                Hc Hmsg Hty (IsPeerUnknown_scan_no_match _ _ Hsrc)) as Hrun.
  destruct (ParseIntroString (string_of_bytes (Data msg))) as [[id mac] ip].
  cbn [fst snd] in Hrun.
  eexists id, mac, ip, _. split; [reflexivity|]. split; [exact Hrun|].
  cbn [trace cloud NetworkPeers with_NetworkPeers].
  split; [reflexivity|]. split; intros H.
  - now apply upsert_new.
  - now apply upsert_existing.
Qed.

Lemma C10_intro_from_unknown_upserts_witness :
  exists id mac ip s',
    ParseIntroString "b,06:aa:bb:cc:dd:ee,10.0.0.2" = (id, mac, ip)
    /\ HandleP2PMessage Sample.codec (Sample.host true) 34 (Some Sample.src_addr) false
         (Sample.frame x01 "b,06:aa:bb:cc:dd:ee,10.0.0.2") (Sample.state [] [])
       = Done (tt, s')
    /\ trace s' = [EvSendMessage Sample.intro_msg (Some Sample.src_addr)]
    /\ (Forall (fun p => ID p <> id) [] ->
        NetworkPeers (cloud s')
        = [mkNetworkPeer id false true "1.2.3.4:5" 0 None (Some Sample.src_addr) ip mac "" []])
    /\ (Exists (fun p => ID p = id) [] ->
        NetworkPeers (cloud s') = []).
Proof.
  apply (C10_intro_from_unknown_upserts Sample.codec (Sample.host true)
           (Sample.state [] []) 34 (Some Sample.src_addr)
           (Sample.frame x01 "b,06:aa:bb:cc:dd:ee,10.0.0.2")
           (mkP2PMessage 1 (list_byte_of_string "b,06:aa:bb:cc:dd:ee,10.0.0.2"))).
  - lia.
  - vm_compute. reflexivity.
  - reflexivity.
  - constructor.
Defined.

Example HandleP2PMessage_first_intro :
  HandleP2PMessage Sample.codec (Sample.host true) 34 (Some Sample.src_addr) false
    (Sample.frame x01 "b,06:aa:bb:cc:dd:ee,10.0.0.2") (Sample.state [] [])
  = Done (tt, mkState (Sample.ptp [Sample.peer_b] []) 1
                [EvSendMessage Sample.intro_msg (Some Sample.src_addr)]).
Proof. vm_compute. reflexivity. Qed.

(** C2 does not hold of the code.  The agent has no record; an INTRO whose
    payload has no valid MAC arrives from 1.2.3.4:5.  [ParseIntroString]
    returns the empty id, the nil MAC and the nil IP, and [HandleP2PMessage]
    passes them on: [AddPeer] appends a record with the empty id,
    Handshaked=true and no MAC or IP, and the INTRO reply is sent. *)
Theorem C2_parse_failure_still_upserts :
  ParseIntroString "id-x,not-a-mac,10.0.0.2" = ("", [], [])
  /\ HandleP2PMessage Sample.codec (Sample.host true) 29 (Some Sample.src_addr) false
       (Sample.frame x01 "id-x,not-a-mac,10.0.0.2") (Sample.state [] [])
     = Done (tt,
             mkState
               (Sample.ptp
                  [mkNetworkPeer "" false true "1.2.3.4:5" 0 None
                     (Some Sample.src_addr) [] [] "" []] [])
               1 [EvSendMessage Sample.intro_msg (Some Sample.src_addr)]).
Proof. split; vm_compute; reflexivity. Qed.

(** ** SendTo *)

Lemma SendTo_scan_no_match (host : Host) (peers : list NetworkPeer)
    (dst : net.HardwareAddr) (msg : P2PMessage) (s : State) :
  Forall (fun p => PeerHW p <> dst) peers ->
  SendTo_scan host peers dst msg s = Done ((0%Z, None), s).
Proof.
  induction 1 as [|p peers Hp _ IH]; cbn [SendTo_scan]; [reflexivity|].
  destruct (String.eqb_spec (net.HardwareAddr_String (PeerHW p))
              (net.HardwareAddr_String dst)) as [E|_].
  - destruct Hp. now apply HardwareAddr_String_inj.
  - exact IH.
Qed.

(** C7. In a registry in which no record's peer virtual MAC equals the
    destination MAC, [SendTo] returns zero bytes and a nil error, and the
    state is the one it started in: nothing was handed to the socket (the
    trace of events has not grown) and the registry is unchanged. *)
Theorem C7_SendTo_unknown_mac (host : Host) (s : State)
    (dst : net.HardwareAddr) (msg : P2PMessage) :
  Forall (fun p => PeerHW p <> dst) (NetworkPeers (cloud s)) ->
  SendTo host dst msg s = Done ((0%Z, None), s).
Proof.
  intros H. unfold SendTo, bind, getPeers. now apply SendTo_scan_no_match.
Qed.

Lemma C7_SendTo_unknown_mac_witness :
  SendTo (Sample.host true) [x06; x00; x00; x00; x00; x01] Sample.intro_msg
    (Sample.state [Sample.peer_b] [])
  = Done ((0%Z, None), Sample.state [Sample.peer_b] []).
Proof.
  apply C7_SendTo_unknown_mac.
  constructor; [cbn; discriminate | constructor].
Defined.

Lemma SendTo_scan_first_match (host : Host) (pre post : list NetworkPeer)
    (p : NetworkPeer) (dst : net.HardwareAddr) (msg : P2PMessage) (s : State) :
  Forall (fun q => PeerHW q <> dst) pre ->
  PeerHW p = dst ->
  SendTo_scan host (pre ++ p :: post) dst msg s
  = UDPSocket_SendMessage host msg (PeerAddr p) s.
Proof.
  intros Hpre Hp. induction Hpre as [|q pre Hq _ IH]; cbn [SendTo_scan app].
  - rewrite Hp, String.eqb_refl. reflexivity.
  - destruct (String.eqb_spec (net.HardwareAddr_String (PeerHW q))
                (net.HardwareAddr_String dst)) as [E|_].
    + destruct Hq. now apply HardwareAddr_String_inj.
    + exact IH.
Qed.

(** C6, as stated, fails: the record that [AddPeer] creates for peer b has
    b's MAC and an empty [Endpoint], and a frame for that MAC is handed to the
    socket, addressed to the record's [PeerAddr]. *)
Lemma C6_counterexample :
  ~ Stated.drops_without_endpoint (Sample.host true)
      (Sample.state [Sample.peer_b] []) (PeerHW Sample.peer_b) Sample.intro_msg.
Proof.
  intros H. destruct H as (r & s' & Hrun & Htrace).
  - exists Sample.peer_b. repeat split. now left.
  - vm_compute in Hrun. injection Hrun as _ <-. discriminate Htrace.
Qed.

(** C6, amended. [SendTo] does not consult [Endpoint]: when the first record
    whose peer virtual MAC equals the destination MAC has an empty [Endpoint],
    the frame is still handed to the socket, once, addressed to that record's
    [PeerAddr], and [SendTo] returns what the socket returns. *)
Theorem C6_SendTo_ignores_Endpoint (host : Host) (s : State)
    (dst : net.HardwareAddr) (msg : P2PMessage)
    (pre post : list NetworkPeer) (p : NetworkPeer) :
  NetworkPeers (cloud s) = pre ++ p :: post ->
  Forall (fun q => PeerHW q <> dst) pre ->
  PeerHW p = dst ->
  Endpoint p = "" ->
  SendTo host dst msg s
  = Done (SendMessage host (clock s) msg (PeerAddr p),
          mkState (cloud s) (S (clock s))
            (trace s ++ [EvSendMessage msg (PeerAddr p)])).
Proof.
  intros Hl Hpre Hp _. unfold SendTo, bind, getPeers. rewrite Hl.
  rewrite SendTo_scan_first_match by assumption. reflexivity.
Qed.

Lemma C6_SendTo_ignores_Endpoint_witness :
  SendTo (Sample.host true) (PeerHW Sample.peer_b) Sample.intro_msg
    (Sample.state [Sample.fresh "a"; Sample.peer_b] [])
  = Done ((35%Z, None),
          mkState (Sample.ptp [Sample.fresh "a"; Sample.peer_b] []) 1
            [EvSendMessage Sample.intro_msg (Some Sample.src_addr)]).
Proof.
  apply (C6_SendTo_ignores_Endpoint (Sample.host true)
           (Sample.state [Sample.fresh "a"; Sample.peer_b] [])
           (PeerHW Sample.peer_b) Sample.intro_msg
           [Sample.fresh "a"] [] Sample.peer_b).
  - reflexivity.
  - constructor; [cbn; discriminate | constructor].
  - reflexivity.
  - reflexivity.
Defined.

(** ** PurgePeers *)

Lemma in_view_fold (view : list dht.PeerIP) (id : string) (f : bool) :
  fold_left (fun f newPeer => if String.eqb (dht.ID newPeer) id then true else f) view f
  = f || existsb (fun newPeer => String.eqb (dht.ID newPeer) id) view.
Proof.
  revert f. induction view as [|x view IH]; intros f; cbn [fold_left existsb].
  - now rewrite orb_false_r.
  - rewrite IH. destruct (String.eqb (dht.ID x) id), f; reflexivity.
Qed.

(** [in_view] says whether the id is among the ids of the view. *)
Lemma in_view_In (view : list dht.PeerIP) (id : string) :
  in_view view id = true <-> In id (map dht.ID view).
Proof.
  unfold in_view. rewrite in_view_fold. cbn [orb].
  rewrite existsb_exists, in_map_iff. split.
  - intros (x & Hx & E). apply String.eqb_eq in E. eauto.
  - intros (x & E & Hx). exists x. split; [assumption|].
    now apply String.eqb_eq.
Qed.

Lemma purge_indices_fold (view : list dht.PeerIP) (peers : list NetworkPeer)
    (k : nat) (acc : list nat) :
  fold_left (fun rem '(i, peer) =>
               if negb (in_view view (ID peer)) then rem ++ [i] else rem)
    (imap (fun i peer => (k + i, peer)) peers) acc
  = acc ++ absent_from view k peers.
Proof.
  revert k acc. induction peers as [|p peers IH]; intros k acc.
  - cbn. now rewrite app_nil_r.
  - cbn [imap fold_left absent_from].
    rewrite (imap_ext _ (fun i peer => (S k + i, peer)))
      by (intros i x _; cbn; f_equal; lia).
    rewrite IH, Nat.add_0_r.
    destruct (negb (in_view view (ID p))); cbn [app]; [now rewrite <- app_assoc|reflexivity].
Qed.

Lemma purge_indices_absent (view : list dht.PeerIP) (peers : list NetworkPeer) :
  purge_indices view peers = absent_from view 0 peers.
Proof. unfold purge_indices. apply (purge_indices_fold view peers 0 []). Qed.

Lemma absent_from_length (view : list dht.PeerIP) (peers : list NetworkPeer)
    (k : nat) :
  length (absent_from view k peers)
  = length (List.filter (fun p => negb (in_view view (ID p))) peers).
Proof.
  revert k. induction peers as [|p peers IH]; intros k; [reflexivity|].
  cbn [absent_from List.filter].
  destruct (negb (in_view view (ID p))); cbn [app length]; now rewrite IH.
Qed.

(** With at most one record to remove, the list of indices is empty, or holds
    the position of that record. *)
Lemma absent_from_at_most_one (view : list dht.PeerIP) (peers : list NetworkPeer)
    (k : nat) :
  length (List.filter (fun p => negb (in_view view (ID p))) peers) <= 1 ->
  (absent_from view k peers = []
   /\ List.filter (fun p => in_view view (ID p)) peers = peers)
  \/ (exists pre p post,
        peers = pre ++ p :: post
        /\ absent_from view k peers = [k + length pre]
        /\ List.filter (fun p => in_view view (ID p)) peers = pre ++ post).
Proof.
  revert k. induction peers as [|p peers IH]; intros k H.
  - left. now split.
  - cbn [List.filter absent_from] in *.
    destruct (in_view view (ID p)) eqn:E; cbn [negb app length] in *.
    + destruct (IH (S k) H) as [[Ha Hf] | (pre & q & post & Hl & Ha & Hf)].
      * left. split; [assumption | now rewrite Hf].
      * right. exists (p :: pre), q, post. cbn [app length].
        split; [now rewrite Hl|]. split; [rewrite Ha; f_equal; lia | now rewrite Hf].
    + destruct (IH (S k)) as [[Ha Hf] | (pre & q & post & Hl & Ha & Hf)]; [lia| |].
      * right. exists [], p, peers. cbn [app length].
        split; [reflexivity|]. split; [rewrite Ha; f_equal; lia | assumption].
      * exfalso. pose proof (absent_from_length view peers (S k)) as Hlen.
        rewrite Ha in Hlen. cbn [length] in Hlen. lia.
Qed.

Lemma remove_at_run (pre post : list NetworkPeer) (p : NetworkPeer) (s : State) :
  NetworkPeers (cloud s) = pre ++ p :: post ->
  remove_at (length pre) s = Done (tt, put_peers (pre ++ post) s).
Proof.
  intros Hl. unfold remove_at, bind, getPeers. rewrite Hl.
  destruct (Nat.ltb_spec (length (pre ++ p :: post)) (length pre + 1)) as [H|_].
  - rewrite length_app in H. cbn in H. lia.
  - unfold setPeers, put_peers. do 3 f_equal. f_equal.
    rewrite take_app_length.
    replace (length pre + 1) with (length (pre ++ [p])) by (rewrite length_app; reflexivity).
    replace (pre ++ p :: post) with ((pre ++ [p]) ++ post) by now rewrite <- app_assoc.
    now rewrite drop_app_length.
Qed.

Example PurgePeers_two_departures :
  PurgePeers [] (Sample.state [Sample.fresh "a"; Sample.fresh "b"; Sample.fresh "c"]
                   [dht.mkPeerIP "c" []])
  = Done (tt, Sample.state [Sample.fresh "b"] [dht.mkPeerIP "c" []]).
Proof. vm_compute. reflexivity. Qed.

Example PurgePeers_all_departed :
  PurgePeers [] (Sample.state [Sample.fresh "a"; Sample.fresh "b"] [])
  = Panic SliceBoundsOutOfRange.
Proof. vm_compute. reflexivity. Qed.




(** ** Properties that the methods keep *)

Lemma wp_ret {A} (a : A) (Q : A -> State -> Prop) (s : State) :
  wp (ret a) Q s <-> Q a s.
Proof. reflexivity. Qed.

Lemma wp_bind {A B} (m : M A) (k : A -> M B) (Q : B -> State -> Prop) (s : State) :
  wp (bind m k) Q s <-> wp m (fun a s' => wp (k a) Q s') s.
Proof. unfold wp, bind. destruct (m s) as [[a s']|e]; reflexivity. Qed.

Lemma wp_mono {A} (m : M A) (Q Q' : A -> State -> Prop) (s : State) :
  wp m Q s -> (forall a s', Q a s' -> Q' a s') -> wp m Q' s.
Proof. unfold wp. destruct (m s) as [[a s']|e]; auto. Qed.

Lemma wp_done {A} (m : M A) (Q : A -> State -> Prop) (s s' : State) (a : A) :
  wp m Q s -> m s = Done (a, s') -> Q a s'.
Proof. unfold wp. intros H E. now rewrite E in H. Qed.

Lemma keeps_ret {A} (I : State -> Prop) (a : A) : keeps I (ret a).
Proof. intros s H. exact H. Qed.

Lemma keeps_panic {A} (I : State -> Prop) (e : RuntimeError) : keeps I (@panic A e).
Proof. intros s H. exact Logic.I. Qed.

Lemma keeps_bind {A B} (I : State -> Prop) (m : M A) (k : A -> M B) :
  keeps I m -> (forall a, keeps I (k a)) -> keeps I (bind m k).
Proof.
  intros Hm Hk s H. apply wp_bind. eapply wp_mono; [apply Hm, H|].
  intros a s' H'. now apply Hk.
Qed.

Lemma keeps_foldM {A B} (I : State -> Prop) (l : list A) (b : B)
    (body : B -> A -> M B) :
  (forall b x, keeps I (body b x)) -> keeps I (foldM l b body).
Proof.
  intros Hbody. revert b. induction l as [|x l IH]; intros b.
  - apply keeps_ret.
  - rewrite foldM_cons. apply keeps_bind; [apply Hbody | apply IH].
Qed.

Lemma keeps_forM_ {A} (I : State -> Prop) (l : list A) (body : A -> M unit) :
  (forall x, keeps I (body x)) -> keeps I (forM_ l body).
Proof. intros H. apply keeps_foldM. intros _ x. apply H. Qed.

Section Registry_property.

(** A property [PC] of the registry alone. *)
Variable PC : list NetworkPeer -> Prop.

Lemma keeps_get_ptp : keeps (on_registry PC) get_ptp.
Proof. intros s H. exact H. Qed.

Lemma keeps_getPeers : keeps (on_registry PC) getPeers.
Proof. intros s H. exact H. Qed.

Lemma keeps_peerAt (i : nat) : keeps (on_registry PC) (peerAt i).
Proof.
  intros s H. unfold wp, peerAt, bind, getPeers.
  now destruct (NetworkPeers (cloud s) !! i).
Qed.

Lemma keeps_emit (e : Event) : keeps (on_registry PC) (emit e).
Proof. intros s H. exact H. Qed.

Lemma keeps_ask {A} (q : nat -> A) : keeps (on_registry PC) (ask q).
Proof. intros s H. exact H. Qed.

Lemma keeps_deref {A} (p : option A) : keeps (on_registry PC) (deref p).
Proof. destruct p; [apply keeps_ret | apply keeps_panic]. Qed.

Lemma keeps_index {A} (l : list A) (i : nat) : keeps (on_registry PC) (index l i).
Proof. unfold index. destruct (l !! i); [apply keeps_ret | apply keeps_panic]. Qed.

Lemma keeps_setPeers (l : list NetworkPeer) : PC l -> keeps (on_registry PC) (setPeers l).
Proof. intros Hl s _. exact Hl. Qed.

Lemma keeps_updPeer (i : nat) (f : NetworkPeer -> NetworkPeer) :
  (forall l, PC l -> PC (alter f i l)) -> keeps (on_registry PC) (updPeer i f).
Proof.
  intros Hf s H. unfold wp, updPeer, bind, getPeers.
  destruct (NetworkPeers (cloud s) !! i); [|exact Logic.I].
  apply Hf, H.
Qed.

Lemma keeps_UDPSocket_SendMessage (host : Host) (msg : P2PMessage)
    (dst : option net.UDPAddr) :
  keeps (on_registry PC) (UDPSocket_SendMessage host msg dst).
Proof. intros s H. exact H. Qed.

Lemma keeps_TestConnection (codec : Codec) (host : Host)
    (endpoint : option net.UDPAddr) :
  keeps (on_registry PC) (TestConnection codec host endpoint).
Proof.
  unfold TestConnection. apply keeps_bind; [apply keeps_ask|]. intros io.
  destruct (dial_err io); [apply keeps_ret|].
  apply keeps_bind; [apply keeps_emit|]. intros _.
  destruct (write_err io); apply keeps_ret.
Qed.


End Registry_property.

Section Endpoint_property.

(** A property of the registry that does not depend on the [Endpoint] of the
    records: the probes of the local networks keep it. *)
Variable PC : list NetworkPeer -> Prop.
Hypothesis PC_Endpoint : forall i e l, PC l -> PC (alter (with_Endpoint e) i l).

Variables (codec : Codec) (host : Host).

Lemma probeLAN_keeps_registry (i : nat) (interfaces : list Interface) (count : Z) :
  keeps (on_registry PC) (probeLAN codec host i interfaces count).
Proof.
  unfold probeLAN. apply keeps_bind; [apply (keeps_get_ptp PC)|]. intros ptp.
  apply keeps_foldM. intros c inf.
  destruct (String.eqb (Name inf) (DeviceName ptp)); [apply keeps_ret|].
  apply keeps_foldM. intros c' network.
  apply keeps_bind; [apply (keeps_peerAt PC)|]. intros cur.
  apply keeps_foldM. intros c'' kip.
  apply keeps_bind; [apply (keeps_deref PC)|]. intros k.
  apply keeps_bind; [apply (keeps_deref PC)|]. intros nw.
  destruct (net.Contains nw (net.IP_of k)); [|apply keeps_ret].
  apply keeps_bind; [apply (keeps_TestConnection PC)|]. intros ok.
  destruct ok; [|apply keeps_ret].
  apply keeps_bind; [|intros; apply keeps_ret].
  apply (keeps_updPeer PC). intros l Hl. now apply PC_Endpoint.
Qed.

End Endpoint_property.

Section Record_property.

(** A property of records that does not depend on what [SyncPeers] writes,
    [KnownIPs] and [Endpoint], and that holds of the record it creates. *)
Variable Inv : NetworkPeer -> Prop.
Hypothesis Inv_Endpoint : forall e p, Inv p -> Inv (with_Endpoint e p).
Hypothesis Inv_KnownIPs : forall k p, Inv p -> Inv (with_KnownIPs k p).
Hypothesis Inv_new : forall id, Inv (mkNetworkPeer id true false "" 0 None None [] [] "" []).

Variables (codec : Codec) (host : Host).







End Record_property.

(** ** SyncPeers: the merge of the addresses *)

(** The entries [""] and ["0"] are skipped. *)
Lemma mergeIps_skips (host : Host) (i : nat) (peer : NetworkPeer)
    (ip : string) (ips : list string) (s : State) :
  ip = "" \/ ip = "0" ->
  mergeIps host i peer (ip :: ips) s = mergeIps host i peer ips s.
Proof. intros [-> | ->]; reflexivity. Qed.

(** An address whose text is among the texts of the known addresses of the
    copy [peer] is not appended. *)
Lemma mergeIps_known (host : Host) (i : nat) (peer : NetworkPeer)
    (ip : string) (ips : list string) (s : State) :
  In ip (map net.UDPAddr_String (KnownIPs peer)) ->
  mergeIps host i peer (ip :: ips) s = mergeIps host i peer ips s.
Proof.
  intros Hin. unfold mergeIps, forM_. rewrite foldM_cons.
  destruct (String.eqb ip "" || String.eqb ip "0"); [reflexivity|].
  assert (Hf : forall l f,
             In ip (map net.UDPAddr_String l) ->
             fold_left (fun f kip => if String.eqb (net.UDPAddr_String kip) ip
                                     then true else f) l f = true).
  { induction l as [|k l IH]; intros f; cbn [map In fold_left]; [tauto|].
    intros [E | Hl].
    - rewrite E, String.eqb_refl. clear. induction l as [|k' l IH]; cbn; [reflexivity|].
      now destruct (String.eqb _ _).
    - now apply IH. }
  rewrite Hf by assumption. reflexivity.
Qed.

(** An address whose text is not among the texts of the known addresses of
    the copy [peer] is resolved and appended to the list of record [i]. *)
Lemma mergeIps_new (host : Host) (i : nat) (peer p0 : NetworkPeer)
    (ip : string) (ips : list string) (s : State) :
  ip <> "" -> ip <> "0" ->
  ~ In ip (map net.UDPAddr_String (KnownIPs peer)) ->
  NetworkPeers (cloud s) !! i = Some p0 ->
  mergeIps host i peer (ip :: ips) s
  = mergeIps host i peer ips
      (mkState
         (with_NetworkPeers
            (<[i := with_KnownIPs (KnownIPs p0 ++ [ResolveUDPAddr host (clock s) ip]) p0]>
               (NetworkPeers (cloud s)))
            (cloud s))
         (S (clock s)) (trace s)).
Proof.
  intros H1 H2 Hnew Hi. unfold mergeIps, forM_. rewrite foldM_cons.
  apply String.eqb_neq in H1, H2. rewrite H1, H2. cbn [orb].
  assert (Hf : fold_left (fun f kip => if String.eqb (net.UDPAddr_String kip) ip
                                       then true else f) (KnownIPs peer) false = false).
  { induction (KnownIPs peer) as [|k l IH]; cbn [fold_left]; [reflexivity|].
    cbn [map In] in Hnew. destruct (String.eqb_spec (net.UDPAddr_String k) ip).
    - tauto.
    - apply IH. tauto. }
  rewrite Hf. cbn [negb]. rewrite bind_assoc_run.
  unfold bind at 1, ask at 1.
  erewrite bind_run by (apply (updPeer_run _ _ _ p0); exact Hi).
  unfold put_peers. cbn [cloud clock trace].
  do 3 f_equal. f_equal.
  apply list_eq. intros j. destruct (decide (i = j)) as [<-|Hne].
  - rewrite list_lookup_alter_eq, Hi.
    rewrite list_lookup_insert_eq by (eapply lookup_lt_Some; exact Hi). reflexivity.
  - now rewrite list_lookup_alter_ne, list_lookup_insert_ne.
Qed.

(** An address that the DHT reports twice in one entry is appended twice when
    the copy [peer] does not know it: the test for known addresses reads the
    copy, which the first append does not reach. *)
Lemma mergeIps_twice (host : Host) (i : nat) (peer p0 : NetworkPeer)
    (ip : string) (s : State) :
  ip <> "" -> ip <> "0" ->
  ~ In ip (map net.UDPAddr_String (KnownIPs peer)) ->
  NetworkPeers (cloud s) !! i = Some p0 ->
  mergeIps host i peer [ip; ip] s
  = Done (tt,
          mkState
            (with_NetworkPeers
               (<[i := with_KnownIPs
                         (KnownIPs p0 ++ [ResolveUDPAddr host (clock s) ip;
                                          ResolveUDPAddr host (S (clock s)) ip])
                         p0]> (NetworkPeers (cloud s)))
               (cloud s))
            (S (S (clock s))) (trace s)).
Proof.
  intros H1 H2 Hnew Hi.
  rewrite (mergeIps_new host i peer p0) by assumption.
  erewrite (mergeIps_new host i peer) by
    (try assumption; cbn [cloud NetworkPeers with_NetworkPeers];
     apply list_lookup_insert_eq; eapply lookup_lt_Some; exact Hi).
  cbn [cloud clock trace NetworkPeers with_NetworkPeers KnownIPs with_KnownIPs].
  rewrite list_insert_insert_eq, <- app_assoc. reflexivity.
Qed.

(** C9 does not hold of the code.  The record a knows no address and the DHT
    entry for a lists 8.8.8.8:4000 twice (with an empty entry and a "0" in
    between, which are skipped): [SyncPeers] appends the address twice, so
    that the list holds two addresses with the same text. *)
Theorem C9_duplicate_address_appended :
  net.UDPAddr_String (Some Sample.public_addr) = "8.8.8.8:4000"
  /\ mergeIps (Sample.host true) 0 (Sample.fresh "a")
       ["8.8.8.8:4000"; ""; "0"; "8.8.8.8:4000"] (Sample.state [Sample.fresh "a"] [])
     = Done (tt,
             mkState
               (Sample.ptp
                  [with_KnownIPs [Some Sample.public_addr; Some Sample.public_addr]
                     (Sample.fresh "a")] [])
               2 [])
  /\ exists n s',
       SyncPeers Sample.codec (Sample.host true) []
         (Sample.state [Sample.fresh "a"]
            [dht.mkPeerIP "a" ["8.8.8.8:4000"; ""; "0"; "8.8.8.8:4000"]])
       = Done (n, s')
       /\ map KnownIPs (NetworkPeers (cloud s'))
          = [[Some Sample.public_addr; Some Sample.public_addr]].
Proof.
  split; [vm_compute; reflexivity|]. split; [vm_compute; reflexivity|].
  eexists _, _. split; vm_compute; reflexivity.
Qed.

(** ** SyncPeers: the choice of the endpoint *)

(** Whatever the host answers, when [selectEndpoint] returns for a record
    without endpoint whose list of known addresses is not empty, the endpoint
    is the text of the first known address: the last test of the block reads
    the copy [peer], whose [Endpoint] is still empty, so that an endpoint that
    a LAN probe has just set is overwritten. *)
Lemma selectEndpoint_first_known (codec : Codec) (host : Host) (i : nat)
    (peer p0 : NetworkPeer) (count : Z) (s : State)
    (k0 : option net.UDPAddr) (ks : list (option net.UDPAddr)) :
  Endpoint peer = "" ->
  NetworkPeers (cloud s) !! i = Some p0 ->
  KnownIPs p0 = k0 :: ks ->
  wp (selectEndpoint codec host i peer count)
     (fun _ s' => exists p', NetworkPeers (cloud s') !! i = Some p'
                             /\ KnownIPs p' = k0 :: ks
                             /\ Endpoint p' = net.UDPAddr_String k0) s.
Proof.
  intros Hpeer Hi Hk.
  set (PC := fun l : list NetworkPeer =>
               exists p', l !! i = Some p' /\ KnownIPs p' = k0 :: ks).
  assert (PC_Endpoint : forall j e l, PC l -> PC (alter (with_Endpoint e) j l)).
  { intros j e l (p' & Hl & Hp'). destruct (decide (j = i)) as [->|Hne].
    - exists (with_Endpoint e p'). split; [|exact Hp'].
      now rewrite list_lookup_alter_eq, Hl.
    - exists p'. split; [|exact Hp']. now rewrite list_lookup_alter_ne. }
  unfold selectEndpoint. rewrite Hpeer, String.eqb_refl.
  apply wp_bind. unfold wp at 1, ask.
  set (r := Interfaces host (clock s)).
  apply wp_bind.
  eapply wp_mono.
  { apply (probeLAN_keeps_registry PC PC_Endpoint). exists p0. now split. }
  intros c s1 (p1 & H1 & Hk1). cbv beta.
  apply wp_bind. unfold wp at 1. rewrite (peerAt_run _ _ _ H1).
  apply wp_bind.
  eapply wp_mono with (Q := fun _ s' => PC (NetworkPeers (cloud s'))).
  { destruct (_ && _); [|exists p1; now split].
    apply (keeps_bind (fun s' => PC (NetworkPeers (cloud s')))).
    - apply (keeps_index PC).
    - intros k. apply keeps_bind; [apply (keeps_TestConnection PC)|].
      intros _. apply keeps_ret.
    - exists p1. now split. }
  intros _ s2 (p2 & H2 & Hk2). cbv beta.
  apply wp_bind. unfold wp at 1. rewrite (peerAt_run _ _ _ H2).
  rewrite Hk2. cbn [length Nat.ltb Nat.leb andb]. rewrite orb_true_r.
  apply wp_bind. unfold wp at 1, index. cbn [lookup list_lookup ret].
  apply wp_bind. unfold wp at 1. rewrite (updPeer_run _ _ _ _ H2).
  unfold wp, ret. cbn [put_peers cloud NetworkPeers with_NetworkPeers].
  exists (with_Endpoint (net.UDPAddr_String k0) p2).
  rewrite list_lookup_alter_eq, H2. split; [reflexivity|]. now split.
Qed.

(** C4 does not hold of the code.  The record a has an empty endpoint and
    knows the public address 8.8.8.8:4000 and the LAN address
    192.168.1.5:4000, which lies in the network of [eth0] and whose probe is
    answered with 4 bytes.  [SyncPeers] probes the LAN address, sets it as the
    endpoint and counts it, and then overwrites the endpoint with the first
    known address, the public one, and counts again. *)
Theorem C4_LAN_candidate_overwritten :
  Endpoint Sample.known_a = ""
  /\ KnownIPs Sample.known_a = [Some Sample.public_addr; Some Sample.lan_addr]
  /\ net.Contains (net.mkIPNet [xc0; xa8; x01; x00] [xff; xff; xff; x00])
       (net.IP_of Sample.lan_addr) = true
  /\ (exists s', TestConnection Sample.codec (Sample.host true) (Some Sample.lan_addr)
                    (Sample.state [Sample.known_a] Sample.view_a) = Done (true, s'))
  /\ SyncPeers Sample.codec (Sample.host true) []
       (Sample.state [Sample.known_a] Sample.view_a)
     = Done (2%Z,
             mkState
               (Sample.ptp [with_Endpoint "8.8.8.8:4000" Sample.known_a] Sample.view_a)
               2
               [EvProbeWrite (mkP2PMessage 2 (list_byte_of_string "TEST"))
                  (Some Sample.lan_addr)]).
Proof.
  split; [reflexivity|]. split; [reflexivity|]. split; [vm_compute; reflexivity|].
  split; [eexists; vm_compute; reflexivity|]. vm_compute. reflexivity.
Qed.

Example SyncPeers_first_report :
  SyncPeers Sample.codec (Sample.host true) []
    (Sample.state [Sample.fresh "a"] Sample.view_a)
  = Done (2%Z,
          mkState
            (Sample.ptp [with_Endpoint "8.8.8.8:4000" Sample.known_a] Sample.view_a)
            4
            [EvProbeWrite (mkP2PMessage 2 (list_byte_of_string "TEST"))
               (Some Sample.lan_addr)]).
Proof. vm_compute. reflexivity. Qed.

Example SyncPeers_LAN_dead :
  SyncPeers Sample.codec (Sample.host false) []
    (Sample.state [Sample.known_a] Sample.view_a)
  = Done (1%Z,
          mkState
            (Sample.ptp [with_Endpoint "8.8.8.8:4000" Sample.known_a] Sample.view_a)
            3
            [EvProbeWrite (mkP2PMessage 2 (list_byte_of_string "TEST"))
               (Some Sample.lan_addr);
             EvProbeWrite (mkP2PMessage 2 (list_byte_of_string "TEST"))
               (Some Sample.public_addr)]).
Proof. vm_compute. reflexivity. Qed.

Example SyncPeers_unresolved_address_panics :
  SyncPeers Sample.codec (Sample.host true) []
    (Sample.state [Sample.fresh "a"] [dht.mkPeerIP "a" ["nowhere:1"]])
  = Panic NilDereference.
Proof. vm_compute. reflexivity. Qed.

(** ** The handshake invariant *)












Lemma upsert_handshaked (addr : option net.UDPAddr) (id : string) (ip : net.IP)
    (mac : net.HardwareAddr) (peers : list NetworkPeer) :
  Forall (fun p => ID p = id -> Handshaked p = true) (upsert addr id ip mac peers)
  /\ Exists (fun p => ID p = id) (upsert addr id ip mac peers).
Proof.
  unfold upsert. destruct (existsb _ peers) eqn:E.
  - split.
    + apply Forall_forall. intros q Hq. apply list_elem_of_In, in_map_iff in Hq.
      destruct Hq as (p & <- & _). unfold introduced_if.
      destruct (String.eqb_spec (ID p) id); [reflexivity | contradiction].
    + apply existsb_exists in E as (p & Hin & Hp). apply Exists_exists.
      exists (introduced addr id ip mac p). split; [|reflexivity].
      apply list_elem_of_In, in_map_iff. exists p. unfold introduced_if.
      now rewrite Hp.
  - split.
    + apply Forall_app. split; [|constructor; [reflexivity | constructor]].
      apply Forall_forall. intros p Hp Hid. exfalso.
      rewrite <- not_true_iff_false in E. apply E, existsb_exists.
      exists p. split; [now apply list_elem_of_In | now apply String.eqb_eq].
    + apply Exists_app. right. now constructor.
Qed.





(** ** GenerateMAC: what of the random bytes reaches the address *)

Lemma GenerateMAC_six (r0 r1 r2 r3 r4 r5 : byte) :
  GenerateMAC [r0; r1; r2; r3; r4; r5] false
  = (net.HardwareAddr_String [x06; r1; r2; r3; r4; r5], [x06; r1; r2; r3; r4; r5]).
Proof.
  assert (Hparse : net.ParseMAC (net.HardwareAddr_String [x06; r1; r2; r3; r4; r5])
                   = Some [x06; r1; r2; r3; r4; r5])
    by (apply ParseMAC_HardwareAddr_String; reflexivity).
  unfold GenerateMAC. cbn [list_insert insert nth].
  change ("06:" +:+ Sprintf_02x r1 +:+ ":" +:+ Sprintf_02x r2 +:+ ":" +:+
          Sprintf_02x r3 +:+ ":" +:+ Sprintf_02x r4 +:+ ":" +:+ Sprintf_02x r5)
    with (net.HardwareAddr_String [x06; r1; r2; r3; r4; r5]).
  now rewrite Hparse.
Qed.

(** X1. Of the six random bytes only the last five reach the result: two
    6-byte inputs give the same MAC text and address exactly when they agree
    on the bytes 1 to 5.  Byte 0, on which line 637 sets a bit, is never
    read again. *)
Theorem X1_GenerateMAC_first_byte_unused (rnd rnd' : list byte) :
  length rnd = 6 -> length rnd' = 6 ->
  (GenerateMAC rnd false = GenerateMAC rnd' false <-> drop 1 rnd = drop 1 rnd').
Proof.
  intros Hlen Hlen'.
  destruct rnd as [|r0 [|r1 [|r2 [|r3 [|r4 [|r5 [|]]]]]]]; try discriminate Hlen.
  destruct rnd' as [|q0 [|q1 [|q2 [|q3 [|q4 [|q5 [|]]]]]]]; try discriminate Hlen'.
  rewrite !GenerateMAC_six. cbn [drop]. split.
  - intros H. apply (f_equal snd) in H. cbn [snd] in H.
    injection H as -> -> -> -> ->. reflexivity.
  - intros [= -> -> -> -> ->]. reflexivity.
Qed.

Lemma X1_GenerateMAC_first_byte_unused_witness :
  GenerateMAC [x00; x01; x02; x03; xab; xcd] false
  = GenerateMAC [xff; x01; x02; x03; xab; xcd] false.
Proof.
  apply (proj2 (X1_GenerateMAC_first_byte_unused
                  [x00; x01; x02; x03; xab; xcd] [xff; x01; x02; x03; xab; xcd]
                  eq_refl eq_refl)).
  reflexivity.
Defined.

(** ** AddPeer: composition *)

Lemma introduced_if_idem (addr : option net.UDPAddr) (id : string) (ip : net.IP)
    (mac : net.HardwareAddr) (p : NetworkPeer) :
  introduced_if addr id ip mac (introduced_if addr id ip mac p)
  = introduced_if addr id ip mac p.
Proof.
  unfold introduced_if. destruct (String.eqb (ID p) id) eqn:E.
  - cbn [ID introduced]. now rewrite String.eqb_refl.
  - now rewrite E.
Qed.

Lemma upsert_idem (addr : option net.UDPAddr) (id : string) (ip : net.IP)
    (mac : net.HardwareAddr) (peers : list NetworkPeer) :
  upsert addr id ip mac (upsert addr id ip mac peers) = upsert addr id ip mac peers.
Proof.
  destruct (upsert_handshaked addr id ip mac peers) as [_ Hex].
  rewrite (upsert_existing addr id ip mac (upsert addr id ip mac peers) Hex).
  unfold upsert. destruct (existsb _ peers) eqn:E.
  - rewrite map_map. apply map_ext. intros p. apply introduced_if_idem.
  - rewrite map_app. cbn [map]. f_equal.
    + rewrite <- (map_id peers) at 2. apply map_ext_in. intros p Hp.
      unfold introduced_if. destruct (String.eqb (ID p) id) eqn:Ep; [|reflexivity].
      exfalso. rewrite <- not_true_iff_false in E. apply E.
      apply existsb_exists. exists p. now split.
    + unfold introduced_if. cbn [ID]. now rewrite String.eqb_refl.
Qed.

(** X2. [AddPeer] is idempotent: it always returns, and a second call with
    the same arguments changes nothing any more. *)
Theorem X2_AddPeer_idempotent (addr : option net.UDPAddr) (id : string)
    (ip : net.IP) (mac : net.HardwareAddr) (s : State) :
  exists s',
    AddPeer addr id ip mac s = Done (tt, s')
    /\ AddPeer addr id ip mac s' = Done (tt, s').
Proof.
  eexists. split; [apply AddPeer_run|].
  rewrite AddPeer_run. cbn [put_peers cloud clock trace NetworkPeers with_NetworkPeers].
  now rewrite upsert_idem.
Qed.

(** X3. [AddPeer] touches the registry only: the records of other ids stay
    where they are and as they are, no record is removed and at most one is
    added; the clock, the trace and the other fields of the agent are left
    alone. *)
Theorem X3_AddPeer_other_records (addr : option net.UDPAddr) (id : string)
    (ip : net.IP) (mac : net.HardwareAddr) (s : State) :
  exists s',
    AddPeer addr id ip mac s = Done (tt, s')
    /\ s' = put_peers (NetworkPeers (cloud s')) s
    /\ (forall i p, NetworkPeers (cloud s) !! i = Some p -> ID p <> id ->
                    NetworkPeers (cloud s') !! i = Some p)
    /\ length (NetworkPeers (cloud s)) <= length (NetworkPeers (cloud s'))
       <= S (length (NetworkPeers (cloud s))).
Proof.
  eexists. split; [apply AddPeer_run|].
  cbn [put_peers cloud clock trace NetworkPeers with_NetworkPeers].
  split; [reflexivity|]. unfold upsert.
  destruct (existsb _ (NetworkPeers (cloud s))).
  - split; [|rewrite length_map; lia].
    intros i p Hi Hp. rewrite list_lookup_fmap, Hi. cbn. f_equal.
    unfold introduced_if. apply String.eqb_neq in Hp. now rewrite Hp.
  - split; [|rewrite length_app; cbn; lia].
    intros i p Hi _. now apply lookup_app_l_Some.
Qed.

(** ** TestConnection: when the probe succeeds *)

Lemma TestConnection_read_true (rs : list (Z * bool)) :
  TestConnection_read rs = true <->
  exists zs sz rest,
    rs = zs ++ (sz, false) :: rest
    /\ (0 < sz)%Z
    /\ Forall (fun r => (fst r <= 0)%Z /\ snd r = false) zs.
Proof.
  induction rs as [|[sz err] rs IH]; cbn [TestConnection_read].
  - split; [discriminate|]. intros (zs & sz & rest & E & _). now destruct zs.
  - destruct err.
    + split; [discriminate|]. intros (zs & sz' & rest & E & Hsz & Hzs).
      destruct zs as [|z zs]; [discriminate E|].
      injection E as <- _. inversion Hzs as [|? ? [_ Hz] _]. discriminate Hz.
    + destruct (Z.ltb_spec 0 sz) as [Hpos|Hnon].
      * split; [|reflexivity]. intros _. exists [], sz, rs. now repeat split.
      * rewrite IH. split.
        -- intros (zs & sz' & rest & -> & Hsz & Hzs).
           exists ((sz, false) :: zs), sz', rest. repeat split; [assumption|].
           constructor; [now split | assumption].
        -- intros (zs & sz' & rest & E & Hsz & Hzs).
           destruct zs as [|z zs]; [injection E as <- _; lia|].
           injection E as _ ->. exists zs, sz', rest. repeat split; [assumption|].
           now inversion Hzs.
Qed.

(** X4. [TestConnection] always returns and leaves the agent as it is.  It
    answers true exactly when dialling and the write of the probe succeed and
    a datagram of at least one byte is read before any read fails (the
    deadline is such a failure), empty datagrams being passed over.  The
    probe is written exactly when dialling succeeds. *)
Theorem X4_TestConnection_answer (codec : Codec) (host : Host)
    (endpoint : option net.UDPAddr) (s : State) :
  exists b s',
    TestConnection codec host endpoint s = Done (b, s')
    /\ cloud s' = cloud s
    /\ trace s' = trace s ++
                  (if dial_err (Probe host (clock s) endpoint) then []
                   else [EvProbeWrite (CreateTestP2PMessage codec "TEST" 0) endpoint])
    /\ (b = true <->
        dial_err (Probe host (clock s) endpoint) = false
        /\ write_err (Probe host (clock s) endpoint) = false
        /\ exists zs sz rest,
             reads (Probe host (clock s) endpoint) = zs ++ (sz, false) :: rest
             /\ (0 < sz)%Z
             /\ Forall (fun r => (fst r <= 0)%Z /\ snd r = false) zs).
Proof.
  unfold TestConnection, bind, ask, emit, ret. cbn [cloud clock trace].
  destruct (dial_err _) eqn:Hd.
  - eexists _, _. split; [reflexivity|]. cbn [cloud trace].
    split; [reflexivity|]. split; [now rewrite app_nil_r|].
    split; [discriminate | intros [H _]; discriminate H].
  - destruct (write_err _) eqn:Hw.
    + eexists _, _. split; [reflexivity|]. cbn [cloud trace].
      split; [reflexivity|]. split; [reflexivity|].
      split; [discriminate | intros (_ & H & _); discriminate H].
    + eexists _, _. split; [reflexivity|]. cbn [cloud trace].
      split; [reflexivity|]. split; [reflexivity|].
      rewrite TestConnection_read_true. tauto.
Qed.

(** ** HandleP2PMessage: what a datagram can cause *)


(** ** SyncPeers: what the merge appends *)

Lemma existsb_known (ip : string) (known : list (option net.UDPAddr)) :
  existsb (fun kip => String.eqb (net.UDPAddr_String kip) ip) known = true
  <-> In ip (map net.UDPAddr_String known).
Proof.
  rewrite existsb_exists, in_map_iff. split.
  - intros (k & Hin & E). exists k. split; [now apply String.eqb_eq | exact Hin].
  - intros (k & E & Hin). exists k. split; [exact Hin | now apply String.eqb_eq].
Qed.

Lemma with_KnownIPs_same (p : NetworkPeer) : with_KnownIPs (KnownIPs p ++ []) p = p.
Proof. destruct p. unfold with_KnownIPs. cbn. now rewrite app_nil_r. Qed.

(** X6. The merge of lines 513-529, for a record [i] that exists: it appends
    to the known addresses of the record, in the order of the report, what
    [net.ResolveUDPAddr] gives (nil when it fails) for every reported address
    that is not empty, not "0" and whose text is not among the known
    addresses of the copy that [range] made; it asks the resolver for these
    and no others, and changes nothing else. *)
Theorem X6_mergeIps_appends (host : Host) (i : nat) (peer p0 : NetworkPeer)
    (ips : list string) (s : State) :
  NetworkPeers (cloud s) !! i = Some p0 ->
  mergeIps host i peer ips s
  = Done (tt,
          mkState
            (with_NetworkPeers
               (<[i := with_KnownIPs
                         (KnownIPs p0 ++
                          imap (fun k ip => ResolveUDPAddr host (clock s + k) ip)
                            (unknown_addresses (KnownIPs peer) ips))
                         p0]> (NetworkPeers (cloud s)))
               (cloud s))
            (clock s + length (unknown_addresses (KnownIPs peer) ips))
            (trace s)).
Proof.
  revert p0 s. induction ips as [|ip ips IH]; intros p0 s Hi.
  - cbn [unknown_addresses List.filter imap length].
    rewrite with_KnownIPs_same, list_insert_id by exact Hi.
    rewrite Nat.add_0_r. now destruct s as [[] ? ?].
  - unfold unknown_addresses. cbn [List.filter]. fold (unknown_addresses (KnownIPs peer) ips).
    destruct (String.eqb ip "" || String.eqb ip "0") eqn:Hskip; cbn [negb andb].
    { rewrite mergeIps_skips; [now apply IH|].
      apply orb_true_iff in Hskip as [E|E]; apply String.eqb_eq in E; tauto. }
    apply orb_false_iff in Hskip as [H1 H2]. apply String.eqb_neq in H1, H2.
    destruct (existsb _ (KnownIPs peer)) eqn:Hk; cbn [negb].
    { rewrite mergeIps_known; [now apply IH|]. now apply existsb_known. }
    rewrite (mergeIps_new host i peer p0) by
      (try assumption; rewrite <- existsb_known; congruence).
    erewrite IH by
      (cbn [cloud NetworkPeers with_NetworkPeers];
       apply list_lookup_insert_eq; eapply lookup_lt_Some; exact Hi).
    cbn [cloud clock trace NetworkPeers with_NetworkPeers KnownIPs with_KnownIPs
         imap length].
    assert (Hstate : forall (c c' : nat) (cl cl' : PTPCloud), c = c' -> cl = cl' ->
              Done (tt, mkState cl c (trace s)) = Done (tt, mkState cl' c' (trace s)))
      by (intros; subst; reflexivity).
    apply Hstate; [lia|].
    unfold with_NetworkPeers. cbn [IP Mac HardwareAddr Mask DeviceName Device LocalIPs dht].
    f_equal. rewrite list_insert_insert_eq. f_equal.
    unfold with_KnownIPs.
    cbn [ID Unknown Handshaked CleanAddr ProxyID Forwarder PeerAddr PeerLocalIP PeerHW
         Endpoint KnownIPs].
    f_equal. rewrite <- app_assoc, Nat.add_0_r. cbn [app]. do 2 f_equal.
    apply imap_ext. intros k x _. cbn. f_equal. lia.
Qed.

Lemma X6_mergeIps_appends_witness :
  mergeIps (Sample.host true) 0 (Sample.fresh "a")
    ["8.8.8.8:4000"; ""; "nowhere:1"; "0"; "8.8.8.8:4000"]
    (Sample.state [Sample.fresh "a"] [])
  = Done (tt,
          mkState
            (Sample.ptp
               [with_KnownIPs [Some Sample.public_addr; None; Some Sample.public_addr]
                  (Sample.fresh "a")] [])
            3 []).
Proof.
  apply (X6_mergeIps_appends (Sample.host true) 0 (Sample.fresh "a") (Sample.fresh "a")
           ["8.8.8.8:4000"; ""; "nowhere:1"; "0"; "8.8.8.8:4000"]
           (Sample.state [Sample.fresh "a"] [])).
  reflexivity.
Defined.

(** ** SyncPeers: where the choice of the endpoint panics *)

Lemma TestConnection_returns (codec : Codec) (host : Host)
    (endpoint : option net.UDPAddr) (s : State) :
  exists b s', TestConnection codec host endpoint s = Done (b, s') /\ cloud s' = cloud s.
Proof.
  unfold TestConnection, bind, ask, emit, ret. cbn [cloud clock trace].
  destruct (dial_err _); [eexists _, _; split; reflexivity|].
  destruct (write_err _); eexists _, _; split; reflexivity.
Qed.

Lemma bind_ret_run {A B} (a : A) (k : A -> M B) (s : State) :
  bind (ret a) k s = k a s.
Proof. reflexivity. Qed.

Lemma bind_panic {A B} (m : M A) (k : A -> M B) (s : State) (e : RuntimeError) :
  m s = Panic e -> bind m k s = Panic e.
Proof. intros H. unfold bind. now rewrite H. Qed.

(** The probes of one local network, for a record [i] that exists and a list
    of known addresses with a nil entry. *)
Lemma probe_network_nil_address (codec : Codec) (host : Host) (i : nat)
    (network : option net.IPNet) (ks : list (option net.UDPAddr)) (count : Z)
    (s : State) :
  In None ks ->
  i < length (NetworkPeers (cloud s)) ->
  foldM ks count (fun count kip =>
    k <- deref kip ;;
    nw <- deref network ;;
    if net.Contains nw (net.IP_of k) then
      ok <- TestConnection codec host kip ;;
      if ok then
        _ <- updPeer i (with_Endpoint (net.UDPAddr_String kip)) ;;
        ret (count + 1)%Z
      else ret count
    else ret count) s
  = Panic NilDereference.
Proof.
  revert count s. induction ks as [|kip ks IH]; intros count s Hin Hlt; [destruct Hin|].
  rewrite foldM_cons. destruct kip as [k|]; [|reflexivity].
  destruct Hin as [E|Hin]; [discriminate E|].
  destruct network as [nw|]; [|reflexivity].
  cbn [deref]. rewrite bind_assoc_run, bind_ret_run, bind_assoc_run, bind_ret_run.
  destruct (net.Contains nw (net.IP_of k)); [|rewrite bind_ret_run; now apply IH].
  destruct (TestConnection_returns codec host (Some k) s) as (b & s1 & Hrun & Hcloud).
  rewrite bind_assoc_run, (bind_run _ _ _ _ _ Hrun).
  destruct b; [|rewrite bind_ret_run; apply IH; [exact Hin | now rewrite Hcloud]].
  destruct (lookup_lt_is_Some_2 (NetworkPeers (cloud s1)) i) as [p Hp];
    [now rewrite Hcloud|].
  rewrite bind_assoc_run, (bind_run _ _ _ _ _ (updPeer_run _ _ _ _ Hp)), bind_ret_run.
  apply IH; [exact Hin|].
  cbn [put_peers cloud NetworkPeers with_NetworkPeers].
  rewrite length_alter. now rewrite Hcloud.
Qed.

Lemma probeLAN_nil_address (codec : Codec) (host : Host) (i : nat) (p0 : NetworkPeer)
    (interfaces : list Interface) (count : Z) (s : State) :
  Exists (fun inf => Name inf <> DeviceName (cloud s) /\ Addrs inf <> []) interfaces ->
  NetworkPeers (cloud s) !! i = Some p0 ->
  In None (KnownIPs p0) ->
  probeLAN codec host i interfaces count s = Panic NilDereference.
Proof.
  intros Hex Hi Hnil. unfold probeLAN. unfold bind at 1, get_ptp at 1.
  revert count. induction interfaces as [|inf interfaces IH]; intros count;
    [inversion Hex|].
  rewrite foldM_cons.
  destruct (String.eqb_spec (Name inf) (DeviceName (cloud s))) as [Hname|Hname].
  { rewrite bind_ret_run. apply IH.
    inversion Hex as [? ? [H _]|]; [contradiction | assumption]. }
  destruct (Addrs inf) as [|network addrs] eqn:Haddrs.
  { cbn [foldM]. rewrite bind_ret_run. apply IH.
    inversion Hex as [? ? [_ H]|]; [now rewrite Haddrs in H | assumption]. }
  apply bind_panic. rewrite foldM_cons. apply bind_panic.
  rewrite (bind_run _ _ _ _ _ (peerAt_run _ _ _ Hi)).
  apply probe_network_nil_address; [exact Hnil|].
  eapply lookup_lt_Some; exact Hi.
Qed.

(** X7. A known address that is nil (an address of the DHT that did not
    resolve, which the merge stores as nil) makes the choice of the endpoint
    panic with a nil dereference: for a record [i] without endpoint, as soon
    as the host has an interface other than the overlay's with at least one
    address. *)
Theorem X7_nil_known_address_panics (codec : Codec) (host : Host) (i : nat)
    (peer p0 : NetworkPeer) (count : Z) (s : State) (interfaces : list Interface) :
  Endpoint peer = "" ->
  Interfaces host (clock s) = Some interfaces ->
  Exists (fun inf => Name inf <> DeviceName (cloud s) /\ Addrs inf <> []) interfaces ->
  NetworkPeers (cloud s) !! i = Some p0 ->
  In None (KnownIPs p0) ->
  selectEndpoint codec host i peer count s = Panic NilDereference.
Proof.
  intros He Hifs Hex Hi Hnil.
  unfold selectEndpoint. rewrite He, String.eqb_refl.
  unfold bind at 1, ask at 1. rewrite Hifs. cbn [default].
  apply bind_panic. now apply (probeLAN_nil_address codec host i p0).
Qed.

Lemma X7_nil_known_address_panics_witness :
  selectEndpoint Sample.codec (Sample.host true) 0 (Sample.fresh "a") 0
    (Sample.state [with_KnownIPs [Some Sample.public_addr; None] (Sample.fresh "a")] [])
  = Panic NilDereference.
Proof.
  apply (X7_nil_known_address_panics Sample.codec (Sample.host true) 0 (Sample.fresh "a")
           (with_KnownIPs [Some Sample.public_addr; None] (Sample.fresh "a")) 0
           (Sample.state [with_KnownIPs [Some Sample.public_addr; None] (Sample.fresh "a")] [])
           [mkInterface "vptp1"
              [Some (net.mkIPNet [x0a; x00; x00; x00] [xff; xff; xff; x00])];
            mkInterface "eth0"
              [Some (net.mkIPNet [xc0; xa8; x01; x00] [xff; xff; xff; x00])]]).
  - reflexivity.
  - reflexivity.
  - apply Exists_cons_tl, Exists_cons_hd. split; discriminate.
  - reflexivity.
  - cbn. tauto.
Defined.

(** X8. When [net.Interfaces] fails, the choice of the endpoint for a record
    [i] without endpoint and without known address panics: line 575 reads
    [KnownIPs[0]] of an empty list. *)
Theorem X8_no_interfaces_no_address_panics (codec : Codec) (host : Host) (i : nat)
    (peer p0 : NetworkPeer) (count : Z) (s : State) :
  Endpoint peer = "" ->
  Interfaces host (clock s) = None ->
  NetworkPeers (cloud s) !! i = Some p0 ->
  KnownIPs p0 = [] ->
  selectEndpoint codec host i peer count s = Panic IndexOutOfRange.
Proof.
  intros He Hifs Hi Hk.
  unfold selectEndpoint. rewrite He, String.eqb_refl.
  unfold bind at 1, ask at 1. rewrite Hifs. cbn [default orb].
  set (s1 := mkState (cloud s) (S (clock s)) (trace s)).
  assert (Hi1 : NetworkPeers (cloud s1) !! i = Some p0) by exact Hi.
  rewrite (bind_run _ _ s1 s1 count) by reflexivity.
  rewrite (bind_run _ _ _ _ _ (peerAt_run _ _ _ Hi1)).
  rewrite Hk. cbn [length Nat.ltb Nat.leb]. rewrite andb_false_r, bind_ret_run.
  rewrite (bind_run _ _ _ _ _ (peerAt_run _ _ _ Hi1)).
  rewrite Hk. now apply bind_panic.
Qed.

Lemma X8_no_interfaces_no_address_panics_witness :
  selectEndpoint Sample.codec
    (mkHost (fun _ => None) (fun _ _ => None) (fun _ _ => mkProbeIO true true [])
       (fun _ _ _ => (0%Z, None)))
    0 (Sample.fresh "a") 0 (Sample.state [Sample.fresh "a"] [])
  = Panic IndexOutOfRange.
Proof.
  apply (X8_no_interfaces_no_address_panics Sample.codec _ 0 (Sample.fresh "a")
           (Sample.fresh "a") 0 (Sample.state [Sample.fresh "a"] []));
    reflexivity.
Defined.

(** ** IntroducePeers *)

Lemma introduce_from_registry (codec : Codec) (host : Host) (ptp : PTPCloud)
    (l : list NetworkPeer) (t : nat) (peers : list NetworkPeer) :
  introduce_from codec host (with_NetworkPeers l ptp) t peers
  = introduce_from codec host ptp t peers.
Proof.
  revert t. induction peers as [|p peers IH]; intros t; cbn [introduce_from];
    [reflexivity|].
  rewrite !IH. reflexivity.
Qed.

Lemma IntroducePeers_loop_run (codec : Codec) (host : Host)
    (post pre : list NetworkPeer) (s : State) :
  NetworkPeers (cloud s) = pre ++ post ->
  forM_ (seq (length pre) (length post)) (fun i =>
    peer <- peerAt i ;;
    if negb (Unknown peer) then ret tt
    else if String.eqb (Endpoint peer) "" then ret tt
    else
      r <- ask (fun t => ResolveUDPAddr host t (Endpoint peer)) ;;
      match r with
      | None => ret tt
      | Some addr =>
          _ <- updPeer i (with_PeerAddr (Some addr)) ;;
          ptp <- get_ptp ;;
          let msg := PrepareIntroductionMessage codec ptp (dht.SelfID (dht ptp)) in
          _ <- UDPSocket_SendMessage host msg (Some addr) ;;
          ret tt
      end) s
  = Done (tt,
          mkState
            (with_NetworkPeers
               (pre ++ fst (fst (introduce_from codec host (cloud s) (clock s) post)))
               (cloud s))
            (snd (fst (introduce_from codec host (cloud s) (clock s) post)))
            (trace s ++ snd (introduce_from codec host (cloud s) (clock s) post))).
Proof.
  revert pre s. induction post as [|p post IH]; intros pre s Hs.
  - cbn [length seq forM_ foldM introduce_from fst snd]. rewrite !app_nil_r.
    rewrite app_nil_r in Hs. rewrite <- Hs. now destruct s as [[] ? ?].
  - assert (Hp : NetworkPeers (cloud s) !! length pre = Some p).
    { rewrite Hs, lookup_app_r by lia. now rewrite Nat.sub_diag. }
    assert (Hk : S (length pre) = length (pre ++ [p])) by (rewrite length_app; cbn; lia).
    assert (Hs' : NetworkPeers (cloud s) = (pre ++ [p]) ++ post)
      by now rewrite <- app_assoc.
    cbn [length seq]. unfold forM_ in *. rewrite foldM_cons, bind_assoc_run.
    rewrite (bind_run _ _ _ _ _ (peerAt_run _ _ _ Hp)).
    cbn [introduce_from].
    destruct (Unknown p); cbn [negb andb].
    2:{ rewrite bind_ret_run, Hk, (IH _ _ Hs').
        destruct (introduce_from codec host (cloud s) (clock s) post) as [[l t'] evs].
        cbn [fst snd]. now rewrite <- app_assoc. }
    destruct (String.eqb (Endpoint p) ""); cbn [negb].
    { rewrite bind_ret_run, Hk, (IH _ _ Hs').
      destruct (introduce_from codec host (cloud s) (clock s) post) as [[l t'] evs].
      cbn [fst snd]. now rewrite <- app_assoc. }
    rewrite bind_assoc_run. unfold bind at 1, ask at 1.
    destruct (ResolveUDPAddr host (clock s) (Endpoint p)) as [addr|].
    + rewrite bind_assoc_run.
      erewrite bind_run by (apply (updPeer_run _ _ _ p); exact Hp).
      rewrite bind_assoc_run. unfold bind at 1, get_ptp at 1.
      rewrite bind_assoc_run. unfold bind at 1, UDPSocket_SendMessage at 1.
      unfold bind at 1, emit at 1, ask at 1. rewrite bind_ret_run.
      cbn [put_peers cloud clock trace].
      replace (S (length pre)) with (length (pre ++ [with_PeerAddr (Some addr) p]))
        by (rewrite length_app; cbn [length]; lia).
      rewrite (IH (pre ++ [with_PeerAddr (Some addr) p])).
      * cbn [cloud clock trace].
        rewrite introduce_from_registry.
        destruct (introduce_from codec host (cloud s) (S (S (clock s))) post)
          as [[l t'] evs].
        cbn [fst snd]. rewrite <- !app_assoc. reflexivity.
      * cbn [cloud NetworkPeers with_NetworkPeers]. rewrite Hs.
        replace (length pre) with (length pre + 0) by lia.
        rewrite alter_app_r, <- app_assoc. reflexivity.
    + rewrite bind_ret_run, Hk.
      rewrite (IH (pre ++ [p])) by exact Hs'.
      cbn [cloud clock trace].
      destruct (introduce_from codec host (cloud s) (S (clock s)) post) as [[l t'] evs].
      cbn [fst snd]. now rewrite <- app_assoc.
Qed.



(** ** SyncPeers: properties of the registry that it keeps *)

Lemma wp_foldM_in {A B} (I : list A -> B -> State -> Prop) (l : list A) (b : B)
    (body : B -> A -> M B) (s : State) :
  I [] b s ->
  (forall seen x b s, In x l -> I seen b s ->
                      wp (body b x) (fun b' s' => I (seen ++ [x]) b' s') s) ->
  wp (foldM l b body) (fun b' s' => I l b' s') s.
Proof.
  intros H0 Hbody.
  assert (Hgen : forall rest seen b s,
             l = seen ++ rest -> I seen b s ->
             wp (foldM rest b body) (fun b' s' => I l b' s') s).
  { induction rest as [|x rest IH]; intros seen b0 s0 E H.
    - rewrite app_nil_r in E. subst seen. exact H.
    - rewrite foldM_cons. apply wp_bind. eapply wp_mono.
      + apply (Hbody seen x b0 s0); [|exact H].
        rewrite E. apply in_or_app. right. now left.
      + intros b' s' H'. apply (IH (seen ++ [x])); [|exact H'].
        now rewrite <- app_assoc. }
  now apply (Hgen l []).
Qed.

Lemma map_ID_alter (f : NetworkPeer -> NetworkPeer) (i : nat) (l : list NetworkPeer) :
  (forall p, ID (f p) = ID p) -> map ID (alter f i l) = map ID l.
Proof.
  intros Hf. revert i. induction l as [|p l IH]; intros [|i]; cbn; [reflexivity..| |].
  - now rewrite Hf.
  - f_equal. apply IH.
Qed.

Section Sync_record.

(** A property [PC] of the registry that the writes of [SyncPeers] to record
    [i] keep: to [KnownIPs] always, to [Endpoint] when [endpoint_ok]. *)
Variable PC : list NetworkPeer -> Prop.
Variable i : nat.
Variable endpoint_ok : Prop.
Hypothesis PC_KnownIPs : forall x l,
  PC l -> PC (alter (fun p => with_KnownIPs (KnownIPs p ++ [x]) p) i l).
Hypothesis PC_Endpoint : forall e l,
  endpoint_ok -> PC l -> PC (alter (with_Endpoint e) i l).

Variables (codec : Codec) (host : Host).

Lemma mergeIps_keeps_registry (peer : NetworkPeer) (ips : list string) :
  keeps (on_registry PC) (mergeIps host i peer ips).
Proof.
  unfold mergeIps. apply keeps_forM_. intros ip.
  destruct (String.eqb ip "" || String.eqb ip "0"); [apply keeps_ret|].
  destruct (negb _); [|apply keeps_ret].
  apply keeps_bind; [apply (keeps_ask PC)|]. intros newIp.
  apply (keeps_updPeer PC). intros l Hl. now apply PC_KnownIPs.
Qed.

Lemma probeLAN_keeps_at (interfaces : list Interface) (count : Z) :
  endpoint_ok -> keeps (on_registry PC) (probeLAN codec host i interfaces count).
Proof.
  intros Hok.
  unfold probeLAN. apply keeps_bind; [apply (keeps_get_ptp PC)|]. intros ptp.
  apply keeps_foldM. intros c inf.
  destruct (String.eqb (Name inf) (DeviceName ptp)); [apply keeps_ret|].
  apply keeps_foldM. intros c' network.
  apply keeps_bind; [apply (keeps_peerAt PC)|]. intros cur.
  apply keeps_foldM. intros c'' kip.
  apply keeps_bind; [apply (keeps_deref PC)|]. intros k.
  apply keeps_bind; [apply (keeps_deref PC)|]. intros nw.
  destruct (net.Contains nw (net.IP_of k)); [|apply keeps_ret].
  apply keeps_bind; [apply (keeps_TestConnection PC)|]. intros ok.
  destruct ok; [|apply keeps_ret].
  apply keeps_bind; [|intros; apply keeps_ret].
  apply (keeps_updPeer PC). intros l Hl. now apply PC_Endpoint.
Qed.

Lemma selectEndpoint_keeps_at (peer : NetworkPeer) (count : Z) :
  (Endpoint peer = "" -> endpoint_ok) ->
  keeps (on_registry PC) (selectEndpoint codec host i peer count).
Proof.
  intros Hok. unfold selectEndpoint.
  destruct (String.eqb_spec (Endpoint peer) "") as [He|_]; [|apply keeps_ret].
  specialize (Hok He).
  apply keeps_bind; [apply (keeps_ask PC)|]. intros r.
  apply keeps_bind; [now apply probeLAN_keeps_at|]. intros c.
  apply keeps_bind; [apply (keeps_peerAt PC)|]. intros cur.
  apply keeps_bind.
  { destruct (_ && _); [|apply keeps_ret].
    apply keeps_bind; [apply (keeps_index PC)|]. intros k0.
    apply keeps_bind; [apply (keeps_TestConnection PC)|]. intros _.
    apply keeps_ret. }
  intros _.
  apply keeps_bind; [apply (keeps_peerAt PC)|]. intros cur'.
  destruct (_ || _); [|apply keeps_ret].
  apply keeps_bind; [apply (keeps_index PC)|]. intros k0.
  apply keeps_bind; [|intros; apply keeps_ret].
  apply (keeps_updPeer PC). intros l Hl. now apply PC_Endpoint.
Qed.

End Sync_record.

Lemma wp_peerAt (i : nat) (Q : NetworkPeer -> State -> Prop) (s : State) :
  (forall p, NetworkPeers (cloud s) !! i = Some p -> Q p s) -> wp (peerAt i) Q s.
Proof.
  intros H. unfold wp, peerAt, bind, getPeers.
  destruct (NetworkPeers (cloud s) !! i) as [p|]; [now apply H | exact Logic.I].
Qed.

Lemma In_lookup_ID (l : list NetworkPeer) (j : nat) (p : NetworkPeer) :
  l !! j = Some p -> In (ID p) (map ID l).
Proof.
  intros H. apply in_map, list_elem_of_In. eapply list_elem_of_lookup_2. exact H.
Qed.

Section Sync_registry.

(** A property [PC] of the registry that [SyncPeers] keeps, given what it
    writes: known addresses are appended to a record; the endpoint of record
    [i] is set, which happens only when the record had none ([endpoint_ok i]
    follows from that); a new record is appended for an id of the view that
    is not empty and that no record carries. *)
Variable PC : list NetworkPeer -> Prop.
Variable endpoint_ok : nat -> Prop.
Variable view : list dht.PeerIP.
Hypothesis PC_ok : forall i l p,
  PC l -> l !! i = Some p -> Endpoint p = "" -> endpoint_ok i.
Hypothesis PC_KnownIPs : forall i x l,
  PC l -> PC (alter (fun p => with_KnownIPs (KnownIPs p ++ [x]) p) i l).
Hypothesis PC_Endpoint : forall i e l,
  endpoint_ok i -> PC l -> PC (alter (with_Endpoint e) i l).
Hypothesis PC_new : forall e l,
  In e view -> dht.ID e <> "" -> Forall (fun p => ID p <> dht.ID e) l ->
  PC l -> PC (l ++ [new_record (dht.ID e)]).

Variables (codec : Codec) (host : Host).

Lemma SyncPeers_registry (catched : list string) (s : State) :
  dht.Peers (dht (cloud s)) = view ->
  PC (NetworkPeers (cloud s)) ->
  wp (SyncPeers codec host catched)
     (fun _ s' =>
        PC (NetworkPeers (cloud s'))
        /\ forall e, In e view -> dht.ID e <> "" ->
                     In (dht.ID e) (map ID (NetworkPeers (cloud s')))) s.
Proof.
  intros Hview HPC. unfold SyncPeers. apply wp_bind. unfold wp at 1, get_ptp.
  rewrite Hview.
  apply (wp_foldM_in
           (fun seen (_ : Z) s' =>
              PC (NetworkPeers (cloud s'))
              /\ forall e, In e seen -> dht.ID e <> "" ->
                           In (dht.ID e) (map ID (NetworkPeers (cloud s'))))).
  { split; [exact HPC|]. intros e []. }
  clear s Hview HPC. intros seen x count s Hx [HPC Hseen].
  destruct (String.eqb_spec (dht.ID x) "") as [Hempty|Hid].
  { split; [exact HPC|]. intros e He Hne.
    apply in_app_or in He as [He|[<-|[]]]; [now apply Hseen | contradiction]. }
  apply wp_bind. unfold wp at 1, getPeers.
  set (ids := map ID (NetworkPeers (cloud s))).
  set (PCx := fun l : list NetworkPeer =>
                PC l
                /\ (forall e, In e seen -> dht.ID e <> "" -> In (dht.ID e) (map ID l))
                /\ map ID l = ids).
  assert (PCx_KnownIPs : forall j y l,
            PCx l -> PCx (alter (fun p => with_KnownIPs (KnownIPs p ++ [y]) p) j l)).
  { intros j y l (H1 & H2 & H3). unfold PCx.
    rewrite map_ID_alter by reflexivity. split; [now apply PC_KnownIPs | now split]. }
  assert (PCx_Endpoint : forall j e l,
            endpoint_ok j -> PCx l -> PCx (alter (with_Endpoint e) j l)).
  { intros j e l Hok (H1 & H2 & H3). unfold PCx.
    rewrite map_ID_alter by reflexivity. split; [now apply PC_Endpoint | now split]. }
  apply wp_bind. eapply wp_mono.
  { apply (wp_foldM_in
             (fun idx (r : bool * Z) s' =>
                PCx (NetworkPeers (cloud s'))
                /\ (fst r = true -> In (dht.ID x) ids)
                /\ (fst r = false -> forall j, In j idx -> ids !! j <> Some (dht.ID x)))).
    - split; [now repeat split|]. split; [discriminate|]. intros _ j [].
    - intros idx j [found c] s1 Hj (HPCx & Ht & Hf).
      apply wp_bind, wp_peerAt. intros peer Hpeer.
      destruct (String.eqb_spec (ID peer) (dht.ID x)) as [Heq|Hne].
      + apply wp_bind. eapply wp_mono.
        { apply (mergeIps_keeps_registry PCx j (PCx_KnownIPs j)). exact HPCx. }
        intros u s2 HPCx2. apply wp_bind. eapply wp_mono.
        { apply (selectEndpoint_keeps_at PCx j (endpoint_ok j) (PCx_Endpoint j));
            [|exact HPCx2].
          intros He. destruct HPCx as (H1 & _). exact (PC_ok j _ peer H1 Hpeer He). }
        intros c' s3 HPCx3. split; [exact HPCx3|]. split; [|discriminate].
        intros _. rewrite <- Heq. destruct HPCx as (_ & _ & Hids). rewrite <- Hids.
        eapply In_lookup_ID. exact Hpeer.
      + split; [exact HPCx|]. split; [exact Ht|].
        intros Hff j' Hj'. apply in_app_or in Hj' as [Hj'|[<-|[]]]; [now apply Hf|].
        destruct HPCx as (_ & _ & Hids).
        rewrite <- Hids, list_lookup_fmap, Hpeer. cbn. congruence. }
  intros [found c] s2 ((HPC2 & Hseen2 & Hids2) & Ht & Hf). cbv beta.
  destruct found; cbn [negb].
  - split; [exact HPC2|]. intros e He Hne.
    apply in_app_or in He as [He|[<-|[]]]; [now apply Hseen2|].
    rewrite Hids2. now apply Ht.
  - apply wp_bind. unfold wp at 1, getPeers.
    apply wp_bind. unfold wp at 1, setPeers.
    apply wp_bind. unfold wp at 1, emit.
    unfold wp, ret. cbn [cloud NetworkPeers with_NetworkPeers]. split.
    + apply PC_new; try assumption.
      apply Forall_forall. intros p Hp Heq.
      apply list_elem_of_lookup in Hp as [j Hj].
      apply (Hf eq_refl j).
      * apply in_seq. split; [lia|]. cbn.
        apply lookup_lt_Some in Hj.
        apply (f_equal length) in Hids2. unfold ids in Hids2.
        rewrite !length_map in Hids2. lia.
      * rewrite <- Hids2, list_lookup_fmap, Hj. cbn. now rewrite Heq.
    + intros e He Hne. rewrite map_app. apply in_or_app.
      apply in_app_or in He as [He|[<-|[]]]; [left; now apply Hseen2 | right; now left].
Qed.

End Sync_registry.

(** ** The fields that the methods leave alone *)

(** Decomposes a goal [keeps I m] along the structure of [m]; [leaf] proves
    what is left for the reads and writes of the registry. *)
Ltac keeps_structure leaf :=
  repeat first
    [ apply keeps_ret
    | apply keeps_panic
    | apply keeps_bind; [|intro]
    | apply keeps_foldM; intros ? ?
    | apply keeps_forM_; intro
    | match goal with
      | |- keeps _ (if ?b then _ else _) => destruct b
      | |- keeps _ (match ?x with _ => _ end) => destruct x
      | |- keeps _ ((match ?x with _ => _ end) _) => destruct x
      end
    | leaf ].

Ltac keeps_config_leaf :=
  let s := fresh "s" in
  let H := fresh "H" in
  intros s H;
  first
    [ exact H
    | unfold wp, peerAt, updPeer, bind, getPeers, setPeers, ret, panic;
      destruct (NetworkPeers (cloud s) !! _); first [exact H | exact Logic.I] ].

Lemma same_config_cloud (c0 : PTPCloud) (s : State) :
  same_config c0 s -> cloud s = with_NetworkPeers (NetworkPeers (cloud s)) c0.
Proof.
  unfold same_config, with_NetworkPeers. destruct (cloud s), c0. cbn.
  now intros [= -> -> -> -> -> -> -> ->].
Qed.

Lemma same_config_refl (s : State) : same_config (cloud s) s.
Proof. reflexivity. Qed.

Lemma TestConnection_config (c0 : PTPCloud) (codec : Codec) (host : Host)
    (endpoint : option net.UDPAddr) :
  keeps (same_config c0) (TestConnection codec host endpoint).
Proof. unfold TestConnection. keeps_structure keeps_config_leaf. Qed.

Lemma SyncPeers_config (c0 : PTPCloud) (codec : Codec) (host : Host)
    (catched : list string) :
  keeps (same_config c0) (SyncPeers codec host catched).
Proof.
  unfold SyncPeers, mergeIps, selectEndpoint, probeLAN, deref, index.
  keeps_structure ltac:(first [apply TestConnection_config | keeps_config_leaf]).
Qed.

Lemma PurgePeers_config (c0 : PTPCloud) (catched : list string) :
  keeps (same_config c0) (PurgePeers catched).
Proof. unfold PurgePeers, remove_at. keeps_structure keeps_config_leaf. Qed.

(** ** SyncPeers: what it does to the registry *)

(** X10. When [SyncPeers] returns, every id of the DHT view that is not
    empty has a record in the registry. *)
Theorem X10_SyncPeers_covers_view (codec : Codec) (host : Host)
    (catched : list string) (s : State) (n : Z) (s' : State) :
  SyncPeers codec host catched s = Done (n, s') ->
  forall e, In e (dht.Peers (dht (cloud s))) -> dht.ID e <> "" ->
            In (dht.ID e) (map ID (NetworkPeers (cloud s'))).
Proof.
  intros Hrun.
  pose proof (SyncPeers_registry (fun _ => True) (fun _ => True)
                (dht.Peers (dht (cloud s)))
                (fun _ _ _ _ _ _ => Logic.I) (fun _ _ _ _ => Logic.I)
                (fun _ _ _ _ _ => Logic.I) (fun _ _ _ _ _ _ => Logic.I)
                codec host catched s eq_refl Logic.I) as H.
  exact (proj2 (wp_done _ _ _ _ _ H Hrun)).
Qed.

Lemma X10_SyncPeers_covers_view_witness :
  In "b" (map ID [Sample.fresh "a"; Sample.fresh "b"]).
Proof.
  apply (X10_SyncPeers_covers_view Sample.codec (Sample.host true) []
           (Sample.state [Sample.fresh "a"] [dht.mkPeerIP "a" []; dht.mkPeerIP "b" []])
           0
           (mkState (Sample.ptp [Sample.fresh "a"; Sample.fresh "b"]
                       [dht.mkPeerIP "a" []; dht.mkPeerIP "b" []])
              1 [EvRequestPeerIPs "b"])
           eq_refl (dht.mkPeerIP "b" [])).
  - cbn. tauto.
  - discriminate.
Defined.

Lemma synced_refl (p : NetworkPeer) : synced p p.
Proof.
  exists (Endpoint p), []. destruct p. unfold with_Endpoint, with_KnownIPs. cbn.
  now rewrite app_nil_r.
Qed.

Lemma synced_KnownIPs (p p' : NetworkPeer) (x : option net.UDPAddr) :
  synced p p' -> synced p (with_KnownIPs (KnownIPs p' ++ [x]) p').
Proof.
  intros (e & ks & ->). exists e, (ks ++ [x]).
  unfold with_Endpoint, with_KnownIPs. cbn. now rewrite app_assoc.
Qed.

Lemma synced_Endpoint (p p' : NetworkPeer) (e : string) :
  synced p p' -> synced p (with_Endpoint e p').
Proof. intros (e' & ks & ->). now exists e, ks. Qed.

Lemma Forall2_synced_refl (l : list NetworkPeer) : Forall2 synced l l.
Proof. induction l; constructor; [apply synced_refl | assumption]. Qed.

Lemma Forall2_synced_ID (l l' : list NetworkPeer) :
  Forall2 synced l l' -> map ID l' = map ID l.
Proof.
  induction 1 as [|p p' l l' (e & ks & ->) _ IH]; cbn [map]; [reflexivity|].
  now rewrite IH.
Qed.

Lemma SyncPeers_appends (codec : Codec) (host : Host)
    (catched : list string) (s : State) (n : Z) (s' : State) :
  SyncPeers codec host catched s = Done (n, s') ->
  exists ids,
    Forall2 synced (NetworkPeers (cloud s) ++ map new_record ids)
      (NetworkPeers (cloud s'))
    /\ NoDup ids
    /\ Forall (fun id => id <> ""
                         /\ In id (map dht.ID (dht.Peers (dht (cloud s))))
                         /\ ~ In id (map ID (NetworkPeers (cloud s)))) ids.
Proof.
  intros Hrun.
  set (l0 := NetworkPeers (cloud s)). set (view := dht.Peers (dht (cloud s))).
  set (PC := fun l : list NetworkPeer =>
               exists ids,
                 Forall2 synced (l0 ++ map new_record ids) l
                 /\ NoDup ids
                 /\ Forall (fun id => id <> "" /\ In id (map dht.ID view)
                                      /\ ~ In id (map ID l0)) ids).
  assert (H : wp (SyncPeers codec host catched)
                (fun _ s' =>
                   PC (NetworkPeers (cloud s'))
                   /\ forall e, In e view -> dht.ID e <> "" ->
                                In (dht.ID e) (map ID (NetworkPeers (cloud s')))) s).
  { apply (SyncPeers_registry PC (fun _ => True) view); [easy| | | |reflexivity|].
    - intros i x l (ids & H1 & H2). exists ids. split; [|exact H2].
      apply Forall2_alter_r; [exact H1|]. intros p p' _ _. apply synced_KnownIPs.
    - intros i e l _ (ids & H1 & H2). exists ids. split; [|exact H2].
      apply Forall2_alter_r; [exact H1|]. intros p p' _ _. apply synced_Endpoint.
    - intros e l He Hne Hfresh (ids & H1 & H2 & H3).
      assert (Hnot : ~ In (dht.ID e) (map ID l0 ++ ids)).
      { intros Hin.
        assert (Hl : In (dht.ID e) (map ID l)).
        { rewrite (Forall2_synced_ID _ _ H1), map_app, map_map. cbn [new_record ID].
          now rewrite map_id. }
        apply in_map_iff in Hl as (p & Hp & Hin'). apply list_elem_of_In in Hin'.
        rewrite Forall_forall in Hfresh. now apply (Hfresh p Hin'). }
      exists (ids ++ [dht.ID e]). split; [|split].
      + rewrite map_app, app_assoc. apply Forall2_app; [exact H1|].
        constructor; [apply synced_refl | constructor].
      + apply NoDup_app. split; [exact H2|]. split; [|apply NoDup_singleton].
        intros x Hx Hx'. apply list_elem_of_singleton in Hx'. subst x.
        apply Hnot, in_or_app. right. now apply list_elem_of_In.
      + apply Forall_app. split; [exact H3|]. constructor; [|constructor].
        split; [exact Hne|]. split; [now apply in_map|].
        intros Hin. apply Hnot, in_or_app. now left.
    - exists []. cbn [map]. rewrite app_nil_r. split; [|split; constructor].
      apply Forall2_synced_refl. }
  exact (proj1 (wp_done _ _ _ _ _ H Hrun)).
Qed.


(** X11. [SyncPeers] removes and reorders nothing, and writes [KnownIPs] and
    [Endpoint] only: when it returns, the registry is the old one, each
    record with its known addresses extended and possibly another endpoint
    and otherwise as it was, followed by one new record for each of certain
    ids; these ids are distinct, not empty, ids of the DHT view, and had no
    record.  Nothing else of the agent changes. *)
Theorem X11_SyncPeers_frame (codec : Codec) (host : Host)
    (catched : list string) (s : State) (n : Z) (s' : State) :
  SyncPeers codec host catched s = Done (n, s') ->
  exists ids,
    Forall2 synced (NetworkPeers (cloud s) ++ map new_record ids)
      (NetworkPeers (cloud s'))
    /\ NoDup ids
    /\ Forall (fun id => id <> ""
                         /\ In id (map dht.ID (dht.Peers (dht (cloud s))))
                         /\ ~ In id (map ID (NetworkPeers (cloud s)))) ids
    /\ cloud s' = with_NetworkPeers (NetworkPeers (cloud s')) (cloud s).
Proof.
  intros Hrun. destruct (SyncPeers_appends _ _ _ _ _ _ Hrun) as (ids & H1 & H2 & H3).
  exists ids. repeat split; try assumption.
  apply same_config_cloud.
  exact (wp_done _ _ _ _ _ (SyncPeers_config (cloud s) codec host catched s
                              (same_config_refl s)) Hrun).
Qed.

Lemma X11_SyncPeers_frame_witness :
  exists ids,
    Forall2 synced ([Sample.known_a] ++ map new_record ids)
      [with_Endpoint "8.8.8.8:4000" Sample.known_a; Sample.fresh "b"]
    /\ NoDup ids
    /\ Forall (fun id => id <> ""
                         /\ In id (map dht.ID (Sample.view_a ++ [dht.mkPeerIP "b" []]))
                         /\ ~ In id (map ID [Sample.known_a])) ids
    /\ Sample.ptp [with_Endpoint "8.8.8.8:4000" Sample.known_a; Sample.fresh "b"]
         (Sample.view_a ++ [dht.mkPeerIP "b" []])
       = with_NetworkPeers
           [with_Endpoint "8.8.8.8:4000" Sample.known_a; Sample.fresh "b"]
           (Sample.ptp [Sample.known_a] (Sample.view_a ++ [dht.mkPeerIP "b" []])).
Proof.
  apply (X11_SyncPeers_frame Sample.codec (Sample.host true) []
           (Sample.state [Sample.known_a] (Sample.view_a ++ [dht.mkPeerIP "b" []]))
           2
           (mkState
              (Sample.ptp [with_Endpoint "8.8.8.8:4000" Sample.known_a; Sample.fresh "b"]
                 (Sample.view_a ++ [dht.mkPeerIP "b" []]))
              2
              [EvProbeWrite (mkP2PMessage 2 (list_byte_of_string "TEST"))
                 (Some Sample.lan_addr);
               EvRequestPeerIPs "b"])).
  vm_compute. reflexivity.
Defined.

(** X12. [SyncPeers] never replaces an endpoint: a record that has a
    non-empty [Endpoint] when [SyncPeers] starts has the same one when it
    returns. *)
Theorem X12_SyncPeers_keeps_endpoint (codec : Codec) (host : Host)
    (catched : list string) (s : State) (n : Z) (s' : State) :
  SyncPeers codec host catched s = Done (n, s') ->
  forall i p, NetworkPeers (cloud s) !! i = Some p -> Endpoint p <> "" ->
              exists p', NetworkPeers (cloud s') !! i = Some p'
                         /\ Endpoint p' = Endpoint p.
Proof.
  intros Hrun.
  set (l0 := NetworkPeers (cloud s)).
  set (PC := fun l : list NetworkPeer =>
               forall i p, l0 !! i = Some p -> Endpoint p <> "" ->
                           exists p', l !! i = Some p' /\ Endpoint p' = Endpoint p).
  set (ok := fun i : nat => forall p, l0 !! i = Some p -> Endpoint p = "").
  assert (H : wp (SyncPeers codec host catched)
                (fun _ s' =>
                   PC (NetworkPeers (cloud s'))
                   /\ forall e, In e (dht.Peers (dht (cloud s))) -> dht.ID e <> "" ->
                                In (dht.ID e) (map ID (NetworkPeers (cloud s')))) s).
  { apply (SyncPeers_registry PC ok (dht.Peers (dht (cloud s)))); [| | | |reflexivity|].
    - intros i l p HPC Hi He p0 H0.
      destruct (String.eqb_spec (Endpoint p0) "") as [E|E]; [exact E|].
      destruct (HPC i p0 H0 E) as (p' & Hp' & Heq). congruence.
    - intros i x l HPC j p Hj He. destruct (HPC j p Hj He) as (p' & Hp' & Heq).
      destruct (decide (i = j)) as [->|Hne].
      + eexists. rewrite list_lookup_alter_eq, Hp'. split; [reflexivity | exact Heq].
      + exists p'. now rewrite list_lookup_alter_ne.
    - intros i e l Hok HPC j p Hj He. destruct (HPC j p Hj He) as (p' & Hp' & Heq).
      destruct (decide (i = j)) as [->|Hne].
      + now rewrite (Hok p Hj) in He.
      + exists p'. now rewrite list_lookup_alter_ne.
    - intros e l _ _ _ HPC j p Hj He. destruct (HPC j p Hj He) as (p' & Hp' & Heq).
      exists p'. split; [now apply lookup_app_l_Some | exact Heq].
    - intros i p Hi _. now exists p. }
  exact (proj1 (wp_done _ _ _ _ _ H Hrun)).
Qed.

Lemma X12_SyncPeers_keeps_endpoint_witness :
  exists p',
    [with_Endpoint "192.168.1.5:4000" Sample.known_a] !! 0 = Some p'
    /\ Endpoint p' = Endpoint (with_Endpoint "192.168.1.5:4000" Sample.known_a).
Proof.
  apply (X12_SyncPeers_keeps_endpoint Sample.codec (Sample.host true) []
           (Sample.state [with_Endpoint "192.168.1.5:4000" Sample.known_a] Sample.view_a)
           0
           (Sample.state [with_Endpoint "192.168.1.5:4000" Sample.known_a] Sample.view_a)
           eq_refl 0 (with_Endpoint "192.168.1.5:4000" Sample.known_a) eq_refl).
  discriminate.
Defined.

(** ** Properties of the registry in every state the agent reaches *)


Lemma IntroducePeers_keeps_registry (PC : list NetworkPeer -> Prop)
    (codec : Codec) (host : Host) :
  (forall i a l p, l !! i = Some p -> Unknown p = true -> Endpoint p <> "" ->
                   PC l -> PC (alter (with_PeerAddr (Some a)) i l)) ->
  keeps (on_registry PC) (IntroducePeers codec host).
Proof.
  intros Halter. unfold IntroducePeers.
  apply keeps_bind; [apply (keeps_getPeers PC)|]. intros peers.
  apply keeps_forM_. intros i s H.
  apply wp_bind, wp_peerAt. intros peer Hi.
  destruct (Unknown peer) eqn:Hu; cbn [negb]; [|exact H].
  destruct (String.eqb_spec (Endpoint peer) "") as [He|He]; [exact H|].
  apply wp_bind. unfold wp at 1, ask.
  destruct (ResolveUDPAddr host (clock s) (Endpoint peer)) as [addr|]; [|exact H].
  apply wp_bind. unfold wp at 1, updPeer, bind, getPeers.
  cbn [cloud NetworkPeers]. rewrite Hi. unfold setPeers.
  apply wp_bind. unfold wp at 1, get_ptp.
  apply wp_bind. unfold wp at 1, UDPSocket_SendMessage, bind, emit, ask.
  unfold wp, ret, on_registry. cbn [cloud NetworkPeers with_NetworkPeers].
  now apply (Halter i addr _ peer).
Qed.

Section Reachable_registry.

(** A property [PC] of the registry that holds of the empty registry and
    that every write of the methods keeps. *)
Variable PC : list NetworkPeer -> Prop.
Hypothesis PC_nil : PC [].
Hypothesis PC_remove : forall i l,
  i < length l -> PC l -> PC (take i l ++ drop (i + 1) l).
Hypothesis PC_KnownIPs : forall i x l,
  PC l -> PC (alter (fun p => with_KnownIPs (KnownIPs p ++ [x]) p) i l).
Hypothesis PC_Endpoint : forall i e l, PC l -> PC (alter (with_Endpoint e) i l).
Hypothesis PC_new : forall id l,
  Forall (fun p => ID p <> id) l -> PC l -> PC (l ++ [new_record id]).
Hypothesis PC_PeerAddr : forall i a l p,
  l !! i = Some p -> Unknown p = true -> Endpoint p <> "" ->
  PC l -> PC (alter (with_PeerAddr (Some a)) i l).
Hypothesis PC_upsert : forall addr id ip mac l, PC l -> PC (upsert addr id ip mac l).

Variables (codec : Codec) (host : Host).



End Reachable_registry.









(** ** IsPeerUnknown and the introductions that are passed over *)








(** ** The loop of main: what one turn makes of the registry *)

Lemma PurgePeers_one_departure_run (s : State) (catched : list string) :
  length (List.filter
            (fun p => negb (in_view (dht.Peers (dht (cloud s))) (ID p)))
            (NetworkPeers (cloud s))) <= 1 ->
  PurgePeers catched s
  = Done (tt, put_peers
                (List.filter (fun p => in_view (dht.Peers (dht (cloud s))) (ID p))
                   (NetworkPeers (cloud s))) s).
Proof.
  intros H. unfold PurgePeers. unfold bind at 1, get_ptp at 1.
  rewrite purge_indices_absent.
  destruct (absent_from_at_most_one _ _ 0 H)
    as [[Ha Hf] | (pre & p & post & Hl & Ha & Hf)]; rewrite Ha, Hf.
  - cbn. now rewrite put_peers_same.
  - unfold forM_. cbn [foldM Nat.add]. unfold bind, ret.
    now rewrite (remove_at_run pre post p s Hl).
Qed.

Lemma sync_introduce_matches_view (codec : Codec) (host : Host)
    (LastCatch : list string) (view : list dht.PeerIP) (s0 s' : State) :
  dht.Peers (dht (cloud s0)) = view ->
  Forall (fun p => In (ID p) (map dht.ID view)) (NetworkPeers (cloud s0)) ->
  bind (SyncPeers codec host LastCatch)
       (fun newPeersNum =>
          if (0 <? newPeersNum)%Z then IntroducePeers codec host else ret tt) s0
    = Done (tt, s') ->
  Forall (fun p => In (ID p) (map dht.ID view)) (NetworkPeers (cloud s'))
  /\ (forall e, In e view -> dht.ID e <> "" ->
                In (dht.ID e) (map ID (NetworkPeers (cloud s')))).
Proof.
  intros Hview H0 Hrun.
  set (PC := fun l : list NetworkPeer =>
               Forall (fun p => In (ID p) (map dht.ID view)) l).
  set (PV := fun l : list NetworkPeer =>
               forall e, In e view -> dht.ID e <> "" -> In (dht.ID e) (map ID l)).
  assert (Hsync : wp (SyncPeers codec host LastCatch)
                    (fun _ s2 => PC (NetworkPeers (cloud s2))
                                 /\ PV (NetworkPeers (cloud s2))) s0).
  { apply (SyncPeers_registry PC (fun _ => True) view); [easy| | | |exact Hview|exact H0].
    - intros i x l H. apply Forall_alter; [exact H|]. now intros p _ Hp.
    - intros i e l _ H. apply Forall_alter; [exact H|]. now intros p _ Hp.
    - intros e l He _ _ H. apply Forall_app. split; [exact H|].
      constructor; [|constructor]. cbn [new_record ID]. now apply in_map. }
  unfold bind at 1 in Hrun. unfold wp in Hsync.
  destruct (SyncPeers codec host LastCatch s0) as [[n s2]|]; [|discriminate Hrun].
  destruct (0 <? n)%Z; [|now injection Hrun as <-].
  refine (wp_done _ _ _ _ _
            (IntroducePeers_keeps_registry (fun l => PC l /\ PV l) codec host _ s2 Hsync)
            Hrun).
  intros i a l p _ _ _ [H1 H2]. split.
  - apply Forall_alter; [exact H1|]. now intros q _ Hq.
  - unfold PV. now rewrite map_ID_alter.
Qed.

(** X17. One turn of the loop of [main] (purge, synchronise, introduce), when
    at most one record has an id that is absent from the DHT view and the
    turn returns: afterwards every record carries an id of the view, and
    every id of the view that is not empty has a record. *)
Theorem X17_main_turn_registry_matches_view (codec : Codec) (host : Host)
    (LastCatch : list string) (s s' : State) :
  length (List.filter
            (fun p => negb (in_view (dht.Peers (dht (cloud s))) (ID p)))
            (NetworkPeers (cloud s))) <= 1 ->
  main_turn codec host LastCatch s = Done (tt, s') ->
  (forall p, In p (NetworkPeers (cloud s')) ->
             In (ID p) (map dht.ID (dht.Peers (dht (cloud s)))))
  /\ (forall e, In e (dht.Peers (dht (cloud s))) -> dht.ID e <> "" ->
                In (dht.ID e) (map ID (NetworkPeers (cloud s')))).
Proof.
  intros Hone Hrun. unfold main_turn in Hrun.
  rewrite (bind_run _ _ _ _ _ (PurgePeers_one_departure_run s LastCatch Hone)) in Hrun.
  assert (H0 : Forall (fun p => In (ID p) (map dht.ID (dht.Peers (dht (cloud s)))))
                      (List.filter
                         (fun p => in_view (dht.Peers (dht (cloud s))) (ID p))
                         (NetworkPeers (cloud s)))).
  { apply Forall_forall. intros p Hp.
    apply list_elem_of_In, List.filter_In in Hp as [_ Hp]. now apply in_view_In. }
  set (s0 := put_peers _ s) in Hrun.
  destruct (sync_introduce_matches_view codec host LastCatch
              (dht.Peers (dht (cloud s))) s0 s' eq_refl H0 Hrun) as [Hin Hcov].
  split; [|exact Hcov].
  intros p Hp. rewrite Forall_forall in Hin. now apply Hin, list_elem_of_In.
Qed.

Lemma X17_main_turn_registry_matches_view_witness :
  (forall p, In p [Sample.fresh "b"; Sample.fresh "c"] ->
             In (ID p) (map dht.ID [dht.mkPeerIP "b" []; dht.mkPeerIP "c" []]))
  /\ (forall e, In e [dht.mkPeerIP "b" []; dht.mkPeerIP "c" []] -> dht.ID e <> "" ->
                In (dht.ID e) (map ID [Sample.fresh "b"; Sample.fresh "c"])).
Proof.
  apply (X17_main_turn_registry_matches_view Sample.codec (Sample.host true) []
           (Sample.state [Sample.fresh "a"; Sample.fresh "b"]
              [dht.mkPeerIP "b" []; dht.mkPeerIP "c" []])
           (mkState (Sample.ptp [Sample.fresh "b"; Sample.fresh "c"]
                       [dht.mkPeerIP "b" []; dht.mkPeerIP "c" []])
              1 [EvRequestPeerIPs "c"])).
  - cbn. lia.
  - vm_compute. reflexivity.
Defined.

(** ** GenerateDeviceName *)

Lemma uitoa_inj (n n' : N) : net.uitoa n = net.uitoa n' -> n = n'.
Proof.
  unfold net.uitoa. intros E.
  assert (Hnn : forall m, N.to_uint m <> Decimal.Nil).
  { intros [|p]; [discriminate | apply DecimalPos.Unsigned.to_uint_nonnil]. }
  apply DecimalN.Unsigned.to_uint_inj.
  pose proof (DecimalString.NilZero.usu _ (Hnn n)) as H.
  rewrite E, (DecimalString.NilZero.usu _ (Hnn n')) in H. now injection H.
Qed.

Lemma devName_inj (j j' : Z) :
  (0 <= j)%Z -> (0 <= j')%Z ->
  "vptp" +:+ Sprintf_d j = "vptp" +:+ Sprintf_d j' -> j = j'.
Proof.
  intros Hj Hj' E.
  change (String "v" (String "p" (String "t" (String "p" (Sprintf_d j))))
          = String "v" (String "p" (String "t" (String "p" (Sprintf_d j'))))) in E.
  injection E as E. unfold Sprintf_d, net.itoa in E.
  destruct (Z.ltb_spec j 0); [lia|]. destruct (Z.ltb_spec j' 0); [lia|].
  apply uitoa_inj in E. lia.
Qed.

Lemma exist_fold (inf : list Interface) (devName : string) (exist : bool) :
  fold_left (fun exist itf => if String.eqb (Name itf) devName then true else exist)
    inf exist
  = exist || existsb (fun itf => String.eqb (Name itf) devName) inf.
Proof.
  revert exist. induction inf as [|x inf IH]; intros exist; cbn [fold_left existsb].
  - now rewrite orb_false_r.
  - rewrite IH. destruct (String.eqb (Name x) devName), exist; reflexivity.
Qed.

Lemma exist_In (inf : list Interface) (devName : string) :
  fold_left (fun exist itf => if String.eqb (Name itf) devName then true else exist)
    inf false = true
  <-> In devName (map Name inf).
Proof.
  rewrite exist_fold. cbn [orb]. rewrite existsb_exists, in_map_iff. split.
  - intros (x & Hx & E). apply String.eqb_eq in E. eauto.
  - intros (x & E & Hx). exists x. split; [assumption | now apply String.eqb_eq].
Qed.

Lemma GenerateDeviceName_run (host : Host) (inf : list Interface) :
  (forall t, Interfaces host t = Some inf) ->
  forall (fuel : nat) (i : Z) (used : list string) (s : State),
    (0 <= i)%Z ->
    (i + Z.of_nat (length inf - length used) < 2 ^ 63)%Z ->
    List.NoDup used ->
    incl used (map Name inf) ->
    (forall j, (i <= j)%Z -> ~ In ("vptp" +:+ Sprintf_d j) used) ->
    length inf <= fuel + length used ->
    exists k : nat,
      k <= length inf - length used
      /\ GenerateDeviceName host fuel i s
         = Done (Some ("vptp" +:+ Sprintf_d (i + Z.of_nat k)),
                 mkState (cloud s) (clock s + S k) (trace s))
      /\ ~ In ("vptp" +:+ Sprintf_d (i + Z.of_nat k)) (map Name inf)
      /\ forall j : nat, j < k ->
                         In ("vptp" +:+ Sprintf_d (i + Z.of_nat j)) (map Name inf).
Proof.
  intros Hstable. induction fuel as [|fuel IH]; intros i used s Hi Hmax Hnd Hincl Hused Hfuel.
  all: cbn [GenerateDeviceName]; unfold bind at 1, ask at 1; rewrite Hstable.
  all: destruct (fold_left _ inf false) eqn:E.
  all: try (exists 0; rewrite Z.add_0_r, Nat.add_1_r;
            split; [lia|]; split; [reflexivity|]; split; [|intros j Hj; lia];
            rewrite <- exist_In, E; discriminate).
  all: apply exist_In in E.
  all: assert (Hnd' : List.NoDup (("vptp" +:+ Sprintf_d i) :: used))
         by (constructor; [apply Hused; lia | exact Hnd]).
  all: assert (Hincl' : incl (("vptp" +:+ Sprintf_d i) :: used) (map Name inf))
         by (intros x [<-|Hx]; [exact E | now apply Hincl]).
  all: pose proof (List.NoDup_incl_length Hnd' Hincl') as Hlen;
       rewrite length_map in Hlen; cbn [length] in Hlen.
  - lia.
  - assert (Hsucc : int_succ i = (i + 1)%Z).
    { unfold int_succ. rewrite Z.mod_small; lia. }
    rewrite Hsucc.
    destruct (IH (i + 1)%Z (("vptp" +:+ Sprintf_d i) :: used)
                (mkState (cloud s) (S (clock s)) (trace s)))
      as (k & Hk & Hrun & Hfree & Htaken); try assumption.
    + lia.
    + cbn [length]. lia.
    + intros j Hj [Heq|Hin]; [|apply (Hused j); [lia | exact Hin]].
      apply devName_inj in Heq; lia.
    + cbn [length]. lia.
    + cbn [length] in Hk. exists (S k). split; [lia|].
      replace (i + Z.of_nat (S k))%Z with (i + 1 + Z.of_nat k)%Z by lia.
      split; [|split; [exact Hfree|]].
      * rewrite Hrun. cbn [cloud clock trace]. do 3 f_equal. lia.
      * intros [|j] Hj; [now rewrite Z.add_0_r|].
        replace (i + Z.of_nat (S j))%Z with (i + 1 + Z.of_nat j)%Z by lia.
        apply Htaken. lia.
Qed.

(** X18. [GenerateDeviceName], on a host whose list of interfaces does not
    change and with enough calls allowed (one more than there are
    interfaces): started at [i], it returns the name vptp followed by the
    first number from [i] on that no interface carries as vptp and that
    number; every smaller number from [i] on is taken.  It asks for the list
    of interfaces once per number it tries and changes nothing else. *)
Theorem X18_GenerateDeviceName_first_free (host : Host) (inf : list Interface)
    (fuel : nat) (i : Z) (s : State) :
  (forall t, Interfaces host t = Some inf) ->
  (0 <= i)%Z ->
  (i + Z.of_nat (length inf) < 2 ^ 63)%Z ->
  length inf <= fuel ->
  exists k : nat,
    k <= length inf
    /\ GenerateDeviceName host fuel i s
       = Done (Some ("vptp" +:+ Sprintf_d (i + Z.of_nat k)),
               mkState (cloud s) (clock s + S k) (trace s))
    /\ ~ In ("vptp" +:+ Sprintf_d (i + Z.of_nat k)) (map Name inf)
    /\ forall j : nat, j < k ->
                       In ("vptp" +:+ Sprintf_d (i + Z.of_nat j)) (map Name inf).
Proof.
  intros Hstable Hi Hmax Hfuel.
  destruct (GenerateDeviceName_run host inf Hstable fuel i [] s)
    as (k & Hk & H); try assumption.
  - cbn [length]. now rewrite Nat.sub_0_r.
  - constructor.
  - intros x [].
  - intros j _ [].
  - cbn [length]. lia.
  - cbn [length] in Hk. exists k. split; [lia | exact H].
Qed.

Lemma X18_GenerateDeviceName_first_free_witness :
  exists k : nat,
    k <= 2
    /\ GenerateDeviceName (Sample.host true) 2 1 (Sample.state [] [])
       = Done (Some ("vptp" +:+ Sprintf_d (1 + Z.of_nat k)),
               mkState (cloud (Sample.state [] [])) (0 + S k) [])
    /\ ~ In ("vptp" +:+ Sprintf_d (1 + Z.of_nat k)) ["vptp1"; "eth0"]
    /\ forall j : nat, j < k -> In ("vptp" +:+ Sprintf_d (1 + Z.of_nat j)) ["vptp1"; "eth0"].
Proof.
  apply (X18_GenerateDeviceName_first_free (Sample.host true)
           [mkInterface "vptp1"
              [Some (net.mkIPNet [x0a; x00; x00; x00] [xff; xff; xff; x00])];
            mkInterface "eth0"
              [Some (net.mkIPNet [xc0; xa8; x01; x00] [xff; xff; xff; x00])]]
           2 1 (Sample.state [] [])).
  - reflexivity.
  - lia.
  - cbn. lia.
  - cbn. lia.
Defined.

Example GenerateDeviceName_sample :
  GenerateDeviceName (Sample.host true) 2 1 (Sample.state [] [])
  = Done (Some "vptp2", mkState (Sample.ptp [] []) 2 []).
Proof. vm_compute. reflexivity. Qed.

(** ** The introduction: the texts that the parsers accept hold no comma *)

Lemma Count_append (a b : string) (sep : ascii) :
  Strings.Count (a +:+ b) sep = Strings.Count a sep + Strings.Count b sep.
Proof.
  induction a as [|c a IH]; [reflexivity|].
  rewrite append_String. cbn [Strings.Count]. rewrite IH. lia.
Qed.

Lemma Count_take_drop (n : nat) (s : string) (sep : ascii) :
  Strings.Count s sep
  = Strings.Count (str_take n s) sep + Strings.Count (str_drop n s) sep.
Proof.
  revert s. induction n as [|n IH]; intros [|c s]; cbn [str_take str_drop Strings.Count];
    try reflexivity.
  rewrite (IH s). lia.
Qed.

Lemma str_drop_length (n : nat) (s : string) :
  String.length (str_drop n s) = String.length s - n.
Proof.
  revert s. induction n as [|n IH]; intros [|c s]; cbn [str_drop String.length];
    try reflexivity.
  apply IH.
Qed.

Lemma length_0_Empty (s : string) : String.length s = 0 -> s = EmptyString.
Proof. now destruct s. Qed.

Lemma hexval_not_comma (c : ascii) (d : N) :
  net.hexval c = Some d -> Ascii.eqb c "," = false.
Proof.
  intros H. destruct (Ascii.eqb_spec c ","); [|reflexivity].
  subst c. vm_compute in H. discriminate H.
Qed.

Lemma isdigit_not_comma (c : ascii) : net.isdigit c = true -> Ascii.eqb c "," = false.
Proof.
  intros H. destruct (Ascii.eqb_spec c ","); [|reflexivity].
  subst c. vm_compute in H. discriminate H.
Qed.

Lemma xtoi_from_prefix (s : string) (n : N) (i : nat) (n' : N) (c : nat) :
  net.xtoi_from s n i = (n', c, true) ->
  i <= c /\ c - i <= String.length s /\ Strings.Count (str_take (c - i) s) "," = 0.
Proof.
  revert n i. induction s as [|ch s IH]; intros n i; cbn [net.xtoi_from].
  - destruct (Nat.eqb i 0); [discriminate|]. intros [= _ <-].
    rewrite Nat.sub_diag. cbn. lia.
  - destruct (net.hexval ch) as [d|] eqn:Hd.
    + destruct (net.big <=? n * 16 + d)%N; [discriminate|].
      intros H. apply IH in H as (H1 & H2 & H3).
      replace (c - i) with (S (c - S i)) by lia.
      cbn [str_take Strings.Count String.length].
      rewrite (hexval_not_comma _ _ Hd), H3. lia.
    + destruct (Nat.eqb i 0); [discriminate|]. intros [= _ <-].
      rewrite Nat.sub_diag. cbn. lia.
Qed.

Lemma xtoi_prefix (s : string) (n : N) (c : nat) :
  net.xtoi s = (n, c, true) ->
  c <= String.length s /\ Strings.Count (str_take c s) "," = 0.
Proof.
  intros H. apply xtoi_from_prefix in H as (_ & H2 & H3).
  rewrite Nat.sub_0_r in *. now split.
Qed.

Lemma dtoi_from_prefix (s : string) (n : N) (i : nat) (n' : N) (c : nat) :
  net.dtoi_from s n i = (n', c, true) ->
  i <= c /\ c - i <= String.length s /\ Strings.Count (str_take (c - i) s) "," = 0.
Proof.
  revert n i. induction s as [|ch s IH]; intros n i; cbn [net.dtoi_from].
  - destruct (Nat.eqb i 0); [discriminate|]. intros [= _ <-].
    rewrite Nat.sub_diag. cbn. lia.
  - destruct (net.isdigit ch) eqn:Hd.
    + destruct (net.big <=? _)%N; [discriminate|].
      intros H. apply IH in H as (H1 & H2 & H3).
      replace (c - i) with (S (c - S i)) by lia.
      cbn [str_take Strings.Count String.length].
      rewrite (isdigit_not_comma _ Hd), H3. lia.
    + destruct (Nat.eqb i 0); [discriminate|]. intros [= _ <-].
      rewrite Nat.sub_diag. cbn. lia.
Qed.

Lemma dtoi_prefix (s : string) (n : N) (c : nat) :
  net.dtoi s = (n, c, true) ->
  c <= String.length s /\ Strings.Count (str_take c s) "," = 0.
Proof.
  intros H. apply dtoi_from_prefix in H as (_ & H2 & H3).
  rewrite Nat.sub_0_r in *. now split.
Qed.

(** A first character that is known, and is not the comma. *)
Lemma Count_first (s : string) (c : ascii) :
  Ascii.eqb c "," = false ->
  (String.length s = 0 \/ byteAt s 0 = c) ->
  Strings.Count (str_drop 1 s) "," = 0 ->
  Strings.Count s "," = 0.
Proof.
  intros Hc Hs H. destruct s as [|c0 s]; [reflexivity|].
  destruct Hs as [Hs|Hs]; [discriminate Hs|].
  cbn in Hs. subst c0. cbn [str_drop Strings.Count] in *. now rewrite Hc, H.
Qed.

Lemma xtoi2_no_comma (s : string) (e : ascii) (b : byte) :
  net.xtoi2 s e = (b, true) ->
  Ascii.eqb e "," = false ->
  Strings.Count (str_take 3 s) "," = 0.
Proof.
  unfold net.xtoi2. intros H He.
  destruct (Nat.ltb 2 (String.length s) && negb (Ascii.eqb (byteAt s 2) e)) eqn:Hc;
    [discriminate H|].
  destruct (net.xtoi (str_take 2 s)) as [[n ei] ok] eqn:Hx.
  injection H as _ H. apply andb_true_iff in H as [-> H]. apply Nat.eqb_eq in H. subst ei.
  apply xtoi_prefix in Hx as [Hlen Hcount].
  destruct s as [|c0 [|c1 r]]; cbn in Hlen; try lia.
  cbn [str_take Strings.Count] in Hcount |- *.
  destruct r as [|c2 r]; cbn [str_take Strings.Count]; [lia|].
  cbn in Hc. destruct (Ascii.eqb_spec c2 e) as [->|]; [|discriminate Hc].
  rewrite He. lia.
Qed.

Lemma str_take_take (n : nat) (s : string) : str_take n (str_take n s) = str_take n s.
Proof.
  revert s. induction n as [|n IH]; intros [|c s]; cbn [str_take]; try reflexivity.
  now rewrite IH.
Qed.

Lemma str_take_length (n : nat) (s : string) :
  String.length (str_take n s) = Nat.min n (String.length s).
Proof.
  revert s. induction n as [|n IH]; intros [|c s]; cbn [str_take String.length];
    try reflexivity.
  now rewrite IH.
Qed.

Lemma parseMAC_sep_no_comma (s : string) (e : ascii) (n : nat) (hw : list byte) :
  net.parseMAC_sep s e n = Some hw ->
  Ascii.eqb e "," = false ->
  String.length s <= 3 * n ->
  Strings.Count s "," = 0.
Proof.
  revert s hw. induction n as [|n IH]; intros s hw; cbn [net.parseMAC_sep].
  - intros _ _ Hlen. now rewrite (length_0_Empty s) by lia.
  - destruct (net.xtoi2 s e) as [b [|]] eqn:Hx; [|discriminate].
    destruct (net.parseMAC_sep (str_drop 3 s) e n) as [hw'|] eqn:E; [|discriminate].
    intros _ He Hlen. rewrite (Count_take_drop 3 s).
    rewrite (xtoi2_no_comma _ _ _ Hx He).
    rewrite (IH _ _ E He); [reflexivity|]. rewrite str_drop_length. lia.
Qed.

Lemma parseMAC_dot_no_comma (s : string) (e : ascii) (k : nat) (hw : list byte) :
  net.parseMAC_dot s e k = Some hw ->
  Ascii.eqb e "," = false ->
  String.length s <= 5 * k ->
  Strings.Count s "," = 0.
Proof.
  revert s hw. induction k as [|k IH]; intros s hw; cbn [net.parseMAC_dot].
  - intros _ _ Hlen. now rewrite (length_0_Empty s) by lia.
  - destruct (net.xtoi2 (str_take 2 s) Ascii.zero) as [b1 [|]] eqn:Hx1; [|discriminate].
    destruct (net.xtoi2 (str_drop 2 s) e) as [b2 [|]] eqn:Hx2; [|discriminate].
    destruct (net.parseMAC_dot (str_drop 5 s) e k) as [hw'|] eqn:E; [|discriminate].
    intros _ He Hlen.
    apply xtoi2_no_comma in Hx1; [|reflexivity].
    apply xtoi2_no_comma in Hx2; [|exact He].
    rewrite (Count_take_drop 2 s), (Count_take_drop 3 (str_drop 2 s)).
    assert (H1 : Strings.Count (str_take 2 s) "," = 0).
    { rewrite (Count_take_drop 3 (str_take 2 s)), Hx1.
      assert (Hd : str_drop 3 (str_take 2 s) = EmptyString).
      { apply length_0_Empty. rewrite str_drop_length, str_take_length. lia. }
      now rewrite Hd. }
    rewrite H1, Hx2.
    assert (Hd : str_drop 3 (str_drop 2 s) = str_drop 5 s).
    { clear. destruct s as [|c0 [|c1 [|c2 [|c3 [|c4 r]]]]]; reflexivity. }
    rewrite Hd, (IH _ _ E He); [reflexivity|]. rewrite str_drop_length. lia.
Qed.

Lemma ParseMAC_no_comma (s : string) (hw : list byte) :
  net.ParseMAC s = Some hw -> Strings.Count s "," = 0.
Proof.
  unfold net.ParseMAC. destruct (Nat.ltb (String.length s) 14); [discriminate|].
  destruct (Ascii.eqb (byteAt s 2) ":" || Ascii.eqb (byteAt s 2) "-") eqn:Hsep.
  - destruct (Nat.eqb_spec ((String.length s + 1) mod 3) 0) as [Hmod|]; [|discriminate].
    cbn [negb]. destruct (negb (net.mac_len_ok _)); [discriminate|].
    intros H. apply (parseMAC_sep_no_comma _ _ _ _ H).
    + apply orb_true_iff in Hsep as [E|E]; apply Ascii.eqb_eq in E; now rewrite E.
    + pose proof (Nat.div_mod_eq (String.length s + 1) 3). lia.
  - destruct (Ascii.eqb_spec (byteAt s 4) ".") as [Hdot|]; [|discriminate].
    destruct (Nat.eqb_spec ((String.length s + 1) mod 5) 0) as [Hmod|]; [|discriminate].
    cbn [negb]. destruct (negb (net.mac_len_ok _)); [discriminate|].
    intros H. apply (parseMAC_dot_no_comma _ _ _ _ H).
    + now rewrite Hdot.
    + pose proof (Nat.div_mod_eq (String.length s + 1) 5) as H5.
      pose proof (Nat.div_mod_eq (2 * (String.length s + 1) / 5) 2) as H2.
      pose proof (Nat.div_mod_eq (2 * (String.length s + 1)) 5) as H10.
      pose proof (Nat.mod_upper_bound (2 * (String.length s + 1)) 5).
      pose proof (Nat.mod_upper_bound (2 * (String.length s + 1) / 5) 2).
      lia.
Qed.

Lemma parseIPv4_loop_no_comma (s : string) (j rest : nat) (l : list byte) :
  net.parseIPv4_loop s j rest = Some l -> Strings.Count s "," = 0.
Proof.
  revert s j l. induction rest as [|rest IH]; intros s j l; cbn [net.parseIPv4_loop].
  - destruct (Nat.eqb_spec (String.length s) 0) as [H0|]; [|discriminate].
    intros _. now rewrite (length_0_Empty s H0).
  - destruct (Nat.eqb_spec (String.length s) 0) as [|Hne]; [discriminate|].
    destruct (Nat.eqb j 0) eqn:Hj; cbn [negb andb].
    + destruct (net.dtoi s) as [[n c] ok] eqn:Hd.
      destruct ok; cbn [negb orb]; [|discriminate].
      destruct (255 <? n)%N; [discriminate|].
      destruct (net.parseIPv4_loop (str_drop c s) (S j) rest) as [l'|] eqn:E;
        [|discriminate].
      intros _. apply dtoi_prefix in Hd as [_ Hd].
      now rewrite (Count_take_drop c s), Hd, (IH _ _ _ E).
    + destruct (Ascii.eqb_spec (byteAt s 0) ".") as [Hdot|]; [|discriminate].
      cbn [negb].
      destruct (net.dtoi (str_drop 1 s)) as [[n c] ok] eqn:Hd.
      destruct ok; cbn [negb orb]; [|discriminate].
      destruct (255 <? n)%N; [discriminate|].
      destruct (net.parseIPv4_loop (str_drop c (str_drop 1 s)) (S j) rest) as [l'|] eqn:E;
        [|discriminate].
      intros _. apply dtoi_prefix in Hd as [_ Hd].
      apply (Count_first s "."); [reflexivity | now right|].
      now rewrite (Count_take_drop c (str_drop 1 s)), Hd, (IH _ _ _ E).
Qed.

Lemma parseIPv4_no_comma (s : string) :
  net.parseIPv4 s <> [] -> Strings.Count s "," = 0.
Proof.
  unfold net.parseIPv4. intros H.
  destruct (net.parseIPv4_loop s 0 net.IPv4len) as [l|] eqn:E; [|now destruct H].
  exact (parseIPv4_loop_no_comma _ _ _ _ E).
Qed.

Lemma parseIPv6_turn_no_comma (s : string) (acc : list byte) (e : option nat) :
  match net.parseIPv6_turn s acc e with
  | net.V6Fail => True
  | net.V6Break s' _ _ => Strings.Count s' "," = 0 -> Strings.Count s "," = 0
  | net.V6Next s' _ _ => Strings.Count s' "," = 0 -> Strings.Count s "," = 0
  end.
Proof.
  unfold net.parseIPv6_turn.
  destruct (net.xtoi s) as [[n c] ok] eqn:Hx.
  destruct ok; cbn [negb orb]; [|exact Logic.I].
  destruct (65535 <? n)%N; [exact Logic.I|].
  apply xtoi_prefix in Hx as [_ Hx].
  destruct (Nat.ltb c (String.length s) && Ascii.eqb (byteAt s c) ".").
  - destruct (negb (net.has_ellipsis e) && _); [exact Logic.I|].
    destruct (Nat.ltb _ _); [exact Logic.I|].
    destruct (net.parseIPv4 s) as [|x ip4] eqn:E; [exact Logic.I|].
    intros _. apply parseIPv4_no_comma. now rewrite E.
  - cbv zeta.
    assert (Hs : Strings.Count (str_drop c s) "," = 0 -> Strings.Count s "," = 0)
      by (intros H; now rewrite (Count_take_drop c s), Hx, H).
    destruct (Nat.eqb (String.length (str_drop c s)) 0); [exact Hs|].
    destruct (Ascii.eqb_spec (byteAt (str_drop c s) 0) ":") as [Hc|]; cbn [negb orb];
      [|exact Logic.I].
    destruct (Nat.eqb (String.length (str_drop c s)) 1); [exact Logic.I|].
    assert (Hs1 : Strings.Count (str_drop 1 (str_drop c s)) "," = 0 ->
                  Strings.Count s "," = 0).
    { intros H. apply Hs, (Count_first _ ":"); [reflexivity | now right | exact H]. }
    destruct (Ascii.eqb_spec (byteAt (str_drop 1 (str_drop c s)) 0) ":") as [Hc'|];
      [|exact Hs1].
    destruct (net.has_ellipsis e); [exact Logic.I|].
    assert (Hs2 : Strings.Count (str_drop 1 (str_drop 1 (str_drop c s))) "," = 0 ->
                  Strings.Count s "," = 0).
    { intros H. apply Hs1, (Count_first _ ":"); [reflexivity | now right | exact H]. }
    destruct (Nat.eqb _ 0); exact Hs2.
Qed.

Lemma parseIPv6_loop_no_comma (fuel : nat) (s s' : string) (acc acc' : list byte)
    (e e' : option nat) :
  net.parseIPv6_loop fuel s acc e = Some (s', acc', e') ->
  Strings.Count s' "," = 0 -> Strings.Count s "," = 0.
Proof.
  revert s acc e. induction fuel as [|fuel IH]; intros s acc e;
    cbn [net.parseIPv6_loop];
    destruct (negb (Nat.ltb (length acc) net.IPv6len));
    try (now intros [= <- <- <-]); try discriminate.
  pose proof (parseIPv6_turn_no_comma s acc e) as Hturn.
  destruct (net.parseIPv6_turn s acc e) as [|s1 acc1 e1|s1 acc1 e1]; [discriminate| |].
  - intros [= <- <- <-]. exact Hturn.
  - intros H H'. apply Hturn. exact (IH _ _ _ H H').
Qed.

Lemma parseIPv6_finish_no_comma (s : string) (acc : list byte) (e : option nat) :
  net.parseIPv6_finish (s, acc, e) <> [] -> Strings.Count s "," = 0.
Proof.
  unfold net.parseIPv6_finish.
  destruct (Nat.eqb_spec (String.length s) 0) as [H0|]; cbn [negb]; [|now intros H].
  intros _. now rewrite (length_0_Empty s H0).
Qed.

Lemma parseIPv6_no_comma (s : string) :
  net.parseIPv6 s <> [] -> Strings.Count s "," = 0.
Proof.
  unfold net.parseIPv6.
  destruct (Nat.leb 2 (String.length s) && Ascii.eqb (byteAt s 0) ":"
            && Ascii.eqb (byteAt s 1) ":") eqn:Hc.
  - apply andb_true_iff in Hc as [Hc H1]. apply andb_true_iff in Hc as [Hlen H0].
    apply Ascii.eqb_eq in H0, H1.
    assert (Hs : Strings.Count (str_drop 2 s) "," = 0 -> Strings.Count s "," = 0).
    { destruct s as [|c0 [|c1 r]]; cbn in *; try discriminate Hlen.
      subst c0 c1. cbn. now intros ->. }
    destruct (Nat.eqb_spec (String.length (str_drop 2 s)) 0) as [Hz|].
    + intros _. apply Hs. now rewrite (length_0_Empty _ Hz).
    + destruct (net.parseIPv6_loop 8 (str_drop 2 s) [] (Some 0)) as [[[s' acc'] e']|] eqn:E;
        [|now intros H].
      intros H. apply Hs. apply (parseIPv6_loop_no_comma _ _ _ _ _ _ _ E).
      now apply (parseIPv6_finish_no_comma s' acc' e').
  - destruct (net.parseIPv6_loop 8 s [] None) as [[[s' acc'] e']|] eqn:E; [|now intros H].
    intros H. apply (parseIPv6_loop_no_comma _ _ _ _ _ _ _ E).
    now apply (parseIPv6_finish_no_comma s' acc' e').
Qed.

Lemma ParseIP_no_comma (s : string) :
  net.ParseIP s <> [] -> Strings.Count s "," = 0.
Proof.
  unfold net.ParseIP. generalize s at 1. intros rest.
  induction rest as [|c rest IH]; cbn [net.ParseIP_scan]; [now intros H|].
  destruct (Ascii.eqb c "."); [apply parseIPv4_no_comma|].
  destruct (Ascii.eqb c ":"); [apply parseIPv6_no_comma | exact IH].
Qed.

(** ** The introduction: what ParseIntroString reads back *)

Lemma Split_no_sep (s : string) (sep : ascii) :
  Strings.Count s sep = 0 -> Strings.Split s sep = [s].
Proof.
  induction s as [|c s IH]; cbn [Strings.Split Strings.Count]; [reflexivity|].
  destruct (Ascii.eqb c sep); [discriminate|]. intros H. now rewrite IH.
Qed.

Lemma Split_append_sep (a r : string) (sep : ascii) :
  Strings.Count a sep = 0 ->
  Strings.Split (a +:+ String sep r) sep = a :: Strings.Split r sep.
Proof.
  induction a as [|c a IH]; cbn [Strings.Count].
  - intros _. rewrite append_Empty. cbn [Strings.Split]. now rewrite Ascii.eqb_refl.
  - destruct (Ascii.eqb c sep) eqn:E; [discriminate|]. intros H.
    rewrite append_String. cbn [Strings.Split]. now rewrite E, IH.
Qed.

(** X19. What [PrepareIntroductionMessage] writes, [ParseIntroString] reads
    back: over a codec that carries the payload unchanged, for an id without
    comma, a MAC text that [net.ParseMAC] accepts and an IP text that
    [net.ParseIP] accepts, the introduction of the agent parses to the id,
    the MAC and the IP of the agent. *)
Theorem X19_introduction_round_trip (codec : Codec) (ptp : PTPCloud) (id : string)
    (hw : net.HardwareAddr) :
  (forall s n, string_of_bytes (Data (CreateIntroP2PMessage codec s n)) = s) ->
  Strings.Count id "," = 0 ->
  net.ParseMAC (Mac ptp) = Some hw ->
  net.ParseIP (IP ptp) <> [] ->
  ParseIntroString (string_of_bytes (Data (PrepareIntroductionMessage codec ptp id)))
  = (id, hw, net.ParseIP (IP ptp)).
Proof.
  intros Hcodec Hid Hmac Hip. unfold PrepareIntroductionMessage. cbv zeta.
  rewrite Hcodec. unfold ParseIntroString.
  change (id +:+ "," +:+ Mac ptp +:+ "," +:+ IP ptp)
    with (id +:+ String "," (Mac ptp +:+ String "," (IP ptp))).
  rewrite (Split_append_sep id _ _ Hid).
  rewrite (Split_append_sep (Mac ptp) _ _ (ParseMAC_no_comma _ _ Hmac)).
  rewrite (Split_no_sep _ _ (ParseIP_no_comma _ Hip)).
  cbn [length Nat.eqb negb nth]. rewrite Hmac.
  destruct (Nat.eqb_spec (length (net.ParseIP (IP ptp))) 0) as [H0|]; [|reflexivity].
  destruct (net.ParseIP (IP ptp)); [now destruct Hip | discriminate H0].
Qed.

Lemma X19_introduction_round_trip_witness :
  ParseIntroString
    (string_of_bytes (Data (PrepareIntroductionMessage Sample.codec (Sample.ptp [] []) "me")))
  = ("me", [x06; x01; x02; x03; x04; x05], net.ParseIP (IP (Sample.ptp [] []))).
Proof.
  apply (X19_introduction_round_trip Sample.codec (Sample.ptp [] []) "me"
           [x06; x01; x02; x03; x04; x05]).
  - intros s n. apply string_of_list_byte_of_string.
  - reflexivity.
  - vm_compute. reflexivity.
  - vm_compute. discriminate.
Defined.

(** ** PurgePeers: what it removes, and when it panics *)

Lemma ascending_from_le (k k' : nat) (l : list nat) :
  k <= k' -> ascending_from k' l -> ascending_from k l.
Proof. destruct l as [|i l]; cbn; [trivial|]. intros H [H1 H2]. split; [lia | exact H2]. Qed.

Lemma absent_from_ascending (view : list dht.PeerIP) (peers : list NetworkPeer) (k : nat) :
  ascending_from k (absent_from view k peers).
Proof.
  revert k. induction peers as [|p peers IH]; intros k; cbn [absent_from]; [exact Logic.I|].
  destruct (negb (in_view view (ID p))); cbn [app ascending_from].
  - split; [lia | apply IH].
  - apply (ascending_from_le k (S k)); [lia | apply IH].
Qed.

Lemma imap_succ (f g : nat -> nat -> nat) (l : list nat) :
  (forall j x, f j x = S (g j x)) -> imap f l = map S (imap g l).
Proof.
  revert f g. induction l as [|x l IH]; intros f g Hfg; cbn [imap map]; [reflexivity|].
  rewrite Hfg. f_equal. apply IH. intros j y. apply Hfg.
Qed.

Lemma shifted_cons (i : nat) (rem : list nat) :
  imap (fun j i => i + j) (i :: rem) = i :: map S (imap (fun j i => i + j) rem).
Proof.
  cbn [imap]. rewrite Nat.add_0_r. f_equal.
  apply imap_succ. intros j x. cbn. lia.
Qed.

Lemma drop_positions_nil (k : nat) (l : list NetworkPeer) : drop_positions [] k l = l.
Proof.
  revert k. induction l as [|p l IH]; intros k; cbn [drop_positions existsb];
    [reflexivity|].
  now rewrite IH.
Qed.

Lemma drop_positions_below (p k : nat) (qs : list nat) (l : list NetworkPeer) :
  p < k -> drop_positions (p :: qs) k l = drop_positions qs k l.
Proof.
  revert k. induction l as [|x l IH]; intros k Hp; cbn [drop_positions existsb];
    [reflexivity|].
  destruct (Nat.eqb_spec k p); [lia|]. cbn [orb].
  rewrite !(IH (S k)) by lia. reflexivity.
Qed.

Lemma existsb_succ (k : nat) (ps : list nat) :
  existsb (Nat.eqb (S k)) (map S ps) = existsb (Nat.eqb k) ps.
Proof.
  induction ps as [|p ps IH]; cbn [map existsb]; [reflexivity|].
  rewrite IH. reflexivity.
Qed.

Lemma drop_positions_succ (ps : list nat) (k : nat) (l : list NetworkPeer) :
  drop_positions (map S ps) (S k) l = drop_positions ps k l.
Proof.
  revert k. induction l as [|x l IH]; intros k; cbn [drop_positions]; [reflexivity|].
  now rewrite existsb_succ, !IH.
Qed.

Lemma existsb_above (k : nat) (ps : list nat) :
  Forall (fun p => k < p) ps -> existsb (Nat.eqb k) ps = false.
Proof.
  induction 1 as [|p ps Hp _ IH]; cbn [existsb]; [reflexivity|].
  destruct (Nat.eqb_spec k p); [lia | exact IH].
Qed.

(** Removing the record at index [i] and then the positions [ps], counted in
    what is left, removes the positions [i] and [ps] plus one, counted in the
    list one started with: when none of [ps] is below [i]. *)
Lemma drop_positions_delete (i k : nat) (l : list NetworkPeer) (ps : list nat) :
  i < length l ->
  Forall (fun p => k + i <= p) ps ->
  drop_positions ps k (take i l ++ drop (i + 1) l)
  = drop_positions ((k + i) :: map S ps) k l.
Proof.
  revert k l. induction i as [|i IH]; intros k [|x l] Hlen Hps; cbn [length] in Hlen;
    try lia.
  - cbn [take drop app Nat.add drop_positions existsb].
    rewrite Nat.add_0_r, Nat.eqb_refl. cbn [orb].
    rewrite drop_positions_below by lia. now rewrite drop_positions_succ.
  - cbn [take drop app Nat.add drop_positions existsb].
    rewrite existsb_above by (eapply Forall_impl; [exact Hps | intros p Hp; cbn in Hp; lia]).
    destruct (Nat.eqb_spec k (k + S i)); [lia|]. cbn [orb].
    rewrite existsb_above
      by (apply Forall_fmap; eapply Forall_impl; [exact Hps | intros p Hp; cbn in *; lia]).
    f_equal. rewrite IH; [|lia|].
    + now replace (S k + i) with (k + S i) by lia.
    + eapply Forall_impl; [exact Hps | intros p Hp; cbn in Hp; lia].
Qed.

Lemma ascending_from_Forall (m : nat) (l : list nat) :
  ascending_from m l -> Forall (le m) l.
Proof.
  revert m. induction l as [|i l IH]; intros m; cbn [ascending_from]; [constructor|].
  intros [H1 H2]. constructor; [exact H1|].
  apply IH. apply (ascending_from_le m (S i)); [lia | exact H2].
Qed.

Lemma ascending_from_shifted (m : nat) (l : list nat) :
  ascending_from m l -> Forall (le m) (imap (fun j i => i + j) l).
Proof.
  intros H. apply ascending_from_Forall in H. rewrite Forall_lookup in H.
  apply Forall_lookup. intros j y Hy. rewrite list_lookup_imap in Hy.
  destruct (l !! j) as [x|] eqn:Hx; [|discriminate Hy].
  injection Hy as <-. specialize (H j x Hx). cbn in H. lia.
Qed.

Lemma forallb_below_succ (n : nat) (ps : list nat) :
  0 < n ->
  forallb (fun p => Nat.ltb p n) (map S ps) = forallb (fun p => Nat.ltb p (n - 1)) ps.
Proof.
  intros Hn. induction ps as [|p ps IH]; cbn [map forallb]; [reflexivity|].
  rewrite IH. f_equal.
  destruct (Nat.ltb_spec (S p) n), (Nat.ltb_spec p (n - 1)); try reflexivity; lia.
Qed.

(** The second loop of [PurgePeers], for indices that increase. *)
Lemma purge_loop_run (rem : list nat) (m : nat) (s : State) :
  ascending_from m rem ->
  forM_ rem remove_at s
  = if forallb (fun p => Nat.ltb p (length (NetworkPeers (cloud s))))
         (imap (fun j i => i + j) rem)
    then Done (tt, put_peers
                     (drop_positions (imap (fun j i => i + j) rem) 0
                        (NetworkPeers (cloud s))) s)
    else Panic SliceBoundsOutOfRange.
Proof.
  revert m s. induction rem as [|i rem IH]; intros m s Hasc.
  - cbn [imap forallb]. now rewrite drop_positions_nil, put_peers_same.
  - destruct Hasc as [_ Hasc]. unfold forM_ in *. rewrite foldM_cons, shifted_cons.
    cbn [forallb]. unfold bind at 1, remove_at at 1. unfold bind at 1, getPeers at 1.
    destruct (Nat.ltb_spec (length (NetworkPeers (cloud s))) (i + 1)) as [Hout|Hin].
    + destruct (Nat.ltb_spec i (length (NetworkPeers (cloud s)))); [lia | reflexivity].
    + destruct (Nat.ltb_spec i (length (NetworkPeers (cloud s)))) as [Hlt|]; [|lia].
      cbn [andb]. unfold setPeers at 1.
      change (mkState (with_NetworkPeers ?l (cloud s)) (clock s) (trace s))
        with (put_peers l s).
      rewrite (IH (S i) _ Hasc).
      cbn [put_peers cloud NetworkPeers with_NetworkPeers].
      rewrite length_app, length_take, length_drop.
      rewrite forallb_below_succ by lia.
      replace (i `min` length (NetworkPeers (cloud s))
               + (length (NetworkPeers (cloud s)) - (i + 1)))
        with (length (NetworkPeers (cloud s)) - 1) by lia.
      destruct (forallb _ _); [|reflexivity].
      rewrite (drop_positions_delete i 0); [reflexivity | exact Hlt |].
      eapply Forall_impl; [exact (ascending_from_shifted _ _ Hasc)|].
      intros p Hp. cbn in Hp |- *. lia.
Qed.

(** X20. What [PurgePeers] does for any registry and view.  It removes one
    record for each record whose id is absent from the view, but the [j]-th
    of them (from 0) at the position of that record plus [j].  When each of
    these positions lies within the registry it returns and the registry is
    the old one without the records at these positions; otherwise it panics
    on the slice expression of line 438.  Nothing else changes. *)
Theorem X20_PurgePeers_outcome (catched : list string) (s : State) :
  PurgePeers catched s
  = if forallb (fun p => Nat.ltb p (length (NetworkPeers (cloud s))))
         (purged_positions (dht.Peers (dht (cloud s))) (NetworkPeers (cloud s)))
    then Done (tt, put_peers
                     (drop_positions
                        (purged_positions (dht.Peers (dht (cloud s)))
                           (NetworkPeers (cloud s)))
                        0 (NetworkPeers (cloud s))) s)
    else Panic SliceBoundsOutOfRange.
Proof.
  unfold PurgePeers. unfold bind at 1, get_ptp at 1.
  rewrite purge_indices_absent. unfold purged_positions.
  apply (purge_loop_run _ 0). apply absent_from_ascending.
Qed.

Example purged_positions_two_departures :
  purged_positions [dht.mkPeerIP "c" []]
    [Sample.fresh "a"; Sample.fresh "b"; Sample.fresh "c"]
  = [0; 2].
Proof. reflexivity. Qed.

(** ** From the handshake to the forwarding *)

Lemma SendTo_scan_all_to (host : Host) (a : option net.UDPAddr)
    (l : list NetworkPeer) (dst : net.HardwareAddr) (msg : P2PMessage) (s : State) :
  Forall (fun p => net.HardwareAddr_String (PeerHW p) = net.HardwareAddr_String dst ->
                   PeerAddr p = a) l ->
  Exists (fun p => net.HardwareAddr_String (PeerHW p) = net.HardwareAddr_String dst) l ->
  SendTo_scan host l dst msg s = UDPSocket_SendMessage host msg a s.
Proof.
  induction 1 as [|p l Hp _ IH]; intros Hex; [inversion Hex|].
  cbn [SendTo_scan].
  destruct (String.eqb_spec (net.HardwareAddr_String (PeerHW p))
              (net.HardwareAddr_String dst)) as [E|E].
  - now rewrite (Hp E).
  - apply IH. inversion Hex; [contradiction | assumption].
Qed.

(** X21. The handshake makes the peer reachable: after [AddPeer] with an
    address, an id and a MAC, [SendTo] for that MAC hands the frame to the
    socket once, for that address, and returns what the socket returns;
    provided no record of another id has a MAC with the same text. *)
Theorem X21_AddPeer_then_SendTo (host : Host) (addr : option net.UDPAddr) (id : string)
    (ip : net.IP) (mac : net.HardwareAddr) (msg : P2PMessage) (s : State) :
  Forall (fun p => ID p <> id ->
                   net.HardwareAddr_String (PeerHW p) <> net.HardwareAddr_String mac)
    (NetworkPeers (cloud s)) ->
  exists s1,
    AddPeer addr id ip mac s = Done (tt, s1)
    /\ SendTo host mac msg s1
       = Done (SendMessage host (clock s1) msg addr,
               mkState (cloud s1) (S (clock s1)) (trace s1 ++ [EvSendMessage msg addr])).
Proof.
  intros Hother. eexists. split; [apply AddPeer_run|].
  unfold SendTo. unfold bind at 1, getPeers at 1.
  cbn [put_peers cloud clock trace NetworkPeers with_NetworkPeers].
  rewrite (SendTo_scan_all_to host addr); [reflexivity| |].
  - unfold upsert. destruct (existsb _ (NetworkPeers (cloud s))) eqn:Eex.
    + apply Forall_fmap. eapply Forall_impl; [exact Hother|].
      intros p Hp. cbn. unfold introduced_if.
      destruct (String.eqb_spec (ID p) id) as [E|E]; [reflexivity|].
      intros Hm. now destruct (Hp E).
    + apply Forall_app. split; [|constructor; [reflexivity | constructor]].
      rewrite Forall_forall in Hother. apply Forall_forall. intros p Hin Hm.
      destruct (String.eqb_spec (ID p) id) as [E|E]; [|now destruct (Hother p Hin E)].
      exfalso. rewrite <- not_true_iff_false in Eex. apply Eex, existsb_exists.
      exists p. split; [now apply list_elem_of_In | now apply String.eqb_eq].
  - destruct (upsert_handshaked addr id ip mac (NetworkPeers (cloud s))) as [_ Hex].
    unfold upsert in *. destruct (existsb _ (NetworkPeers (cloud s))) eqn:E.
    + apply existsb_exists in E as (p & Hin & Hp). apply Exists_exists.
      exists (introduced addr id ip mac p). split; [|reflexivity].
      apply list_elem_of_In, in_map_iff. exists p. unfold introduced_if. now rewrite Hp.
    + apply Exists_app. right. now constructor.
Qed.

Lemma X21_AddPeer_then_SendTo_witness :
  exists s1,
    AddPeer (Some Sample.src_addr) "b" (net.IPv4 x0a x00 x00 x02)
      [x06; xaa; xbb; xcc; xdd; xee] (Sample.state [Sample.fresh "a"] [])
    = Done (tt, s1)
    /\ SendTo (Sample.host true) [x06; xaa; xbb; xcc; xdd; xee] Sample.intro_msg s1
       = Done (SendMessage (Sample.host true) (clock s1) Sample.intro_msg
                 (Some Sample.src_addr),
               mkState (cloud s1) (S (clock s1))
                 (trace s1 ++ [EvSendMessage Sample.intro_msg (Some Sample.src_addr)])).
Proof.
  apply (X21_AddPeer_then_SendTo (Sample.host true) (Some Sample.src_addr) "b"
           (net.IPv4 x0a x00 x00 x02) [x06; xaa; xbb; xcc; xdd; xee] Sample.intro_msg
           (Sample.state [Sample.fresh "a"] [])).
  constructor; [|constructor]. intros _. vm_compute. discriminate.
Defined.

(** ** SyncPeers: properties of the count and of the state that it keeps *)

Lemma wp_ask {A} (q : nat -> A) (Q : A -> State -> Prop) (s : State) :
  Q (q (clock s)) (mkState (cloud s) (S (clock s)) (trace s)) -> wp (ask q) Q s.
Proof. exact (fun H => H). Qed.

Lemma wp_emit (e : Event) (Q : unit -> State -> Prop) (s : State) :
  Q tt (mkState (cloud s) (clock s) (trace s ++ [e])) -> wp (emit e) Q s.
Proof. exact (fun H => H). Qed.

Lemma wp_get_ptp (Q : PTPCloud -> State -> Prop) (s : State) :
  Q (cloud s) s -> wp get_ptp Q s.
Proof. exact (fun H => H). Qed.

Lemma wp_getPeers (Q : list NetworkPeer -> State -> Prop) (s : State) :
  Q (NetworkPeers (cloud s)) s -> wp getPeers Q s.
Proof. exact (fun H => H). Qed.

Lemma wp_updPeer (i : nat) (f : NetworkPeer -> NetworkPeer)
    (Q : unit -> State -> Prop) (s : State) :
  (forall p, NetworkPeers (cloud s) !! i = Some p ->
             Q tt (put_peers (alter f i (NetworkPeers (cloud s))) s)) ->
  wp (updPeer i f) Q s.
Proof.
  intros H. unfold wp, updPeer, bind, getPeers.
  destruct (NetworkPeers (cloud s) !! i) as [p|] eqn:E; [|exact Logic.I].
  exact (H p eq_refl).
Qed.

Lemma wp_deref {A} (p : option A) (Q : A -> State -> Prop) (s : State) :
  (forall a, p = Some a -> Q a s) -> wp (deref p) Q s.
Proof. intros H. destruct p as [a|]; [exact (H a eq_refl) | exact Logic.I]. Qed.

Lemma wp_index {A} (l : list A) (i : nat) (Q : A -> State -> Prop) (s : State) :
  (forall a, l !! i = Some a -> Q a s) -> wp (index l i) Q s.
Proof.
  intros H. unfold wp, index. destruct (l !! i) as [a|]; [exact (H a eq_refl) | exact Logic.I].
Qed.

Lemma wp_foldM {A B} (I : B -> State -> Prop) (l : list A) (b : B)
    (body : B -> A -> M B) (s : State) :
  (forall b x s, I b s -> wp (body b x) I s) ->
  I b s -> wp (foldM l b body) I s.
Proof.
  intros Hbody. revert b s. induction l as [|x l IH]; intros b s H; [exact H|].
  rewrite foldM_cons. apply wp_bind. eapply wp_mono; [now apply Hbody|].
  intros b' s' H'. now apply IH.
Qed.

Section Sync_steps.

(** A property [I] of the count and the state that the steps of the choice
    of the endpoint keep: a question to the host, the write of a probe, an
    address more for a record, and an endpoint for a record together with
    one more in the count. *)
Variable I : Z -> State -> Prop.
Hypothesis I_tick : forall c s,
  I c s -> I c (mkState (cloud s) (S (clock s)) (trace s)).
Hypothesis I_probe : forall c s msg a,
  I c s -> I c (mkState (cloud s) (clock s) (trace s ++ [EvProbeWrite msg a])).
Hypothesis I_KnownIPs : forall c s i x,
  I c s ->
  I c (put_peers (alter (fun p => with_KnownIPs (KnownIPs p ++ [x]) p) i
                    (NetworkPeers (cloud s))) s).
Hypothesis I_Endpoint : forall c s i e,
  I c s ->
  I (c + 1)%Z (put_peers (alter (with_Endpoint e) i (NetworkPeers (cloud s))) s).

Variables (codec : Codec) (host : Host).

Lemma TestConnection_inv (c : Z) (endpoint : option net.UDPAddr) (s : State) :
  I c s -> wp (TestConnection codec host endpoint) (fun _ s' => I c s') s.
Proof.
  intros H. unfold TestConnection. apply wp_bind, wp_ask.
  destruct (dial_err _); [now apply I_tick|].
  apply wp_bind, wp_emit.
  destruct (write_err _); apply I_probe, I_tick, H.
Qed.

Lemma mergeIps_inv (c : Z) (i : nat) (peer : NetworkPeer) (ips : list string)
    (s : State) :
  I c s -> wp (mergeIps host i peer ips) (fun _ s' => I c s') s.
Proof.
  unfold mergeIps, forM_. apply (wp_foldM (fun _ s' => I c s')).
  intros _ ip s1 H1.
  destruct (String.eqb ip "" || String.eqb ip "0"); [exact H1|].
  destruct (negb _); [|exact H1].
  apply wp_bind, wp_ask, wp_updPeer. intros p _.
  apply (I_KnownIPs c (mkState (cloud s1) (S (clock s1)) (trace s1))).
  now apply I_tick.
Qed.

Lemma probeLAN_inv (i : nat) (interfaces : list Interface) (c : Z) (s : State) :
  I c s -> wp (probeLAN codec host i interfaces c) I s.
Proof.
  intros H. unfold probeLAN. apply wp_bind, wp_get_ptp.
  apply (wp_foldM I); [|exact H]. intros c1 inf s1 H1.
  destruct (String.eqb (Name inf) (DeviceName (cloud s))); [exact H1|].
  apply (wp_foldM I); [|exact H1]. intros c2 network s2 H2.
  apply wp_bind, wp_peerAt. intros cur _.
  apply (wp_foldM I); [|exact H2]. intros c3 kip s3 H3.
  apply wp_bind, wp_deref. intros k _. apply wp_bind, wp_deref. intros nw _.
  destruct (net.Contains nw (net.IP_of k)); [|exact H3].
  apply wp_bind. eapply wp_mono; [apply TestConnection_inv; exact H3|].
  intros ok s4 H4. cbv beta. destruct ok; [|exact H4].
  apply wp_bind, wp_updPeer. intros p _. now apply I_Endpoint.
Qed.

Lemma selectEndpoint_inv (i : nat) (peer : NetworkPeer) (c : Z) (s : State) :
  I c s -> wp (selectEndpoint codec host i peer c) I s.
Proof.
  intros H. unfold selectEndpoint.
  destruct (String.eqb (Endpoint peer) ""); [|exact H].
  apply wp_bind, wp_ask. apply wp_bind.
  eapply wp_mono; [apply probeLAN_inv, I_tick, H|].
  intros c1 s1 H1. cbv beta. apply wp_bind, wp_peerAt. intros cur _.
  apply wp_bind. apply wp_mono with (Q := fun _ s' => I c1 s').
  { destruct (_ && _); [|exact H1].
    apply wp_bind, wp_index. intros k0 _. apply wp_bind.
    eapply wp_mono; [apply TestConnection_inv, H1|]. now intros ok s2 H2. }
  intros u s2 H2. apply wp_bind, wp_peerAt. intros cur' _.
  destruct (_ || _); [|exact H2].
  apply wp_bind, wp_index. intros k0 _.
  apply wp_bind, wp_updPeer. intros p _. now apply I_Endpoint.
Qed.

End Sync_steps.

Section Sync_invariant.

(** A property [I] of the count and the state that [SyncPeers] keeps, given
    what it does: the steps above, and the append of a record, followed by a
    request to the DHT, for an id of the view that is not empty and that no
    record carries. *)
Variable I : Z -> State -> Prop.
Variable view : list dht.PeerIP.
Hypothesis I_tick : forall c s,
  I c s -> I c (mkState (cloud s) (S (clock s)) (trace s)).
Hypothesis I_probe : forall c s msg a,
  I c s -> I c (mkState (cloud s) (clock s) (trace s ++ [EvProbeWrite msg a])).
Hypothesis I_KnownIPs : forall c s i x,
  I c s ->
  I c (put_peers (alter (fun p => with_KnownIPs (KnownIPs p ++ [x]) p) i
                    (NetworkPeers (cloud s))) s).
Hypothesis I_Endpoint : forall c s i e,
  I c s ->
  I (c + 1)%Z (put_peers (alter (with_Endpoint e) i (NetworkPeers (cloud s))) s).
Hypothesis I_new : forall c s e,
  In e view -> dht.ID e <> "" ->
  Forall (fun p => ID p <> dht.ID e) (NetworkPeers (cloud s)) ->
  I c s ->
  I c (mkState
         (with_NetworkPeers (NetworkPeers (cloud s) ++ [new_record (dht.ID e)]) (cloud s))
         (clock s) (trace s ++ [EvRequestPeerIPs (dht.ID e)])).

Variables (codec : Codec) (host : Host).

Lemma SyncPeers_inv (catched : list string) (s : State) :
  dht.Peers (dht (cloud s)) = view ->
  I 0%Z s ->
  wp (SyncPeers codec host catched) I s.
Proof.
  intros Hview H0. unfold SyncPeers. apply wp_bind, wp_get_ptp. rewrite Hview.
  apply (wp_foldM_in (fun _ c s' => I c s')); [exact H0|].
  clear s Hview H0. intros seen x count s Hx H.
  destruct (String.eqb_spec (dht.ID x) "") as [Hempty|Hid]; [exact H|].
  apply wp_bind, wp_getPeers.
  set (ids := map ID (NetworkPeers (cloud s))).
  set (I' := fun c s' => I c s' /\ map ID (NetworkPeers (cloud s')) = ids).
  assert (I'_tick : forall c s,
            I' c s -> I' c (mkState (cloud s) (S (clock s)) (trace s)))
    by (intros c s0 [H1 H2]; split; [now apply I_tick | exact H2]).
  assert (I'_probe : forall c s msg a,
            I' c s -> I' c (mkState (cloud s) (clock s) (trace s ++ [EvProbeWrite msg a])))
    by (intros c s0 msg a [H1 H2]; split; [now apply I_probe | exact H2]).
  assert (I'_KnownIPs : forall c s i x,
            I' c s ->
            I' c (put_peers (alter (fun p => with_KnownIPs (KnownIPs p ++ [x]) p) i
                               (NetworkPeers (cloud s))) s)).
  { intros c s0 i y [H1 H2]. split; [now apply I_KnownIPs|].
    cbn [put_peers cloud NetworkPeers with_NetworkPeers].
    now rewrite map_ID_alter. }
  assert (I'_Endpoint : forall c s i e,
            I' c s ->
            I' (c + 1)%Z (put_peers (alter (with_Endpoint e) i (NetworkPeers (cloud s))) s)).
  { intros c s0 i e [H1 H2]. split; [now apply I_Endpoint|].
    cbn [put_peers cloud NetworkPeers with_NetworkPeers].
    now rewrite map_ID_alter. }
  apply wp_bind. eapply wp_mono.
  { apply (wp_foldM_in
             (fun idx (r : bool * Z) s' =>
                I' (snd r) s'
                /\ (fst r = false ->
                    forall j, In j idx -> ids !! j <> Some (dht.ID x)))).
    - split; [now split|]. intros _ j [].
    - intros idx j [found c] s1 Hj (HI' & Hf). cbn [fst snd] in *.
      apply wp_bind, wp_peerAt. intros peer Hpeer.
      destruct (String.eqb_spec (ID peer) (dht.ID x)) as [Heq|Hne].
      + apply wp_bind. eapply wp_mono.
        { apply (mergeIps_inv I' I'_tick I'_KnownIPs). exact HI'. }
        intros u s2 H2. apply wp_bind. eapply wp_mono.
        { apply (selectEndpoint_inv I' I'_tick I'_probe I'_Endpoint). exact H2. }
        intros c' s3 H3. split; [exact H3 | discriminate].
      + split; [exact HI'|].
        intros Hff j' Hj'. apply in_app_or in Hj' as [Hj'|[<-|[]]]; [now apply Hf|].
        destruct HI' as [_ Hids].
        rewrite <- Hids, list_lookup_fmap, Hpeer. cbn. congruence. }
  intros [found c] s2 ([HI Hids] & Hf). cbv beta. cbn [fst snd] in *.
  destruct found; cbn [negb]; [exact HI|].
  apply wp_bind, wp_getPeers. apply wp_bind. unfold wp at 1, setPeers.
  apply wp_bind, wp_emit.
  apply (I_new c s2 x Hx Hid); [|exact HI].
  apply Forall_forall. intros p Hp Heq.
  apply list_elem_of_lookup in Hp as [j Hj].
  apply (Hf eq_refl j).
  - apply in_seq. split; [lia|]. cbn.
    apply lookup_lt_Some in Hj.
    apply (f_equal length) in Hids. unfold ids in Hids.
    rewrite !length_map in Hids. lia.
  - rewrite <- Hids, list_lookup_fmap, Hj. cbn. now rewrite Heq.
Qed.

End Sync_invariant.

Lemma map_Endpoint_alter (f : NetworkPeer -> NetworkPeer) (i : nat)
    (l : list NetworkPeer) :
  (forall p, Endpoint (f p) = Endpoint p) -> map Endpoint (alter f i l) = map Endpoint l.
Proof.
  intros Hf. revert i. induction l as [|p l IH]; intros [|i]; cbn; [reflexivity..| |].
  - now rewrite Hf.
  - f_equal. apply IH.
Qed.

(** X22. The count that [SyncPeers] returns is not negative, and when it is 0
    no endpoint has been set: the records that were there have the endpoint
    they had, and the records that were appended have none.  ([main] calls
    [IntroducePeers] only when the count is positive.) *)
Theorem X22_SyncPeers_count_zero (codec : Codec) (host : Host)
    (catched : list string) (s : State) (n : Z) (s' : State) :
  SyncPeers codec host catched s = Done (n, s') ->
  (0 <= n)%Z
  /\ (n = 0%Z ->
      map Endpoint (NetworkPeers (cloud s'))
      = map Endpoint (NetworkPeers (cloud s))
        ++ replicate (length (NetworkPeers (cloud s')) - length (NetworkPeers (cloud s))) "").
Proof.
  intros Hrun. set (l0 := NetworkPeers (cloud s)).
  set (I := fun (c : Z) (s1 : State) =>
              (0 <= c)%Z
              /\ length l0 <= length (NetworkPeers (cloud s1))
              /\ (c = 0%Z ->
                  map Endpoint (NetworkPeers (cloud s1))
                  = map Endpoint l0
                    ++ replicate (length (NetworkPeers (cloud s1)) - length l0) "")).
  assert (H : wp (SyncPeers codec host catched) I s).
  { apply (SyncPeers_inv I (dht.Peers (dht (cloud s)))); [| | | | |reflexivity|].
    - now intros c s1 H.
    - now intros c s1 msg a H.
    - intros c s1 i x (H1 & H2 & H3). unfold I.
      cbn [put_peers cloud NetworkPeers with_NetworkPeers].
      rewrite length_alter, map_Endpoint_alter by reflexivity. now repeat split.
    - intros c s1 i e (H1 & H2 & H3). unfold I.
      cbn [put_peers cloud NetworkPeers with_NetworkPeers].
      rewrite length_alter. split; [lia|]. split; [exact H2 | intros Hc; lia].
    - intros c s1 e _ _ _ (H1 & H2 & H3). unfold I.
      cbn [cloud NetworkPeers with_NetworkPeers].
      rewrite length_app. cbn [length]. split; [exact H1|]. split; [lia|].
      intros Hc. rewrite map_app, (H3 Hc), <- app_assoc. cbn [map new_record Endpoint].
      f_equal.
      replace (length (NetworkPeers (cloud s1)) + 1 - length l0)
        with (S (length (NetworkPeers (cloud s1)) - length l0)) by lia.
      now rewrite replicate_S_end.
    - unfold I, l0. split; [lia|]. split; [lia|]. intros _.
      now rewrite Nat.sub_diag, app_nil_r. }
  destruct (wp_done _ _ _ _ _ H Hrun) as (H1 & _ & H3). now split.
Qed.

Lemma X22_SyncPeers_count_zero_witness :
  (0 <= 0)%Z
  /\ (0%Z = 0%Z ->
      map Endpoint [Sample.fresh "a"; Sample.fresh "b"]
      = map Endpoint [Sample.fresh "a"]
        ++ replicate (length [Sample.fresh "a"; Sample.fresh "b"]
                      - length [Sample.fresh "a"]) "").
Proof.
  apply (X22_SyncPeers_count_zero Sample.codec (Sample.host true) []
           (Sample.state [Sample.fresh "a"] [dht.mkPeerIP "a" []; dht.mkPeerIP "b" []])
           0
           (mkState (Sample.ptp [Sample.fresh "a"; Sample.fresh "b"]
                       [dht.mkPeerIP "a" []; dht.mkPeerIP "b" []])
              1 [EvRequestPeerIPs "b"])
           eq_refl).
Defined.

Lemma requested_app (evs evs' : list Event) :
  requested (evs ++ evs') = requested evs ++ requested evs'.
Proof. unfold requested. apply flat_map_app. Qed.

(** X23. To the outside [SyncPeers] only writes probes and asks the DHT for
    addresses: it hands nothing to the UDP socket of the agent and nothing
    to the TAP device.  It asks the DHT once for each record it appends, for
    the id of that record, in the order of the records, and for no other
    id.  The events before stay as they are and the clock does not go
    back. *)
Theorem X23_SyncPeers_requests (codec : Codec) (host : Host)
    (catched : list string) (s : State) (n : Z) (s' : State) :
  SyncPeers codec host catched s = Done (n, s') ->
  exists evs,
    trace s' = trace s ++ evs
    /\ Forall probe_or_request evs
    /\ requested evs
       = map ID (drop (length (NetworkPeers (cloud s))) (NetworkPeers (cloud s')))
    /\ clock s <= clock s'.
Proof.
  intros Hrun. set (n0 := length (NetworkPeers (cloud s))).
  set (I := fun (_ : Z) (s1 : State) =>
              exists evs,
                trace s1 = trace s ++ evs
                /\ Forall probe_or_request evs
                /\ requested evs = map ID (drop n0 (NetworkPeers (cloud s1)))
                /\ clock s <= clock s1
                /\ n0 <= length (NetworkPeers (cloud s1))).
  assert (H : wp (SyncPeers codec host catched) I s).
  { apply (SyncPeers_inv I (dht.Peers (dht (cloud s)))); [| | | | |reflexivity|].
    - intros c s1 (evs & H1 & H2 & H3 & H4 & H5). exists evs.
      cbn [cloud clock trace]. repeat split; try assumption. lia.
    - intros c s1 msg a (evs & H1 & H2 & H3 & H4 & H5).
      exists (evs ++ [EvProbeWrite msg a]). cbn [cloud clock trace].
      rewrite H1, <- app_assoc, requested_app, H3. cbn [requested flat_map].
      rewrite app_nil_r. repeat split; try assumption.
      apply Forall_app. split; [exact H2 | now repeat constructor].
    - intros c s1 i x (evs & H1 & H2 & H3 & H4 & H5). exists evs.
      cbn [put_peers cloud clock trace NetworkPeers with_NetworkPeers].
      rewrite length_alter, <- skipn_map, map_ID_alter, skipn_map by reflexivity.
      now repeat split.
    - intros c s1 i e (evs & H1 & H2 & H3 & H4 & H5). exists evs.
      cbn [put_peers cloud clock trace NetworkPeers with_NetworkPeers].
      rewrite length_alter, <- skipn_map, map_ID_alter, skipn_map by reflexivity.
      now repeat split.
    - intros c s1 e _ _ _ (evs & H1 & H2 & H3 & H4 & H5).
      exists (evs ++ [EvRequestPeerIPs (dht.ID e)]).
      cbn [cloud clock trace NetworkPeers with_NetworkPeers].
      rewrite H1, <- app_assoc, requested_app, H3, length_app.
      rewrite drop_app_le by exact H5. rewrite map_app.
      repeat split; try assumption; [|lia].
      apply Forall_app. split; [exact H2 | now repeat constructor].
    - exists []. rewrite app_nil_r. unfold n0. rewrite drop_all.
      repeat split; try constructor; lia. }
  destruct (wp_done _ _ _ _ _ H Hrun) as (evs & H1 & H2 & H3 & H4 & _).
  now exists evs.
Qed.

Lemma X23_SyncPeers_requests_witness :
  exists evs,
    [EvRequestPeerIPs "b"] = [] ++ evs
    /\ Forall probe_or_request evs
    /\ requested evs
       = map ID (drop (length [Sample.fresh "a"]) [Sample.fresh "a"; Sample.fresh "b"])
    /\ 0 <= 1.
Proof.
  apply (X23_SyncPeers_requests Sample.codec (Sample.host true) []
           (Sample.state [Sample.fresh "a"] [dht.mkPeerIP "a" []; dht.mkPeerIP "b" []])
           0
           (mkState (Sample.ptp [Sample.fresh "a"; Sample.fresh "b"]
                       [dht.mkPeerIP "a" []; dht.mkPeerIP "b" []])
              1 [EvRequestPeerIPs "b"])
           eq_refl).
Defined.

(** ** SyncPeers: when it does not panic *)

Lemma returns_bind {A B} (m : M A) (k : A -> M B) (Q : B -> State -> Prop) (s : State) :
  returns (bind m k) Q s <-> returns m (fun a s' => returns (k a) Q s') s.
Proof. unfold returns, bind. destruct (m s) as [[a s']|e]; reflexivity. Qed.

Lemma returns_mono {A} (m : M A) (Q Q' : A -> State -> Prop) (s : State) :
  returns m Q s -> (forall a s', Q a s' -> Q' a s') -> returns m Q' s.
Proof. unfold returns. destruct (m s) as [[a s']|e]; auto. Qed.

Lemma returns_done {A} (m : M A) (Q : A -> State -> Prop) (s : State) :
  returns m Q s -> exists a s', m s = Done (a, s') /\ Q a s'.
Proof. unfold returns. destruct (m s) as [[a s']|e]; [eauto | tauto]. Qed.

Lemma returns_foldM_in {A B} (I : B -> State -> Prop) (l : list A) (b : B)
    (body : B -> A -> M B) (s : State) :
  (forall b x s, In x l -> I b s -> returns (body b x) I s) ->
  I b s -> returns (foldM l b body) I s.
Proof.
  revert b s. induction l as [|x l IH]; intros b s Hbody H; [exact H|].
  rewrite foldM_cons. apply returns_bind. eapply returns_mono.
  - apply Hbody; [now left | exact H].
  - intros b' s' H'. apply IH; [|exact H'].
    intros b0 y s0 Hy. apply Hbody. now right.
Qed.

Lemma returns_peerAt (i : nat) (Q : NetworkPeer -> State -> Prop) (s : State) :
  i < length (NetworkPeers (cloud s)) ->
  (forall p, NetworkPeers (cloud s) !! i = Some p -> Q p s) ->
  returns (peerAt i) Q s.
Proof.
  intros Hi H. destruct (lookup_lt_is_Some_2 _ _ Hi) as [p Hp].
  unfold returns. rewrite (peerAt_run _ _ _ Hp). now apply H.
Qed.

Lemma returns_updPeer (i : nat) (f : NetworkPeer -> NetworkPeer)
    (Q : unit -> State -> Prop) (s : State) :
  i < length (NetworkPeers (cloud s)) ->
  Q tt (put_peers (alter f i (NetworkPeers (cloud s))) s) ->
  returns (updPeer i f) Q s.
Proof.
  intros Hi H. destruct (lookup_lt_is_Some_2 _ _ Hi) as [p Hp].
  unfold returns. now rewrite (updPeer_run _ _ _ _ Hp).
Qed.

Lemma returns_TestConnection (codec : Codec) (host : Host)
    (endpoint : option net.UDPAddr) (s : State) :
  returns (TestConnection codec host endpoint) (fun _ s' => cloud s' = cloud s) s.
Proof.
  destruct (TestConnection_returns codec host endpoint s) as (b & s' & Hrun & Hc).
  unfold returns. now rewrite Hrun.
Qed.

Lemma addresses_resolved_alter (f : NetworkPeer -> NetworkPeer) (i : nat)
    (l : list NetworkPeer) :
  (forall p, addresses_resolved p -> addresses_resolved (f p)) ->
  Forall addresses_resolved l -> Forall addresses_resolved (alter f i l).
Proof. intros Hf H. apply Forall_alter; [exact H|]. intros p _. apply Hf. Qed.

Section Sync_returns.

Variables (codec : Codec) (host : Host).

(** [net.Interfaces] succeeds, and every address of an interface parses. *)
Hypothesis interfaces_ok : forall t,
  exists interfaces,
    Interfaces host t = Some interfaces
    /\ Forall (fun inf => Forall (fun network => network <> None) (Addrs inf)) interfaces.

Lemma mergeIps_returns (n i : nat) (peer : NetworkPeer) (ips : list string) (s : State) :
  (forall ip t, In ip ips -> ip <> "" -> ip <> "0" -> ResolveUDPAddr host t ip <> None) ->
  i < n -> safe n s ->
  returns (mergeIps host i peer ips) (fun _ s' => safe n s') s.
Proof.
  intros Hres Hi. unfold mergeIps, forM_.
  apply (returns_foldM_in (fun _ s' => safe n s')).
  intros _ ip s1 Hip [H1 H2].
  destruct (String.eqb_spec ip "") as [|Hne]; cbn [orb]; [now split|].
  destruct (String.eqb_spec ip "0") as [|Hne0]; [now split|].
  destruct (negb _); [|now split].
  apply returns_bind. unfold returns at 1, ask. cbn [cloud].
  apply returns_updPeer; [cbn [cloud]; lia|].
  unfold safe. split; cbn [put_peers cloud NetworkPeers with_NetworkPeers].
  - now rewrite length_alter.
  - apply addresses_resolved_alter; [|exact H2].
    intros p Hp. unfold addresses_resolved in *. cbn [KnownIPs with_KnownIPs].
    apply Forall_app. split; [exact Hp|]. constructor; [|constructor].
    now apply Hres.
Qed.

Lemma probeLAN_returns (n i : nat) (interfaces : list Interface) (count : Z) (s : State) :
  Forall (fun inf => Forall (fun network => network <> None) (Addrs inf)) interfaces ->
  i < n -> safe n s ->
  returns (probeLAN codec host i interfaces count) (fun _ s' => safe n s') s.
Proof.
  intros Hifs Hi H. unfold probeLAN. apply returns_bind. unfold returns at 1, get_ptp.
  apply (returns_foldM_in (fun _ s' => safe n s')); [|exact H].
  intros c1 inf s1 Hinf H1.
  destruct (String.eqb (Name inf) (DeviceName (cloud s))); [exact H1|].
  rewrite Forall_forall in Hifs. specialize (Hifs inf (proj2 (list_elem_of_In _ _) Hinf)).
  apply (returns_foldM_in (fun _ s' => safe n s')); [|exact H1].
  intros c2 network s2 Hnw H2.
  apply returns_bind, returns_peerAt; [destruct H2; lia|]. intros cur Hcur.
  assert (Hcur' : addresses_resolved cur).
  { destruct H2 as [_ H2]. rewrite Forall_forall in H2. apply H2.
    eapply list_elem_of_lookup_2. exact Hcur. }
  apply (returns_foldM_in (fun _ s' => safe n s')); [|exact H2].
  intros c3 kip s3 Hkip H3.
  unfold addresses_resolved in Hcur'. rewrite Forall_forall in Hcur'.
  destruct kip as [k|]; [|now destruct (Hcur' None (proj2 (list_elem_of_In _ _) Hkip))].
  rewrite Forall_forall in Hifs.
  destruct network as [nw|];
    [|now destruct (Hifs None (proj2 (list_elem_of_In _ _) Hnw))].
  cbn [deref]. apply returns_bind. unfold returns at 1, ret.
  apply returns_bind. unfold returns at 1, ret.
  destruct (net.Contains nw (net.IP_of k)); [|exact H3].
  apply returns_bind. eapply returns_mono; [apply returns_TestConnection|].
  intros ok s4 Hc. cbv beta. unfold safe in *. rewrite <- Hc in H3.
  destruct ok; [|exact H3].
  apply returns_bind, returns_updPeer; [destruct H3; lia|].
  unfold returns, ret. cbn [put_peers cloud NetworkPeers with_NetworkPeers].
  destruct H3 as [H3 H3']. split; [now rewrite length_alter|].
  apply addresses_resolved_alter; [|exact H3']. now intros p Hp.
Qed.

Lemma selectEndpoint_returns (n i : nat) (peer : NetworkPeer) (count : Z) (s : State) :
  i < n -> safe n s ->
  returns (selectEndpoint codec host i peer count) (fun _ s' => safe n s') s.
Proof.
  intros Hi H. unfold selectEndpoint.
  destruct (String.eqb (Endpoint peer) ""); [|exact H].
  apply returns_bind. unfold returns at 1, ask.
  destruct (interfaces_ok (clock s)) as (interfaces & -> & Hifs). cbn [default orb].
  apply returns_bind. eapply returns_mono.
  { apply (probeLAN_returns n i interfaces count); [exact Hifs | exact Hi | exact H]. }
  intros c1 s1 H1. cbv beta.
  apply returns_bind, returns_peerAt; [destruct H1; lia|]. intros cur Hcur.
  apply returns_bind. apply returns_mono with (Q := fun _ s' => safe n s').
  { destruct (String.eqb (Endpoint cur) "" && Nat.ltb 0 (length (KnownIPs cur))) eqn:Hc;
      [|exact H1].
    apply andb_true_iff in Hc as [_ Hc]. apply Nat.ltb_lt in Hc.
    destruct (KnownIPs cur) as [|k0 ks]; [cbn in Hc; lia|].
    cbn [index lookup list_lookup]. apply returns_bind. unfold returns at 1, ret.
    apply returns_bind. eapply returns_mono; [apply returns_TestConnection|].
    intros ok s2 Hc2. unfold returns, ret, safe in *. now rewrite Hc2. }
  intros u s2 H2.
  apply returns_bind, returns_peerAt; [destruct H2; lia|]. intros cur' Hcur'.
  cbn [andb]. destruct (Nat.ltb_spec 0 (length (KnownIPs cur'))) as [Hc|]; [|exact H2].
  destruct (KnownIPs cur') as [|k0 ks]; [cbn in Hc; lia|].
  cbn [index lookup list_lookup]. apply returns_bind. unfold returns at 1, ret.
  apply returns_bind, returns_updPeer; [destruct H2; lia|].
  unfold returns, ret, safe in *. cbn [put_peers cloud NetworkPeers with_NetworkPeers].
  destruct H2 as [H2 H2']. split; [now rewrite length_alter|].
  apply addresses_resolved_alter; [|exact H2']. now intros p Hp.
Qed.

Lemma SyncPeers_returns (catched : list string) (s : State) :
  (forall e ip t, In e (dht.Peers (dht (cloud s))) -> In ip (dht.Ips e) ->
                  ip <> "" -> ip <> "0" -> ResolveUDPAddr host t ip <> None) ->
  Forall addresses_resolved (NetworkPeers (cloud s)) ->
  returns (SyncPeers codec host catched)
    (fun _ s' => Forall addresses_resolved (NetworkPeers (cloud s'))) s.
Proof.
  intros Hres H. unfold SyncPeers. apply returns_bind. unfold returns at 1, get_ptp.
  apply (returns_foldM_in
           (fun _ s' => Forall addresses_resolved (NetworkPeers (cloud s'))));
    [|exact H].
  intros count x s1 Hx H1.
  destruct (String.eqb (dht.ID x) ""); [exact H1|].
  apply returns_bind. unfold returns at 1, getPeers.
  apply returns_bind. eapply returns_mono.
  { apply (returns_foldM_in
             (fun _ s' => safe (length (NetworkPeers (cloud s1))) s')); [|now split].
    intros [found c] j s2 Hj H2. apply in_seq in Hj as [_ Hj]. cbn in Hj.
    apply returns_bind, returns_peerAt; [destruct H2; lia|]. intros peer _.
    destruct (String.eqb (ID peer) (dht.ID x)); [|exact H2].
    apply returns_bind. eapply returns_mono.
    { apply (mergeIps_returns (length (NetworkPeers (cloud s1))) j); [|exact Hj|exact H2].
      intros ip t Hip. now apply (Hres x). }
    intros u s3 H3. apply returns_bind. eapply returns_mono.
    { apply (selectEndpoint_returns (length (NetworkPeers (cloud s1))) j);
        [exact Hj | exact H3]. }
    intros c' s4 H4. exact H4. }
  intros [found c] s2 [_ H2]. cbv beta. destruct found; cbn [negb]; [exact H2|].
  unfold returns, bind, getPeers, setPeers, emit, ret.
  cbn [cloud NetworkPeers with_NetworkPeers].
  apply Forall_app. split; [exact H2|]. constructor; [|constructor]. constructor.
Qed.

End Sync_returns.

(** X24. [SyncPeers] returns, and does not panic, when [net.Interfaces]
    succeeds and every address of an interface parses, every address that
    the DHT view reports (other than the empty one and "0") resolves, and no
    record has a nil known address; no record has a nil known address
    afterwards either. *)
Theorem X24_SyncPeers_returns (codec : Codec) (host : Host) (catched : list string)
    (s : State) :
  (forall t, exists interfaces,
      Interfaces host t = Some interfaces
      /\ Forall (fun inf => Forall (fun network => network <> None) (Addrs inf))
           interfaces) ->
  (forall e ip t, In e (dht.Peers (dht (cloud s))) -> In ip (dht.Ips e) ->
                  ip <> "" -> ip <> "0" -> ResolveUDPAddr host t ip <> None) ->
  Forall addresses_resolved (NetworkPeers (cloud s)) ->
  exists n s',
    SyncPeers codec host catched s = Done (n, s')
    /\ Forall addresses_resolved (NetworkPeers (cloud s')).
Proof.
  intros Hifs Hres H.
  exact (returns_done _ _ _ (SyncPeers_returns codec host Hifs catched s Hres H)).
Qed.

Lemma X24_SyncPeers_returns_witness :
  exists n s',
    SyncPeers Sample.codec (Sample.host true) []
      (Sample.state [Sample.fresh "a"] Sample.view_a) = Done (n, s')
    /\ Forall addresses_resolved (NetworkPeers (cloud s')).
Proof.
  apply (X24_SyncPeers_returns Sample.codec (Sample.host true) []
           (Sample.state [Sample.fresh "a"] Sample.view_a)).
  - intros t. eexists. split; [reflexivity|].
    repeat constructor; discriminate.
  - intros e ip t [<-|[]] [<-|[<-|[]]] _ _; discriminate.
  - repeat constructor.
Defined.

(** ** IntroducePeers: every record that waits is reached *)

Lemma introduce_from_reaches (codec : Codec) (host : Host) (ptp : PTPCloud)
    (peers : list NetworkPeer) (t i : nat) (p : NetworkPeer) (a : net.UDPAddr) :
  peers !! i = Some p -> Unknown p = true -> Endpoint p <> "" ->
  (forall t', ResolveUDPAddr host t' (Endpoint p) = Some a) ->
  fst (fst (introduce_from codec host ptp t peers)) !! i
  = Some (with_PeerAddr (Some a) p)
  /\ In (EvSendMessage (PrepareIntroductionMessage codec ptp (dht.SelfID (dht ptp)))
           (Some a))
        (snd (introduce_from codec host ptp t peers)).
Proof.
  intros Hi Hu He Hres. revert t i Hi.
  induction peers as [|q peers IH]; intros t i Hi; [discriminate Hi|].
  cbn [introduce_from]. destruct i as [|i]; cbn in Hi.
  - injection Hi as ->. rewrite Hu. apply String.eqb_neq in He. rewrite He.
    cbn [negb andb]. rewrite Hres.
    destruct (introduce_from codec host ptp (S (S t)) peers) as [[l t'] evs].
    cbn [fst snd]. split; [reflexivity | now left].
  - destruct (Unknown q && negb (String.eqb (Endpoint q) "")).
    + destruct (ResolveUDPAddr host t (Endpoint q)) as [addr|].
      * destruct (IH (S (S t)) i Hi) as [H1 H2].
        destruct (introduce_from codec host ptp (S (S t)) peers) as [[l t'] evs].
        cbn [fst snd] in *. split; [exact H1 | now right].
      * destruct (IH (S t) i Hi) as [H1 H2].
        destruct (introduce_from codec host ptp (S t) peers) as [[l t'] evs].
        cbn [fst snd] in *. now split.
    + destruct (IH t i Hi) as [H1 H2].
      destruct (introduce_from codec host ptp t peers) as [[l t'] evs].
      cbn [fst snd] in *. now split.
Qed.

(** X25. [IntroducePeers] reaches every record that waits for the handshake:
    for a record that is unknown and has an endpoint that the host resolves,
    it stores the resolved address as the [PeerAddr] of the record and hands
    our introduction for that address to the socket. *)
Theorem X25_IntroducePeers_reaches (codec : Codec) (host : Host) (s : State)
    (i : nat) (p : NetworkPeer) (a : net.UDPAddr) :
  NetworkPeers (cloud s) !! i = Some p ->
  Unknown p = true ->
  Endpoint p <> "" ->
  (forall t, ResolveUDPAddr host t (Endpoint p) = Some a) ->
  exists s' evs,
    IntroducePeers codec host s = Done (tt, s')
    /\ NetworkPeers (cloud s') !! i = Some (with_PeerAddr (Some a) p)
    /\ trace s' = trace s ++ evs
    /\ In (EvSendMessage
             (PrepareIntroductionMessage codec (cloud s) (dht.SelfID (dht (cloud s))))
             (Some a)) evs.
Proof.
  intros Hi Hu He Hres.
  destruct (introduce_from_reaches codec host (cloud s) (NetworkPeers (cloud s))
              (clock s) i p a Hi Hu He Hres) as [H1 H2].
  eexists _, _. split.
  { unfold IntroducePeers. unfold bind at 1, getPeers at 1.
    apply (IntroducePeers_loop_run codec host (NetworkPeers (cloud s)) [] s eq_refl). }
  cbn [cloud trace NetworkPeers with_NetworkPeers app].
  split; [exact H1|]. split; [reflexivity | exact H2].
Qed.

Lemma X25_IntroducePeers_reaches_witness :
  exists s' evs,
    IntroducePeers Sample.codec (Sample.host true)
      (Sample.state [with_Endpoint "8.8.8.8:4000" Sample.known_a] []) = Done (tt, s')
    /\ NetworkPeers (cloud s') !! 0
       = Some (with_PeerAddr (Some Sample.public_addr)
                 (with_Endpoint "8.8.8.8:4000" Sample.known_a))
    /\ trace s' = [] ++ evs
    /\ In (EvSendMessage
             (PrepareIntroductionMessage Sample.codec (Sample.ptp
                [with_Endpoint "8.8.8.8:4000" Sample.known_a] []) "me")
             (Some Sample.public_addr)) evs.
Proof.
  apply (X25_IntroducePeers_reaches Sample.codec (Sample.host true)
           (Sample.state [with_Endpoint "8.8.8.8:4000" Sample.known_a] [])
           0 (with_Endpoint "8.8.8.8:4000" Sample.known_a) Sample.public_addr).
  - reflexivity.
  - reflexivity.
  - discriminate.
  - intros t. reflexivity.
Defined.

(** ** The loop of main: a second turn with the same view *)

Lemma IntroducePeers_config (c0 : PTPCloud) (codec : Codec) (host : Host) :
  keeps (same_config c0) (IntroducePeers codec host).
Proof.
  unfold IntroducePeers, UDPSocket_SendMessage. keeps_structure keeps_config_leaf.
Qed.

Lemma main_turn_config (c0 : PTPCloud) (codec : Codec) (host : Host)
    (LastCatch : list string) :
  keeps (same_config c0) (main_turn codec host LastCatch).
Proof.
  unfold main_turn.
  apply keeps_bind; [apply PurgePeers_config|]. intros _.
  apply keeps_bind; [apply SyncPeers_config|]. intros n.
  destruct (0 <? n)%Z; [apply IntroducePeers_config | apply keeps_ret].
Qed.

Lemma filter_all (f : NetworkPeer -> bool) (l : list NetworkPeer) :
  (forall p, In p l -> f p = true) -> List.filter f l = l.
Proof.
  induction l as [|p l IH]; intros H; cbn [List.filter]; [reflexivity|].
  rewrite (H p) by now left. f_equal. apply IH. intros q Hq. apply H. now right.
Qed.

Lemma filter_none (f : NetworkPeer -> bool) (l : list NetworkPeer) :
  (forall p, In p l -> f p = false) -> List.filter f l = [].
Proof.
  induction l as [|p l IH]; intros H; cbn [List.filter]; [reflexivity|].
  rewrite (H p) by now left. apply IH. intros q Hq. apply H. now right.
Qed.

(** X26. The turns of the loop of [main] settle.  After a turn that starts
    with at most one record whose id is absent from the DHT view, the view
    is as it was, and a further turn with that view that returns leaves the
    ids of the registry as they are, record by record: it removes no record
    and appends none. *)
Theorem X26_main_turn_settles (codec : Codec) (host : Host)
    (LastCatch : list string) (s s' s'' : State) :
  length (List.filter
            (fun p => negb (in_view (dht.Peers (dht (cloud s))) (ID p)))
            (NetworkPeers (cloud s))) <= 1 ->
  main_turn codec host LastCatch s = Done (tt, s') ->
  main_turn codec host LastCatch s' = Done (tt, s'') ->
  dht.Peers (dht (cloud s')) = dht.Peers (dht (cloud s))
  /\ map ID (NetworkPeers (cloud s'')) = map ID (NetworkPeers (cloud s')).
Proof.
  intros Hone H1 H2.
  assert (Hturn : Forall (fun p => In (ID p) (map dht.ID (dht.Peers (dht (cloud s)))))
                         (NetworkPeers (cloud s'))
                  /\ (forall e, In e (dht.Peers (dht (cloud s))) -> dht.ID e <> "" ->
                                In (dht.ID e) (map ID (NetworkPeers (cloud s'))))).
  { pose proof H1 as Hrun. unfold main_turn in Hrun.
    rewrite (bind_run _ _ _ _ _ (PurgePeers_one_departure_run s LastCatch Hone)) in Hrun.
    set (s0 := put_peers _ s) in Hrun.
    refine (sync_introduce_matches_view codec host LastCatch
              (dht.Peers (dht (cloud s))) s0 s' eq_refl _ Hrun).
    unfold s0.
    cbn [put_peers cloud NetworkPeers with_NetworkPeers].
    apply Forall_forall. intros p Hp.
    apply list_elem_of_In, List.filter_In in Hp as [_ Hp]. now apply in_view_In. }
  destruct Hturn as [Hin Hcov]. rewrite Forall_forall in Hin.
  assert (Hview : dht.Peers (dht (cloud s')) = dht.Peers (dht (cloud s))).
  { pose proof (wp_done _ _ _ _ _
                  (main_turn_config (cloud s) codec host LastCatch s (same_config_refl s))
                  H1) as Hc.
    unfold same_config in Hc. apply (f_equal dht) in Hc. cbn in Hc. now rewrite Hc. }
  split; [exact Hview|].
  assert (Hpresent : forall p, In p (NetworkPeers (cloud s')) ->
                               in_view (dht.Peers (dht (cloud s'))) (ID p) = true).
  { intros p Hp. rewrite Hview. apply in_view_In. now apply Hin, list_elem_of_In. }
  assert (Hzero : length (List.filter
                            (fun p => negb (in_view (dht.Peers (dht (cloud s'))) (ID p)))
                            (NetworkPeers (cloud s'))) <= 1).
  { rewrite filter_none; [cbn; lia|]. intros p Hp. now rewrite (Hpresent p Hp). }
  unfold main_turn in H2.
  rewrite (bind_run _ _ _ _ _ (PurgePeers_one_departure_run s' LastCatch Hzero)) in H2.
  rewrite (filter_all _ _ Hpresent), put_peers_same in H2.
  unfold bind at 1 in H2.
  destruct (SyncPeers codec host LastCatch s') as [[n s2]|] eqn:Hsync; [|discriminate H2].
  destruct (SyncPeers_appends _ _ _ _ _ _ Hsync) as (ids & Hsynced & _ & Hids).
  assert (Hnone : ids = []).
  { destruct ids as [|id ids]; [reflexivity|]. exfalso.
    inversion Hids as [|? ? (Hne & Hv & Hnew) _]; subst.
    apply Hnew. apply in_map_iff in Hv as (e & <- & He).
    rewrite Hview in He. now apply Hcov. }
  subst ids. cbn [map] in Hsynced. rewrite app_nil_r in Hsynced.
  apply Forall2_synced_ID in Hsynced.
  destruct (0 <? n)%Z; [|now injection H2 as <-].
  refine (wp_done _ _ _ _ _
            (IntroducePeers_keeps_registry
               (fun l => map ID l = map ID (NetworkPeers (cloud s'))) codec host _
               s2 Hsynced)
            H2).
  intros i a l p _ _ _ H. now rewrite map_ID_alter.
Qed.

Lemma X26_main_turn_settles_witness :
  dht.Peers (dht (Sample.ptp [Sample.fresh "b"; Sample.fresh "c"]
                    [dht.mkPeerIP "b" []; dht.mkPeerIP "c" []]))
  = dht.Peers (dht (Sample.ptp [Sample.fresh "a"; Sample.fresh "b"]
                      [dht.mkPeerIP "b" []; dht.mkPeerIP "c" []]))
  /\ map ID [Sample.fresh "b"; Sample.fresh "c"]
     = map ID [Sample.fresh "b"; Sample.fresh "c"].
Proof.
  apply (X26_main_turn_settles Sample.codec (Sample.host true) []
           (Sample.state [Sample.fresh "a"; Sample.fresh "b"]
              [dht.mkPeerIP "b" []; dht.mkPeerIP "c" []])
           (mkState (Sample.ptp [Sample.fresh "b"; Sample.fresh "c"]
                       [dht.mkPeerIP "b" []; dht.mkPeerIP "c" []])
              1 [EvRequestPeerIPs "c"])
           (mkState (Sample.ptp [Sample.fresh "b"; Sample.fresh "c"]
                       [dht.mkPeerIP "b" []; dht.mkPeerIP "c" []])
              3 [EvRequestPeerIPs "c"])).
  - cbn. lia.
  - vm_compute. reflexivity.
  - vm_compute. reflexivity.
Defined.
